(** * standalone/encode.py: udot instruction encoder

    A shallow embedding of the script that rewrites [udot] instructions of
    ARM assembly text into [.word] directives, and the properties of its
    encoder, its annotation reader and its line loop.

    Text is a list of 8-bit characters and [\b] uses the ASCII word
    characters; Python integers are [Z], and [int] and ['%x'] have no limit of
    size.  The two output streams are the lists of what is written to them.
    An exception nobody catches ends the run where it is raised. *)

From Stdlib Require Import List Ascii String ZArith Lia Bool Arith.
Import ListNotations.

Set Implicit Arguments.

Local Open Scope char_scope.
Local Open Scope list_scope.

(** ** Text *)

Definition str := list ascii.

Definition lit (s : string) : str := list_ascii_of_string s.

Definition newline : ascii := ascii_of_nat 10.

Definition code (c : ascii) : N := N_of_ascii c.

Definition in_range (lo hi c : ascii) : bool :=
  (code lo <=? code c)%N && (code c <=? code hi)%N.

(** [[0-9]] *)
Definition is_digit (c : ascii) : bool := in_range "0" "9" c.

(** [[0-9a-f]] *)
Definition is_lhex (c : ascii) : bool := in_range "0" "9" c || in_range "a" "f" c.

(** [[ ]] *)
Definition is_space (c : ascii) : bool := Ascii.eqb c " ".

(** [\w], ASCII *)
Definition is_word (c : ascii) : bool :=
  in_range "a" "z" c || in_range "A" "Z" c || in_range "0" "9" c || Ascii.eqb c "_".

Definition is_word_opt (o : option ascii) : bool :=
  match o with Some c => is_word c | None => false end.

Fixpoint starts_with (p s : str) : bool :=
  match p, s with
  | [], _ => true
  | _ :: _, [] => false
  | a :: p', b :: s' => Ascii.eqb a b && starts_with p' s'
  end.

(** ** The fragment of [re] the script uses

    The three patterns of the script are sequences of literals, [.],
    bracket classes with or without a greedy [*] or [+], one [\b], and
    capture groups that are neither nested nor repeated.  A pattern is the
    list of these items in the order they are written. *)

Inductive cclass : Type :=
| Digit      (* [0-9] *)
| LowerHex   (* [0-9a-f] *)
| Space.     (* [ ] *)

Definition mem (cls : cclass) (c : ascii) : bool :=
  match cls with
  | Digit => is_digit c
  | LowerHex => is_lhex c
  | Space => is_space c
  end.

Inductive item : Type :=
| WordB                  (* \b *)
| Lit (c : ascii)        (* a literal character *)
| Any                    (* .  : any character but a newline *)
| One (cls : cclass)     (* [..] *)
| Star (cls : cclass)    (* [..]* , greedy *)
| Plus (cls : cclass)    (* [..]+ , greedy *)
| GOpen                  (* ( *)
| GClose.                (* ) *)

Definition pattern := list item.

(** What a successful match consumed, with the group brackets in place. *)
Inductive event : Type :=
| Ch (c : ascii)
| Open
| Close.

Definition trace := list event.

(** Greedy repetition of a class in front of the continuation [k] : the
    longest run is tried first, and one character is given back at a time
    while the continuation fails. *)
Fixpoint greedy (cls : cclass) (k : option ascii -> str -> option trace)
    (prev : option ascii) (s : str) : option trace :=
  match s with
  | c :: s' =>
      if mem cls c then
        match greedy cls k (Some c) s' with
        | Some tr => Some (Ch c :: tr)
        | None => k prev s
        end
      else k prev s
  | [] => k prev s
  end.

(** The backtracking matcher anchored at the head of [s]; [prev] is the
    character before it, if any. *)
Fixpoint exec (p : pattern) (prev : option ascii) (s : str) : option trace :=
  match p with
  | [] => Some []
  | WordB :: p' =>
      if xorb (is_word_opt prev) (is_word_opt (hd_error s))
      then exec p' prev s else None
  | Lit c :: p' =>
      match s with
      | a :: s' =>
          if Ascii.eqb a c then option_map (cons (Ch a)) (exec p' (Some a) s')
          else None
      | [] => None
      end
  | Any :: p' =>
      match s with
      | a :: s' =>
          if Ascii.eqb a newline then None
          else option_map (cons (Ch a)) (exec p' (Some a) s')
      | [] => None
      end
  | One cls :: p' =>
      match s with
      | a :: s' =>
          if mem cls a then option_map (cons (Ch a)) (exec p' (Some a) s')
          else None
      | [] => None
      end
  | Star cls :: p' => greedy cls (exec p') prev s
  | Plus cls :: p' =>
      match s with
      | a :: s' =>
          if mem cls a then option_map (cons (Ch a)) (greedy cls (exec p') (Some a) s')
          else None
      | [] => None
      end
  | GOpen :: p' => option_map (cons Open) (exec p' prev s)
  | GClose :: p' => option_map (cons Close) (exec p' prev s)
  end.

(** [re.search] : the match at the leftmost position that has one. *)
Fixpoint search_from (p : pattern) (prev : option ascii) (s : str) : option trace :=
  match exec p prev s with
  | Some tr => Some tr
  | None =>
      match s with
      | [] => None
      | c :: s' => search_from p (Some c) s'
      end
  end.

Definition re_search (p : pattern) (line : str) : option trace :=
  search_from p None line.

(** The characters of a trace: [m.group(0)]. *)
Fixpoint chars (tr : trace) : str :=
  match tr with
  | [] => []
  | Ch c :: tr' => c :: chars tr'
  | _ :: tr' => chars tr'
  end.

(** The characters up to the next closing bracket. *)
Fixpoint until_close (tr : trace) : str :=
  match tr with
  | [] => []
  | Ch c :: tr' => c :: until_close tr'
  | Open :: tr' => until_close tr'
  | Close :: _ => []
  end.

(** [m.group(n)] for [n >= 1] : the text between the [n]-th opening bracket
    and its closing bracket ([[]] when there is no such group). *)
Fixpoint group_from (n : nat) (tr : trace) : str :=
  match tr with
  | [] => []
  | Open :: tr' =>
      match n with
      | 0 => []
      | 1 => until_close tr'
      | S n' => group_from n' tr'
      end
  | _ :: tr' => group_from n tr'
  end.

Definition group (tr : trace) (n : nat) : str :=
  match n with
  | 0 => chars tr
  | _ => group_from n tr
  end.

(** ** The patterns *)

Definition lits (s : string) : pattern := map Lit (lit s).

Definition sp0 : pattern := [Star Space].

(** [v([0-9]+)[ ]*.[ ]*] *)
Definition vreg : pattern :=
  [Lit "v"; GOpen; Plus Digit; GClose; Star Space; Any; Star Space].

(** [\budot[ ]+v([0-9]+)[ ]*.[ ]*4s[ ]*,[ ]*v([0-9]+)[ ]*.[ ]*16b[ ]*,[ ]*] *)
Definition udot_head : pattern :=
  [WordB] ++ lits "udot" ++ [Plus Space] ++ vreg ++ lits "4s" ++ sp0
    ++ lits "," ++ sp0 ++ vreg ++ lits "16b" ++ sp0 ++ lits "," ++ sp0.

(** [r'\budot[ ]+v([0-9]+)[ ]*.[ ]*4s[ ]*,[ ]*v([0-9]+)[ ]*.[ ]*16b[ ]*,[ ]*v([0-9]+)[ ]*.[ ]*16b'] *)
Definition udot_vector_re : pattern :=
  Eval cbv in udot_head ++ vreg ++ lits "16b".

(** [r'\budot[ ]+v([0-9]+)[ ]*.[ ]*4s[ ]*,[ ]*v([0-9]+)[ ]*.[ ]*16b[ ]*,[ ]*v([0-9]+)[ ]*.[ ]*4b[ ]*\[([0-9])\]'] *)
Definition udot_element_re : pattern :=
  Eval cbv in udot_head ++ vreg ++ lits "4b" ++ sp0
    ++ [Lit "["; GOpen; One Digit; GClose; Lit "]"].

(** [r'\.word\ (0x[0-9a-f]+)'] *)
Definition word_re : pattern :=
  Eval cbv in lits ".word " ++ [GOpen] ++ lits "0x" ++ [Plus LowerHex; GClose].

(** ** Exceptions *)

Inductive exn : Type :=
| AssertionError
| ValueError.

Inductive result (A : Type) : Type :=
| Ok (a : A)
| Raise (e : exn).

Arguments Ok {A} a.
Arguments Raise {A} e.

Definition bind {A B : Type} (r : result A) (f : A -> result B) : result B :=
  match r with
  | Ok a => f a
  | Raise e => Raise e
  end.

Notation "x <- r ;; k" := (bind r (fun x => k))
  (at level 61, r at next level, right associativity).
Notation "' pat <- r ;; k" := (bind r (fun x => match x with pat => k end))
  (at level 61, pat pattern, r at next level, right associativity).

(** [assert b] *)
Definition assert (b : bool) : result unit :=
  if b then Ok tt else Raise AssertionError.

(** ** Numbers and text *)

Local Open Scope Z_scope.

(** The value of a digit character in bases up to sixteen. *)
Definition digit_val (c : ascii) : option Z :=
  if in_range "0" "9" c then Some (Z.of_N (code c) - 48)
  else if in_range "a" "f" c then Some (Z.of_N (code c) - 87)
  else if in_range "A" "F" c then Some (Z.of_N (code c) - 55)
  else None.

Fixpoint parse_digits (base : Z) (s : str) (acc : Z) : option Z :=
  match s with
  | [] => Some acc
  | c :: s' =>
      match digit_val c with
      | Some d => if d <? base then parse_digits base s' (acc * base + d) else None
      | None => None
      end
  end.

Definition parse_number (base : Z) (s : str) : result Z :=
  match s with
  | [] => Raise ValueError
  | _ => match parse_digits base s 0 with
         | Some n => Ok n
         | None => Raise ValueError
         end
  end.

(** [int(s)] on an unsigned decimal numeral. *)
Definition int (s : str) : result Z := parse_number 10 s.

(** [int(s, 16)] on an unsigned numeral, with or without its [0x]. *)
Definition int16 (s : str) : result Z :=
  match s with
  | "0" :: x :: s' =>
      if Ascii.eqb x "x" || Ascii.eqb x "X" then parse_number 16 s'
      else parse_number 16 s
  | _ => parse_number 16 s
  end.

Definition digit_char (d : Z) : ascii :=
  if d <? 10 then ascii_of_N (Z.to_N (d + 48)) else ascii_of_N (Z.to_N (d + 87)).

Fixpoint digits_of (base : Z) (fuel : nat) (n : Z) (acc : str) : str :=
  match fuel with
  | O => acc
  | S f =>
      let acc' := digit_char (n mod base) :: acc in
      if n / base =? 0 then acc' else digits_of base f (n / base) acc'
  end.

Definition format_base (base n : Z) : str :=
  if n <? 0 then "-" :: digits_of base (S (Z.to_nat (Z.log2 (- n)))) (- n) []
  else digits_of base (S (Z.to_nat (Z.log2 n))) n [].

(** ['%x' % n] *)
Definition fmt_x (n : Z) : str := format_base 16 n.

(** ['%d' % n] *)
Definition fmt_d (n : Z) : str := format_base 10 n.

(** [s.replace(old, new)] : every occurrence of [old], left to right, an
    occurrence starting where the one before it ends at the earliest. *)
Fixpoint replace_go (old new : str) (skip : nat) (s : str) : str :=
  match s with
  | [] => []
  | c :: s' =>
      match skip with
      | S k => replace_go old new k s'
      | O =>
          if starts_with old s
          then new ++ replace_go old new (Nat.pred (List.length old)) s'
          else c :: replace_go old new O s'
      end
  end.

Definition replace (s old new : str) : str :=
  match old with
  | [] => new ++ flat_map (fun c => c :: new) s
  | _ => replace_go old new O s
  end.

(** ** The encoder *)

Definition encode_udot_vector (line : str) : result (Z * str) :=
  match re_search udot_vector_re line with
  | None => Ok (0, line)
  | Some m =>
      let match_ := group m 0 in
      accum <- int (group m 1) ;;
      lhs <- int (group m 2) ;;
      rhs <- int (group m 3) ;;
      _ <- assert ((accum >=? 0) && (accum <=? 31)) ;;
      _ <- assert ((lhs >=? 0) && (lhs <=? 31)) ;;
      _ <- assert ((rhs >=? 0) && (rhs <=? 31)) ;;
      let mcode :=
        Z.lor (Z.lor (Z.lor 0x6e809400 (Z.shiftl accum 0)) (Z.shiftl lhs 5))
          (Z.shiftl rhs 16) in
      Ok (mcode, match_)
  end.

Definition encode_udot_element (line : str) : result (Z * str) :=
  match re_search udot_element_re line with
  | None => Ok (0, line)
  | Some m =>
      let match_ := group m 0 in
      accum <- int (group m 1) ;;
      lhs <- int (group m 2) ;;
      rhs <- int (group m 3) ;;
      lanegroup <- int (group m 4) ;;
      _ <- assert ((accum >=? 0) && (accum <=? 31)) ;;
      _ <- assert ((lhs >=? 0) && (lhs <=? 31)) ;;
      _ <- assert ((rhs >=? 0) && (rhs <=? 31)) ;;
      _ <- assert ((lanegroup >=? 0) && (lanegroup <=? 3)) ;;
      let l := if Z.land lanegroup 1 =? 0 then 0 else 1 in
      let h := if Z.land lanegroup 2 =? 0 then 0 else 1 in
      let mcode :=
        Z.lor (Z.lor (Z.lor (Z.lor (Z.lor 0x6f80e000 (Z.shiftl accum 0))
          (Z.shiftl lhs 5)) (Z.shiftl rhs 16)) (Z.shiftl l 21)) (Z.shiftl h 11) in
      Ok (mcode, match_)
  end.

(** The loop of [encode] over the rules it is given. *)
Fixpoint encode_with (funcs : list (str -> result (Z * str))) (line : str)
    : result (Z * str) :=
  match funcs with
  | [] => Ok (0, line)
  | encode_func :: rest =>
      '(mcode, match_) <- encode_func line ;;
      if mcode =? 0 then encode_with rest line else Ok (mcode, match_)
  end.

Definition encode (line : str) : result (Z * str) :=
  encode_with [encode_udot_vector; encode_udot_element] line.

Definition read_existing_encoding (line : str) : result Z :=
  match re_search word_re line with
  | Some m => int16 (group m 1)
  | None => Ok 0
  end.

(** ** The line loop *)

Record state : Type := mkState {
  lineno : Z;
  found_existing_encodings : bool;
  found_error : bool;
  stdout : list str;   (* the arguments of [sys.stdout.write], in order *)
  stderr : list str    (* the arguments of [sys.stderr.write], in order *)
}.

Definition initial : state := mkState 0 false false [] [].

(** ["Error at line %d: existing encoding 0x%x differs from encoding 0x%x for
    instruction '%s':\n\n%s\n\n" % (lineno, existing_encoding, mcode, match, line)] *)
Definition error_message (lineno existing_encoding mcode : Z) (match_ line : str) : str :=
  lit "Error at line " ++ fmt_d lineno
    ++ lit ": existing encoding 0x" ++ fmt_x existing_encoding
    ++ lit " differs from encoding 0x" ++ fmt_x mcode
    ++ lit " for instruction '" ++ match_ ++ lit "':" ++ [newline; newline]
    ++ line ++ [newline; newline].

(** ['.word 0x%x  // %s' % (mcode, match)] *)
Definition directive (mcode : Z) (match_ : str) : str :=
  lit ".word 0x" ++ fmt_x mcode ++ lit "  // " ++ match_.

Definition note : str :=
  lit "Note: some instructions that this program is able to encode, were already encoded. These encodings have been checked."
    ++ [newline].

(** One turn of the [for] loop. *)
Definition body (st : state) (line : str) : result state :=
  let lineno := lineno st + 1 in
  '(mcode, match_) <- encode line ;;
  if mcode =? 0 then
    Ok (mkState lineno (found_existing_encodings st) (found_error st)
          (stdout st ++ [line]) (stderr st))
  else
    existing_encoding <- read_existing_encoding line ;;
    if existing_encoding =? 0 then
      let line' := replace line match_ (directive mcode match_) in
      Ok (mkState lineno (found_existing_encodings st) (found_error st)
            (stdout st ++ [line']) (stderr st))
    else if negb (mcode =? existing_encoding) then
      Ok (mkState lineno true true (stdout st ++ [line])
            (stderr st
               ++ [error_message lineno existing_encoding mcode match_ line]))
    else
      Ok (mkState lineno true (found_error st) (stdout st ++ [line]) (stderr st)).

(** How the process ends: by [sys.exit] or by falling off the end of the
    script, or on an exception nobody catches, with what was written up to
    there. *)
Inductive outcome : Type :=
| Exit (status : Z) (out err : list str)
| Uncaught (e : exn) (out err : list str).

Fixpoint loop (st : state) (lines : list str) : state * option exn :=
  match lines with
  | [] => (st, None)
  | line :: rest =>
      match body st line with
      | Ok st' => loop st' rest
      | Raise e => (st, Some e)
      end
  end.

Definition finish (st : state) : outcome :=
  if found_error st then Exit 1 (stdout st) (stderr st)
  else if found_existing_encodings st
       then Exit 0 (stdout st) (stderr st ++ [note])
       else Exit 0 (stdout st) (stderr st).

(** The script, on the lines [sys.stdin] yields. *)
Definition main (lines : list str) : outcome :=
  match loop initial lines with
  | (st, None) => finish st
  | (st, Some e) => Uncaught e (stdout st) (stderr st)
  end.

(** The lines [for line in sys.stdin] yields: the text is cut after each
    newline, which stays with its line. *)
Fixpoint lines_from (cur : str) (text : str) : list str :=
  match text with
  | [] => match cur with [] => [] | _ => [rev cur] end
  | c :: text' =>
      if Ascii.eqb c newline then rev (c :: cur) :: lines_from [] text'
      else lines_from (c :: cur) text'
  end.

Definition readlines (text : str) : list str := lines_from [] text.

(** The script on the text of its standard input. *)
Definition script (stdin : str) : outcome := main (readlines stdin).

(** The status the process leaves: an uncaught exception ends the
    interpreter with status 1. *)
Definition exit_status (o : outcome) : Z :=
  match o with
  | Exit status _ _ => status
  | Uncaught _ _ _ => 1
  end.

Definition written (o : outcome) : list str :=
  match o with
  | Exit _ out _ => out
  | Uncaught _ out _ => out
  end.

Definition diagnostics (o : outcome) : list str :=
  match o with
  | Exit _ _ err => err
  | Uncaught _ _ err => err
  end.

(** ** The matcher: notions *)

(** A match consumes a prefix of the text it is anchored at. *)
Definition consumes (k : option ascii -> str -> option trace) : Prop :=
  forall prev s tr, k prev s = Some tr -> exists r, s = chars tr ++ r.

(** The form of a trace a pattern can leave. *)
Fixpoint shape (p : pattern) (tr : trace) : Prop :=
  match p with
  | [] => tr = []
  | WordB :: p' => shape p' tr
  | Lit c :: p' => exists tr', tr = Ch c :: tr' /\ shape p' tr'
  | Any :: p' => exists a tr', tr = Ch a :: tr' /\ a <> newline /\ shape p' tr'
  | One cls :: p' =>
      exists a tr', tr = Ch a :: tr' /\ mem cls a = true /\ shape p' tr'
  | Star cls :: p' =>
      exists t tr', tr = map Ch t ++ tr' /\ forallb (mem cls) t = true /\ shape p' tr'
  | Plus cls :: p' =>
      exists a t tr', tr = Ch a :: map Ch t ++ tr' /\ mem cls a = true
                      /\ forallb (mem cls) t = true /\ shape p' tr'
  | GOpen :: p' => exists tr', tr = Open :: tr' /\ shape p' tr'
  | GClose :: p' => exists tr', tr = Close :: tr' /\ shape p' tr'
  end.

(** ** What the patterns capture: notions *)

Definition numeral (s : str) : Prop :=
  exists c t, s = c :: t /\ is_digit c = true /\ forallb is_digit t = true.

(** ** The encoder: notions *)

(** The words as the specification writes them. *)
Definition spec_vector_word (accum lhs rhs : Z) : Z :=
  Z.lor (Z.lor (Z.lor 0x6e809400 accum) (Z.shiftl lhs 5)) (Z.shiftl rhs 16).

Definition spec_element_word (accum lhs rhs g : Z) : Z :=
  Z.lor (Z.lor (Z.lor (Z.lor (Z.lor 0x6f80e000 accum) (Z.shiftl lhs 5))
    (Z.shiftl rhs 16)) (Z.shiftl (Z.land g 1) 21))
    (Z.shiftl (Z.land (Z.shiftr g 1) 1) 11).

(** What a rule returns: nothing (word 0 and the line), a word that is not 0,
    or the failure of an assertion. *)
Inductive rule_result (line : str) : result (Z * str) -> Prop :=
| rule_none : rule_result line (Ok (0, line))
| rule_word mcode match_ : mcode <> 0 -> rule_result line (Ok (mcode, match_))
| rule_abort : rule_result line (Raise AssertionError).

(** ** [replace] and [count]: notions *)

(** [s.count(old)] : the occurrences [replace] substitutes. *)
Fixpoint count_go (old : str) (skip : nat) (s : str) : nat :=
  match s with
  | [] => O
  | c :: s' =>
      match skip with
      | S k => count_go old k s'
      | O =>
          if starts_with old s
          then S (count_go old (Nat.pred (List.length old)) s')
          else count_go old O s'
      end
  end.

Definition count (s old : str) : nat :=
  match old with
  | [] => S (List.length s)
  | _ => count_go old O s
  end.

(** ** One line: notions *)

(** The word and the text [encode] returns ([0] when it raises). *)
Definition word_of (line : str) : Z :=
  match encode line with Ok (mcode, _) => mcode | Raise _ => 0 end.

Definition match_of (line : str) : str :=
  match encode line with Ok (_, match_) => match_ | Raise _ => line end.

Definition existing_of (line : str) : Z :=
  match read_existing_encoding line with Ok v => v | Raise _ => 0 end.

Definition raises (line : str) : bool :=
  match encode line with Ok _ => false | Raise _ => true end.

(** A line on which an instruction is recognised, *)
Definition recognised (line : str) : bool := negb (word_of line =? 0).

(** one that already carries a word, *)
Definition annotated (line : str) : bool :=
  recognised line && negb (existing_of line =? 0).

(** and one that carries another word than the one computed. *)
Definition conflicting (line : str) : bool :=
  annotated line && negb (word_of line =? existing_of line).

(** What a turn of the loop writes to [sys.stdout] *)
Definition emitted (line : str) : str :=
  if recognised line && (existing_of line =? 0)
  then replace line (match_of line) (directive (word_of line) (match_of line))
  else line.

(** and to [sys.stderr]. *)
Definition complaint (lineno : Z) (line : str) : list str :=
  if conflicting line
  then [error_message lineno (existing_of line) (word_of line) (match_of line) line]
  else [].

Definition after (st : state) (line : str) : state :=
  mkState (lineno st + 1)
    (found_existing_encodings st || annotated line)
    (found_error st || conflicting line)
    (stdout st ++ [emitted line])
    (stderr st ++ complaint (lineno st + 1) line).

(** ** The loop: notions *)

Fixpoint complaints (lineno : Z) (lines : list str) : list str :=
  match lines with
  | [] => []
  | line :: rest => complaint (lineno + 1) line ++ complaints (lineno + 1) rest
  end.

Definition after_all (st : state) (lines : list str) : state :=
  mkState (lineno st + Z.of_nat (List.length lines))
    (found_existing_encodings st || existsb annotated lines)
    (found_error st || existsb conflicting lines)
    (stdout st ++ map emitted lines)
    (stderr st ++ complaints (lineno st) lines).

(** ** Matches without backtracking: notions *)

(** The text does not go on with a character of the class. *)
Definition stops (cls : cclass) (rest : str) : Prop :=
  match rest with c :: _ => mem cls c = false | [] => True end.

(** [straight p s tr] : the pattern [p], without [\b], matches at the head of
    [s] with every repetition taking the whole run of its class, and leaves
    the trace [tr]. *)
Inductive straight : pattern -> str -> trace -> Prop :=
| straight_nil s : straight [] s []
| straight_lit c p s tr :
    straight p s tr -> straight (Lit c :: p) (c :: s) (Ch c :: tr)
| straight_any a p s tr :
    a <> newline -> straight p s tr -> straight (Any :: p) (a :: s) (Ch a :: tr)
| straight_one cls a p s tr :
    mem cls a = true -> straight p s tr ->
    straight (One cls :: p) (a :: s) (Ch a :: tr)
| straight_star cls t p s tr :
    forallb (mem cls) t = true -> stops cls s -> straight p s tr ->
    straight (Star cls :: p) (t ++ s) (map Ch t ++ tr)
| straight_plus cls a t p s tr :
    mem cls a = true -> forallb (mem cls) t = true -> stops cls s ->
    straight p s tr ->
    straight (Plus cls :: p) (a :: t ++ s) (Ch a :: map Ch t ++ tr)
| straight_open p s tr : straight p s tr -> straight (GOpen :: p) s (Open :: tr)
| straight_close p s tr : straight p s tr -> straight (GClose :: p) s (Close :: tr).

(** ** The instruction as it is usually written: notions *)

Definition vector_text (d1 d2 d3 : str) : str :=
  lit "udot v" ++ d1 ++ lit ".4s, v" ++ d2 ++ lit ".16b, v" ++ d3 ++ lit ".16b".


(** The lines [udot v<accum>.4s, v<lhs>.16b, v<rhs>.16b] and
    [udot v<accum>.4s, v<lhs>.16b, v<rhs>.4b[<g>]]. *)
Definition vector_line (accum lhs rhs : Z) : str :=
  vector_text (fmt_d accum) (fmt_d lhs) (fmt_d rhs).


(** ** The words are 32-bit: notions *)

Definition regs : list Z := map Z.of_nat (seq 0 32).

Definition vector_word_ok (a l r : Z) : bool :=
  let w := spec_vector_word a l r in
  (0 <? w) && (w <? 2 ^ 32)
  && (Z.land w 31 =? a) && (Z.land (Z.shiftr w 5) 31 =? l)
  && (Z.land (Z.shiftr w 16) 31 =? r).

Definition element_word_ok (a l r g : Z) : bool :=
  let w := spec_element_word a l r g in
  (0 <? w) && (w <? 2 ^ 32)
  && (Z.land w 31 =? a) && (Z.land (Z.shiftr w 5) 31 =? l)
  && (Z.land (Z.shiftr w 16) 31 =? r)
  && Bool.eqb (Z.testbit w 21) (Z.testbit g 0)
  && Bool.eqb (Z.testbit w 11) (Z.testbit g 1).

(** ** Where [re.search] finds its match: notions *)

(** The character before the text that follows [pre]. *)
Fixpoint prev_after (prev : option ascii) (pre : str) : option ascii :=
  match pre with
  | [] => prev
  | c :: pre' => prev_after (Some c) pre'
  end.

(** ** The pattern of the annotation: notions *)

Fixpoint take_while (f : ascii -> bool) (s : str) : str :=
  match s with
  | c :: s' => if f c then c :: take_while f s' else []
  | [] => []
  end.

Fixpoint drop_while (f : ascii -> bool) (s : str) : str :=
  match s with
  | c :: s' => if f c then drop_while f s' else s
  | [] => []
  end.

(** The text starts with [.word 0x] and a lower-case hexadecimal digit. *)
Definition directive_at (s : str) : bool :=
  starts_with (lit ".word 0x") s
  && match skipn 8 s with c :: _ => is_lhex c | [] => false end.

(** Such a text starts somewhere in the line. *)
Fixpoint has_directive (s : str) : bool :=
  directive_at s
  || match s with [] => false | _ :: s' => has_directive s' end.

(** The trace the annotation pattern leaves on [.word 0x<hex>]. *)
Definition word_trace (hex : str) : trace :=
  map Ch (lit ".word ") ++ Open :: Ch "0" :: Ch "x" :: map Ch hex ++ [Close].

(** ** Lines with one [udot]: notions *)

Definition udot : str := lit "udot".

(** The places of [s] at which [w] starts. *)
Fixpoint occurrences (w s : str) : nat :=
  match s with
  | [] => O
  | _ :: s' => ((if starts_with w s then 1 else 0) + occurrences w s')%nat
  end.

(** [w] starts at no place of [pre] in [pre ++ rest]. *)
Fixpoint clear_of (w pre rest : str) : bool :=
  match pre with
  | [] => true
  | _ :: pre' => negb (starts_with w (pre ++ rest)) && clear_of w pre' rest
  end.

(** Both instruction patterns start with [\budot]. *)
Definition udot_rule (p : pattern) : Prop :=
  exists p', p = WordB :: Lit "u" :: Lit "d" :: Lit "o" :: Lit "t" :: p'.

(** [.word 0x<hex>  // ], what the rewrite puts before the instruction. *)
Definition directive_head (mcode : Z) : str :=
  lit ".word 0x" ++ fmt_x mcode ++ lit "  // ".

(** ** The second run: notions *)

(** A line with at most one [udot] and no directive that reads as 0. *)
Definition tidy (line : str) : bool :=
  (occurrences udot line <=? 1)%nat
  && negb (has_directive line && (existing_of line =? 0)).

(** ** Example lines *)

(** The lines of the examples. *)
Definition udot_v16 : str := lit "udot v16.4s, v4.16b, v0.16b".

Definition udot_v1_lane2 : str := lit "udot v1.4s, v2.16b, v3.4b[2]".

Definition udot_v32 : str := lit "udot v32.4s, v0.16b, v0.16b".

Definition udot_lane4 : str := lit "udot v0.4s, v0.16b, v0.4b[4]".

Definition found (p : pattern) (line : str) : trace :=
  match re_search p line with Some m => m | None => [] end.

Definition conflict_v16 : str :=
  lit ".word 0x6e809491  // udot v16.4s, v4.16b, v0.16b" ++ [newline].

Definition udot_twice : str :=
  lit "udot v0.4s, v0.16b, v0.16b; udot v0.4s, v0.16b, v0.16b".

Definition annotated_v16 : str :=
  lit ".word 0x6e809490  // udot v16.4s, v4.16b, v0.16b".

Definition two_spaces_v16 : str :=
  lit ".word  0x6e809490  // udot v16.4s, v4.16b, v0.16b".

Definition upper_case_v16 : str :=
  lit ".word 0x6E809490  // udot v16.4s, v4.16b, v0.16b".

Definition zero_annotated : str :=
  lit ".word 0x0  // udot v16.4s, v4.16b, v0.16b" ++ [newline].

Definition two_lines : list str :=
  [udot_v16 ++ [newline]; lit "ret" ++ [newline]].

Definition udot_after_x : str :=
  lit "xudot v1.4s, v2.16b, v0016b16b udot v1.4s, v2.16b, v0016b".

(** ** What [encode] returns: notions *)

Definition no_newline (s : str) : bool :=
  forallb (fun c => negb (Ascii.eqb c newline)) s.

Fixpoint lits_no_newline (p : pattern) : bool :=
  match p with
  | [] => true
  | Lit c :: p' => negb (Ascii.eqb c newline) && lits_no_newline p'
  | _ :: p' => lits_no_newline p'
  end.

(** The bits of a word that hold no operand. *)
Definition vector_opcode_ok (a l r : Z) : bool :=
  let w := spec_vector_word a l r in
  (Z.land w 0xffe0fc00 =? 0x6e809400) && negb (Z.testbit w 24).

Definition element_opcode_ok (a l r g : Z) : bool :=
  let w := spec_element_word a l r g in
  (Z.land w 0xffc0f400 =? 0x6f80e000) && Z.testbit w 24.

(** Where a word that is not 0 comes from. *)
Definition from_vector (line : str) (mcode : Z) (match_ : str) : Prop :=
  exists m accum lhs rhs,
    re_search udot_vector_re line = Some m
    /\ int (group m 1) = Ok accum /\ int (group m 2) = Ok lhs
    /\ int (group m 3) = Ok rhs
    /\ 0 <= accum <= 31 /\ 0 <= lhs <= 31 /\ 0 <= rhs <= 31
    /\ mcode = spec_vector_word accum lhs rhs /\ match_ = group m 0.

Definition from_element (line : str) (mcode : Z) (match_ : str) : Prop :=
  re_search udot_vector_re line = None
  /\ exists m accum lhs rhs g,
       re_search udot_element_re line = Some m
       /\ int (group m 1) = Ok accum /\ int (group m 2) = Ok lhs
       /\ int (group m 3) = Ok rhs /\ int (group m 4) = Ok g
       /\ 0 <= accum <= 31 /\ 0 <= lhs <= 31 /\ 0 <= rhs <= 31 /\ 0 <= g <= 3
       /\ mcode = spec_element_word accum lhs rhs g /\ match_ = group m 0.

(** ** Text that holds no instruction: notions *)

(** The mnemonic starts somewhere in [s], after a character that is not a
    word character; [prev] is the character before [s]. *)
Fixpoint has_mnemonic (prev : option ascii) (s : str) : bool :=
  (starts_with udot s && negb (is_word_opt prev))
  || match s with
     | [] => false
     | c :: s' => has_mnemonic (Some c) s'
     end.

(** ** The output, line by line: notions *)

(** A line with its newline, and a last line without one. *)
Definition terminated (l : str) : Prop :=
  exists b, l = b ++ [newline] /\ no_newline b = true.

Definition unterminated (l : str) : Prop :=
  l <> [] /\ no_newline l = true.

(** What [sys.stdin] can yield: lines that end with the only newline they
    hold, the last one possibly without a newline. *)
Inductive split_lines : list str -> Prop :=
| split_nil : split_lines []
| split_last l : unterminated l -> split_lines [l]
| split_cons l ls : terminated l -> split_lines ls -> split_lines (l :: ls).

(** ** Other ways to write the instruction: notions *)

Definition spaces (n : nat) : str := repeat " "%char n.

(** What may stand where the dot of [.4s], [.16b] and [.4b] is expected:
    the patterns have an unescaped [.] there. *)
Definition separator (c : ascii) : bool :=
  negb (Ascii.eqb c newline) && negb (is_space c) && negb (is_digit c).

Definition is_numeral (d : str) : bool :=
  match d with
  | [] => false
  | _ => forallb is_digit d
  end.

(** [v<d>], spaces, a separator, spaces. *)
Definition operand (d : str) (n : nat) (sep : ascii) (n' : nat) : str :=
  "v"%char :: d ++ spaces n ++ sep :: spaces n'.

Definition comma (n n' : nat) : str := spaces n ++ ","%char :: spaces n'.

(** The vector form with [1 + g 0] spaces after the mnemonic, [g i] spaces at
    the ten other places where the pattern has [[ ]*], and the separators
    [s 1], [s 2], [s 3] in place of the dots. *)
Definition vector_layout (g : nat -> nat) (s : nat -> ascii) (d1 d2 d3 : str) : str :=
  lit "udot " ++ spaces (g 0%nat) ++ operand d1 (g 1%nat) (s 1%nat) (g 2%nat)
    ++ lit "4s" ++ comma (g 3%nat) (g 4%nat)
    ++ operand d2 (g 5%nat) (s 2%nat) (g 6%nat)
    ++ lit "16b" ++ comma (g 7%nat) (g 8%nat)
    ++ operand d3 (g 9%nat) (s 3%nat) (g 10%nat) ++ lit "16b".

(** The indexed form, with [g 11] spaces before the bracket. *)
Definition element_layout (g : nat -> nat) (s : nat -> ascii) (d1 d2 d3 : str)
    (c4 : ascii) : str :=
  lit "udot " ++ spaces (g 0%nat) ++ operand d1 (g 1%nat) (s 1%nat) (g 2%nat)
    ++ lit "4s" ++ comma (g 3%nat) (g 4%nat)
    ++ operand d2 (g 5%nat) (s 2%nat) (g 6%nat)
    ++ lit "16b" ++ comma (g 7%nat) (g 8%nat)
    ++ operand d3 (g 9%nat) (s 3%nat) (g 10%nat) ++ lit "4b"
    ++ spaces (g 11%nat) ++ "["%char :: c4 :: lit "]".

(** ** The diagnostics: notions *)

(** The lines the loop goes through: those before the first one that fails
    an assertion. *)
Fixpoint processed (lines : list str) : list str :=
  match lines with
  | [] => []
  | line :: rest => if raises line then [] else line :: processed rest
  end.

(** The lines with their numbers, from 1. *)
Definition numbered (lines : list str) : list (Z * str) :=
  combine (map Z.of_nat (seq 1 (List.length lines))) lines.

(** One message for each numbered line that carries another word than the
    one computed. *)
Definition reports (lines : list (Z * str)) : list str :=
  map (fun nl => error_message (fst nl) (existing_of (snd nl))
                   (word_of (snd nl)) (match_of (snd nl)) (snd nl))
    (filter (fun nl => conflicting (snd nl)) lines).

(** ** The text of the instruction, alone: notions *)

Fixpoint no_wordb (p : pattern) : bool :=
  match p with
  | [] => true
  | WordB :: _ => false
  | _ :: p' => no_wordb p'
  end.

(** A match stays one when text is added after what it was tried on, *)
Definition extends (k : option ascii -> str -> option trace) : Prop :=
  forall prev x r tr, k prev x = Some tr -> exists tr', k prev (x ++ r) = Some tr'.

(** and the first match is found again on the text it consumed. *)
Definition exact (k : option ascii -> str -> option trace) : Prop :=
  forall prev s tr r,
    k prev s = Some tr -> s = chars tr ++ r -> k prev (chars tr) = Some tr.

(** One of the two instruction patterns. *)
Definition rule (p : pattern) : Prop :=
  p = udot_vector_re \/ p = udot_element_re.

(** * Properties *)

(** ** Text *)

Lemma starts_with_app (p s : str) : starts_with p (p ++ s) = true.
Proof.
  induction p as [|a p IH]; simpl; [reflexivity|].
  now rewrite Ascii.eqb_refl, IH.
Qed.

Lemma starts_with_split (p s : str) :
  starts_with p s = true -> s = p ++ skipn (List.length p) s.
Proof.
  revert s; induction p as [|a p IH]; intros [|b s]; simpl; try easy.
  intros H. apply andb_prop in H as [Hab H].
  apply Ascii.eqb_eq in Hab. subst b. f_equal. now apply IH.
Qed.

Lemma starts_with_iff (p s : str) :
  starts_with p s = true <-> exists r, s = p ++ r.
Proof.
  split.
  - intros H. eexists. now apply starts_with_split.
  - intros [r ->]. apply starts_with_app.
Qed.

Lemma in_range_iff (lo hi c : ascii) :
  in_range lo hi c = true <->
  (Z.of_N (code lo) <= Z.of_N (code c) <= Z.of_N (code hi))%Z.
Proof.
  unfold in_range. rewrite andb_true_iff, !N.leb_le. lia.
Qed.

Lemma code_inj (a b : ascii) : code a = code b -> a = b.
Proof.
  unfold code. intros H.
  rewrite <- (ascii_N_embedding a), <- (ascii_N_embedding b). now rewrite H.
Qed.

Lemma code_lt_256 (c : ascii) : (Z.of_N (code c) < 256)%Z.
Proof.
  unfold code. pose proof (N_ascii_bounded c). lia.
Qed.

(** ** The matcher *)

Lemma chars_app (t u : trace) : chars (t ++ u) = chars t ++ chars u.
Proof.
  induction t as [|[c| |] t IH]; simpl; now rewrite ?IH.
Qed.

Lemma chars_map_Ch (t : str) : chars (map Ch t) = t.
Proof.
  induction t as [|c t IH]; simpl; now rewrite ?IH.
Qed.

Lemma until_close_chs (t : str) (tr : trace) :
  until_close (map Ch t ++ tr) = t ++ until_close tr.
Proof.
  induction t as [|c t IH]; simpl; now rewrite ?IH.
Qed.

Lemma group_from_chs (n : nat) (t : str) (tr : trace) :
  group_from n (map Ch t ++ tr) = group_from n tr.
Proof.
  induction t as [|c t IH]; simpl; now rewrite ?IH.
Qed.

Lemma greedy_consumes (cls : cclass) k : consumes k -> consumes (greedy cls k).
Proof.
  intros Hk prev s. revert prev.
  induction s as [|c s IH]; intros prev tr; simpl.
  - apply Hk.
  - destruct (mem cls c); [|apply Hk].
    destruct (greedy cls k (Some c) s) as [tr'|] eqn:E; [|apply Hk].
    intros [= <-]. destruct (IH _ _ E) as [r ->]. now exists r.
Qed.

Lemma consumes_cons (k : option ascii -> str -> option trace) a s tr :
  consumes k -> option_map (cons (Ch a)) (k (Some a) s) = Some tr ->
  exists r, a :: s = chars tr ++ r.
Proof.
  intros Hk H. destruct (k (Some a) s) as [tr'|] eqn:E; [|discriminate].
  injection H as <-. destruct (Hk _ _ _ E) as [r ->]. now exists r.
Qed.

Lemma exec_consumes (p : pattern) : consumes (exec p).
Proof.
  induction p as [|[|c| |cls|cls|cls| |] p IH]; intros prev s tr; simpl.
  - intros [= <-]. now exists s.
  - destruct (xorb _ _); [apply IH|discriminate].
  - destruct s as [|a s]; [discriminate|].
    destruct (Ascii.eqb a c); [|discriminate]. now apply consumes_cons.
  - destruct s as [|a s]; [discriminate|].
    destruct (Ascii.eqb a newline); [discriminate|]. now apply consumes_cons.
  - destruct s as [|a s]; [discriminate|].
    destruct (mem cls a); [|discriminate]. now apply consumes_cons.
  - now apply greedy_consumes.
  - destruct s as [|a s]; [discriminate|].
    destruct (mem cls a); [|discriminate].
    apply consumes_cons. now apply greedy_consumes.
  - destruct (exec p prev s) as [tr'|] eqn:E; [|discriminate].
    intros [= <-]. apply (IH _ _ _ E).
  - destruct (exec p prev s) as [tr'|] eqn:E; [|discriminate].
    intros [= <-]. apply (IH _ _ _ E).
Qed.

(** [re.search] returns a substring of the line. *)
Lemma search_from_substring (p : pattern) (s : str) prev tr :
  search_from p prev s = Some tr ->
  exists pre post, s = pre ++ chars tr ++ post.
Proof.
  revert prev; induction s as [|c s IH]; intros prev; simpl.
  - destruct (exec p prev []) eqn:E; [|discriminate].
    intros [= <-]. destruct (exec_consumes _ _ _ E) as [r Hr].
    exists [], r. exact Hr.
  - destruct (exec p prev (c :: s)) eqn:E.
    + intros [= <-]. destruct (exec_consumes _ _ _ E) as [r Hr].
      exists [], r. exact Hr.
    + intros H. destruct (IH _ H) as (pre & post & ->).
      now exists (c :: pre), post.
Qed.

Lemma greedy_shape (cls : cclass) k (P : trace -> Prop) :
  (forall prev s tr, k prev s = Some tr -> P tr) ->
  forall s prev tr, greedy cls k prev s = Some tr ->
  exists t tr', tr = map Ch t ++ tr' /\ forallb (mem cls) t = true /\ P tr'.
Proof.
  intros Hk. induction s as [|c s IH]; intros prev tr; simpl.
  - intros H. exists [], tr. eauto.
  - destruct (mem cls c) eqn:Hc.
    + destruct (greedy cls k (Some c) s) as [tr1|] eqn:E.
      * intros [= <-]. destruct (IH _ _ E) as (t & tr' & -> & Ht & HP).
        exists (c :: t), tr'. simpl. rewrite Hc, Ht. auto.
      * intros H. exists [], tr. eauto.
    + intros H. exists [], tr. eauto.
Qed.

Lemma exec_shape (p : pattern) prev s tr :
  exec p prev s = Some tr -> shape p tr.
Proof.
  revert prev s tr.
  induction p as [|[|c| |cls|cls|cls| |] p IH]; intros prev s tr; simpl.
  - now intros [= <-].
  - destruct (xorb _ _); [apply IH|discriminate].
  - destruct s as [|a s]; [discriminate|].
    destruct (Ascii.eqb_spec a c) as [->|]; [|discriminate].
    destruct (exec p (Some c) s) eqn:E; [|discriminate].
    intros [= <-]. eauto.
  - destruct s as [|a s]; [discriminate|].
    destruct (Ascii.eqb_spec a newline); [discriminate|].
    destruct (exec p (Some a) s) eqn:E; [|discriminate].
    intros [= <-]. eauto 6.
  - destruct s as [|a s]; [discriminate|].
    destruct (mem cls a) eqn:Ha; [|discriminate].
    destruct (exec p (Some a) s) eqn:E; [|discriminate].
    intros [= <-]. eauto 6.
  - intros H. eapply greedy_shape in H; [exact H|]. exact IH.
  - destruct s as [|a s]; [discriminate|].
    destruct (mem cls a) eqn:Ha; [|discriminate].
    destruct (greedy cls (exec p) (Some a) s) as [tr1|] eqn:E; [|discriminate].
    intros [= <-]. eapply greedy_shape in E; [|exact IH].
    destruct E as (t & tr' & -> & Ht & Hs). eauto 8.
  - destruct (exec p prev s) eqn:E; [|discriminate]. intros [= <-]. eauto.
  - destruct (exec p prev s) eqn:E; [|discriminate]. intros [= <-]. eauto.
Qed.

Lemma search_from_exec (p : pattern) (s : str) prev tr :
  search_from p prev s = Some tr -> exists prev' s', exec p prev' s' = Some tr.
Proof.
  revert prev; induction s as [|c s IH]; intros prev; simpl.
  - destruct (exec p prev []) eqn:E; [|discriminate]. intros [= <-]. eauto.
  - destruct (exec p prev (c :: s)) eqn:E; [intros [= <-]; eauto|]. apply IH.
Qed.

Lemma search_shape (p : pattern) (line : str) tr :
  re_search p line = Some tr -> shape p tr.
Proof.
  intros H. apply search_from_exec in H as (prev & s & H).
  now apply exec_shape in H.
Qed.

(** ** Numbers and text *)

Lemma digit_val_digit (c : ascii) :
  is_digit c = true ->
  exists d, digit_val c = Some d /\ 0 <= d <= 9.
Proof.
  unfold is_digit, digit_val. intros H. rewrite H.
  apply in_range_iff in H. change (Z.of_N (code "0")) with 48 in H.
  change (Z.of_N (code "9")) with 57 in H.
  eexists. split; [reflexivity|lia].
Qed.

Lemma parse_digits_decimal (s : str) :
  forallb is_digit s = true ->
  forall acc, 0 <= acc -> exists n, parse_digits 10 s acc = Some n /\ acc <= n.
Proof.
  induction s as [|c s IH]; simpl; intros Hs acc Hacc.
  - exists acc. split; [reflexivity|lia].
  - apply andb_prop in Hs as [Hc Hs].
    destruct (digit_val_digit _ Hc) as (d & -> & Hd).
    destruct (Z.ltb_spec d 10) as [_|]; [|lia].
    destruct (IH Hs (acc * 10 + d)) as (n & -> & Hn); [lia|].
    exists n. split; [reflexivity|lia].
Qed.

(** [int] succeeds on what [[0-9]+] captures. *)
Lemma int_decimal (c : ascii) (s : str) :
  is_digit c = true -> forallb is_digit s = true ->
  exists n, int (c :: s) = Ok n /\ 0 <= n.
Proof.
  intros Hc Hs. unfold int, parse_number.
  destruct (@parse_digits_decimal (c :: s)) with (acc := 0) as (n & -> & Hn);
    [simpl; now rewrite Hc, Hs|lia|].
  now exists n.
Qed.

(** [int] on what [[0-9]] captures. *)
Lemma int_one_digit (c : ascii) :
  is_digit c = true -> exists n, int [c] = Ok n /\ 0 <= n <= 9.
Proof.
  intros Hc. unfold int, parse_number. simpl.
  destruct (digit_val_digit _ Hc) as (d & -> & Hd).
  destruct (Z.ltb_spec d 10) as [_|]; [|lia].
  exists d. split; [reflexivity|lia].
Qed.

Lemma below_16_cases (d : Z) (P : Z -> Prop) :
  0 <= d < 16 ->
  P 0 -> P 1 -> P 2 -> P 3 -> P 4 -> P 5 -> P 6 -> P 7 -> P 8 -> P 9 ->
  P 10 -> P 11 -> P 12 -> P 13 -> P 14 -> P 15 -> P d.
Proof.
  intros Hd. intros.
  assert (E : d = 0 \/ d = 1 \/ d = 2 \/ d = 3 \/ d = 4 \/ d = 5 \/ d = 6 \/ d = 7
              \/ d = 8 \/ d = 9 \/ d = 10 \/ d = 11 \/ d = 12 \/ d = 13 \/ d = 14
              \/ d = 15) by lia.
  repeat destruct E as [->|E]; try assumption. now subst.
Qed.

Lemma digit_char_val (d : Z) :
  0 <= d < 16 -> digit_val (digit_char d) = Some d.
Proof.
  intros Hd. pattern d. apply below_16_cases; auto.
Qed.

Lemma digit_char_lhex (d : Z) :
  0 <= d < 16 -> is_lhex (digit_char d) = true.
Proof.
  intros Hd. pattern d. apply below_16_cases; auto.
Qed.

Section Digits.

Variable base : Z.
Hypothesis base_lo : 2 <= base.
Hypothesis base_hi : base <= 16.

Lemma digits_of_parse (fuel : nat) :
  forall n acc, 0 <= n < 2 ^ Z.of_nat fuel ->
  parse_digits base (digits_of base fuel n acc) 0 = parse_digits base acc n.
Proof.
  induction fuel as [|f IH]; intros n acc Hn.
  - simpl in *. now replace n with 0 by lia.
  - cbn [digits_of].
    assert (Hm : 0 <= n mod base < base) by (apply Z.mod_pos_bound; lia).
    assert (Hq : 0 <= n / base) by (apply Z.div_pos; lia).
    assert (En : n = base * (n / base) + n mod base)
      by (apply Z.div_mod; lia).
    assert (Hstep : forall v, parse_digits base (digit_char (n mod base) :: acc) v
                    = parse_digits base acc (v * base + n mod base)).
    { intros v. cbn [parse_digits]. rewrite digit_char_val by lia.
      destruct (Z.ltb_spec (n mod base) base); [reflexivity|lia]. }
    destruct (Z.eqb_spec (n / base) 0) as [E0|N0].
    + rewrite Hstep. f_equal. lia.
    + rewrite IH.
      * rewrite Hstep. f_equal. lia.
      * split; [lia|]. rewrite Nat2Z.inj_succ, Z.pow_succ_r in Hn by lia.
        apply Z.div_lt_upper_bound; [lia|]. nia.
Qed.

Lemma digits_of_acc_nonempty (fuel : nat) :
  forall n acc, acc <> [] -> digits_of base fuel n acc <> [].
Proof.
  induction fuel as [|f IH]; intros n acc Ha; simpl; [exact Ha|].
  destruct (n / base =? 0); [discriminate|]. apply IH. discriminate.
Qed.

Lemma digits_of_nonempty (fuel : nat) (n : Z) (acc : str) :
  digits_of base (S fuel) n acc <> [].
Proof.
  cbn [digits_of]. destruct (n / base =? 0); [discriminate|].
  apply digits_of_acc_nonempty. discriminate.
Qed.

Lemma digits_of_lhex (fuel : nat) :
  forall n acc, 0 <= n -> forallb is_lhex acc = true ->
  forallb is_lhex (digits_of base fuel n acc) = true.
Proof.
  induction fuel as [|f IH]; intros n acc Hn Ha; simpl; [exact Ha|].
  assert (Hm : 0 <= n mod base < base) by (apply Z.mod_pos_bound; lia).
  assert (Hacc : forallb is_lhex (digit_char (n mod base) :: acc) = true).
  { simpl. rewrite digit_char_lhex by lia. exact Ha. }
  destruct (n / base =? 0); [exact Hacc|].
  apply IH; [apply Z.div_pos; lia|exact Hacc].
Qed.

End Digits.

Lemma log2_fuel (n : Z) : 0 <= n -> 0 <= n < 2 ^ Z.of_nat (S (Z.to_nat (Z.log2 n))).
Proof.
  intros Hn. split; [exact Hn|].
  rewrite Nat2Z.inj_succ, Z2Nat.id by apply Z.log2_nonneg.
  destruct (Z.eq_dec n 0) as [->|]; [reflexivity|].
  apply Z.log2_spec. lia.
Qed.

(** ['%x'] writes lower-case digits, at least one, *)
Lemma fmt_x_lhex (n : Z) :
  0 <= n -> fmt_x n <> [] /\ forallb is_lhex (fmt_x n) = true.
Proof.
  intros Hn. unfold fmt_x, format_base.
  destruct (Z.ltb_spec n 0); [lia|]. split.
  - apply digits_of_nonempty.
  - apply digits_of_lhex; try lia. reflexivity.
Qed.

(** and [int(_, 16)] reads them back. *)
Lemma parse_fmt_x (n : Z) :
  0 <= n -> parse_number 16 (fmt_x n) = Ok n.
Proof.
  intros Hn. unfold parse_number.
  destruct (fmt_x n) eqn:E; [now apply fmt_x_lhex in E|]. rewrite <- E.
  unfold fmt_x, format_base. destruct (Z.ltb_spec n 0); [lia|].
  rewrite digits_of_parse; try lia; [reflexivity|]. now apply log2_fuel.
Qed.

Lemma int16_0x (s : str) : int16 ("0" :: "x" :: s) = parse_number 16 s.
Proof. reflexivity. Qed.

(** ** What the patterns capture *)

Ltac open_shape H :=
  cbn [shape] in H;
  repeat match goal with
         | X : exists _, _ |- _ => destruct X as [? X]
         | X : _ /\ _ |- _ => destruct X as [? X]
         end;
  subst.

Ltac read_groups :=
  repeat (cbn [group group_from until_close chars app]
          || rewrite group_from_chs || rewrite until_close_chs
          || rewrite chars_app || rewrite chars_map_Ch).

Lemma int_numeral (s : str) : numeral s -> exists n, int s = Ok n /\ 0 <= n.
Proof. intros (c & t & -> & Hc & Ht). now apply int_decimal. Qed.

Lemma vector_groups (line : str) (m : trace) :
  re_search udot_vector_re line = Some m ->
  numeral (group m 1) /\ numeral (group m 2) /\ numeral (group m 3)
  /\ exists t, group m 0 = lit "udot " ++ t.
Proof.
  intros H. apply search_shape in H. unfold udot_vector_re in H.
  open_shape H. cbn [mem] in *.
  match goal with X : is_space ?a = true |- _ =>
    unfold is_space in X; apply Ascii.eqb_eq in X; subst a end.
  unfold numeral. read_groups. rewrite !app_nil_r.
  change (mem Digit) with is_digit in *.
  do 3 (split; [do 2 eexists; split; [reflexivity|split; assumption]|]).
  eexists. reflexivity.
Qed.

Lemma element_groups (line : str) (m : trace) :
  re_search udot_element_re line = Some m ->
  numeral (group m 1) /\ numeral (group m 2) /\ numeral (group m 3)
  /\ (exists c, group m 4 = [c] /\ is_digit c = true)
  /\ exists t, group m 0 = lit "udot " ++ t.
Proof.
  intros H. apply search_shape in H. unfold udot_element_re in H.
  open_shape H. cbn [mem] in *.
  match goal with X : is_space ?a = true |- _ =>
    unfold is_space in X; apply Ascii.eqb_eq in X; subst a end.
  unfold numeral. read_groups. rewrite !app_nil_r.
  change (mem Digit) with is_digit in *.
  do 3 (split; [do 2 eexists; split; [reflexivity|split; assumption]|]).
  split; [eexists; split; [reflexivity|assumption]|]. eexists. reflexivity.
Qed.

(** ** The encoder *)

Lemma spec_vector_word_nonzero (a l r : Z) : spec_vector_word a l r <> 0.
Proof.
  unfold spec_vector_word. intros H.
  repeat (apply Z.lor_eq_0_iff in H; destruct H as [H _]). discriminate.
Qed.

Lemma spec_element_word_nonzero (a l r g : Z) : spec_element_word a l r g <> 0.
Proof.
  unfold spec_element_word. intros H.
  repeat (apply Z.lor_eq_0_iff in H; destruct H as [H _]). discriminate.
Qed.

Lemma assert_range (n hi : Z) :
  0 <= n -> assert ((n >=? 0) && (n <=? hi)) =
            if n <=? hi then Ok tt else Raise AssertionError.
Proof.
  intros Hn. rewrite Z.geb_leb. destruct (Z.leb_spec 0 n); [|lia].
  reflexivity.
Qed.

(** The vector rule on a line its pattern matches. *)
Lemma encode_udot_vector_matched (line : str) (m : trace) :
  re_search udot_vector_re line = Some m ->
  exists accum lhs rhs,
    int (group m 1) = Ok accum /\ int (group m 2) = Ok lhs
    /\ int (group m 3) = Ok rhs /\ 0 <= accum /\ 0 <= lhs /\ 0 <= rhs
    /\ encode_udot_vector line =
       if (accum <=? 31) && (lhs <=? 31) && (rhs <=? 31)
       then Ok (spec_vector_word accum lhs rhs, group m 0)
       else Raise AssertionError.
Proof.
  intros H. destruct (vector_groups _ H) as (N1 & N2 & N3 & _).
  destruct (int_numeral N1) as (a & Ea & Ha).
  destruct (int_numeral N2) as (l & El & Hl).
  destruct (int_numeral N3) as (r & Er & Hr).
  exists a, l, r. repeat (split; [assumption|]).
  unfold encode_udot_vector. rewrite H, Ea, El, Er. cbn [bind].
  rewrite !assert_range by assumption.
  destruct (a <=? 31), (l <=? 31), (r <=? 31); reflexivity.
Qed.

Lemma lane_bits (g : Z) :
  0 <= g <= 3 ->
  (if Z.land g 1 =? 0 then 0 else 1) = Z.land g 1
  /\ (if Z.land g 2 =? 0 then 0 else 1) = Z.land (Z.shiftr g 1) 1.
Proof.
  intros Hg.
  assert (E : g = 0 \/ g = 1 \/ g = 2 \/ g = 3) by lia.
  destruct E as [-> | [-> | [-> | ->]]]; split; reflexivity.
Qed.

(** The indexed rule on a line its pattern matches. *)
Lemma encode_udot_element_matched (line : str) (m : trace) :
  re_search udot_element_re line = Some m ->
  exists accum lhs rhs lanegroup,
    int (group m 1) = Ok accum /\ int (group m 2) = Ok lhs
    /\ int (group m 3) = Ok rhs /\ int (group m 4) = Ok lanegroup
    /\ 0 <= accum /\ 0 <= lhs /\ 0 <= rhs /\ 0 <= lanegroup <= 9
    /\ encode_udot_element line =
       if (accum <=? 31) && (lhs <=? 31) && (rhs <=? 31) && (lanegroup <=? 3)
       then Ok (spec_element_word accum lhs rhs lanegroup, group m 0)
       else Raise AssertionError.
Proof.
  intros H. destruct (element_groups _ H) as (N1 & N2 & N3 & (c & E4 & Hc) & _).
  destruct (int_numeral N1) as (a & Ea & Ha).
  destruct (int_numeral N2) as (l & El & Hl).
  destruct (int_numeral N3) as (r & Er & Hr).
  destruct (int_one_digit _ Hc) as (g & Eg & Hg). rewrite <- E4 in Eg.
  exists a, l, r, g. repeat (split; [assumption || lia|]).
  unfold encode_udot_element. rewrite H, Ea, El, Er, Eg. cbn [bind].
  rewrite !assert_range by lia.
  destruct (a <=? 31), (l <=? 31), (r <=? 31); try reflexivity.
  destruct (Z.leb_spec g 3); [|reflexivity]. cbn [bind andb].
  destruct (@lane_bits g) as [E1 E2]; [lia|]. rewrite E1, E2. reflexivity.
Qed.

Lemma encode_udot_vector_unmatched (line : str) :
  re_search udot_vector_re line = None -> encode_udot_vector line = Ok (0, line).
Proof. intros H. unfold encode_udot_vector. now rewrite H. Qed.

Lemma encode_udot_element_unmatched (line : str) :
  re_search udot_element_re line = None -> encode_udot_element line = Ok (0, line).
Proof. intros H. unfold encode_udot_element. now rewrite H. Qed.

Lemma encode_udot_vector_result (line : str) :
  rule_result line (encode_udot_vector line).
Proof.
  destruct (re_search udot_vector_re line) as [m|] eqn:E.
  - destruct (encode_udot_vector_matched _ E)
      as (a & l & r & _ & _ & _ & _ & _ & _ & ->).
    destruct (_ && _); constructor. apply spec_vector_word_nonzero.
  - rewrite encode_udot_vector_unmatched by assumption. constructor.
Qed.

Lemma encode_udot_element_result (line : str) :
  rule_result line (encode_udot_element line).
Proof.
  destruct (re_search udot_element_re line) as [m|] eqn:E.
  - destruct (encode_udot_element_matched _ E)
      as (a & l & r & g & _ & _ & _ & _ & _ & _ & _ & _ & ->).
    destruct (_ && _); constructor. apply spec_element_word_nonzero.
  - rewrite encode_udot_element_unmatched by assumption. constructor.
Qed.

(** [encode] : the first rule that gives a word, in the order of the list. *)
Lemma encode_first (line : str) :
  encode line =
  match encode_udot_vector line with
  | Ok (mcode, match_) =>
      if mcode =? 0 then encode_udot_element line else Ok (mcode, match_)
  | Raise e => Raise e
  end.
Proof.
  unfold encode. cbn [encode_with].
  destruct (encode_udot_vector line) as [[mc mt]|e]; cbn [bind]; [|reflexivity].
  destruct (mc =? 0); [|reflexivity].
  destruct (encode_udot_element_result line) as [|mc' mt' Hmc|]; cbn [bind].
  - reflexivity.
  - destruct (Z.eqb_spec mc' 0); [contradiction|]. reflexivity.
  - reflexivity.
Qed.

Lemma encode_result (line : str) : rule_result line (encode line).
Proof.
  rewrite encode_first.
  destruct (encode_udot_vector_result line) as [|mc mt Hmc|].
  - apply encode_udot_element_result.
  - destruct (Z.eqb_spec mc 0); [contradiction|]. now constructor.
  - constructor.
Qed.

(** A word that is not 0 comes from a match of one of the two patterns, the
    second only when the first has none. *)
Lemma encode_word_inv (line : str) (mcode : Z) (match_ : str) :
  encode line = Ok (mcode, match_) -> mcode <> 0 ->
  exists p m,
    (p = udot_vector_re
     \/ p = udot_element_re /\ re_search udot_vector_re line = None)
    /\ re_search p line = Some m /\ match_ = group m 0.
Proof.
  rewrite encode_first. intros H Hmc.
  destruct (re_search udot_vector_re line) as [m|] eqn:Ev.
  - destruct (encode_udot_vector_matched _ Ev)
      as (a & l & r & _ & _ & _ & _ & _ & _ & E).
    rewrite E in H. destruct (_ && _); [|discriminate].
    destruct (Z.eqb_spec (spec_vector_word a l r) 0) as [E0|_];
      [now apply spec_vector_word_nonzero in E0|].
    injection H as <- <-. exists udot_vector_re, m. auto.
  - rewrite encode_udot_vector_unmatched in H by assumption. cbn in H.
    destruct (re_search udot_element_re line) as [m|] eqn:Ee.
    + destruct (encode_udot_element_matched _ Ee)
        as (a & l & r & g & _ & _ & _ & _ & _ & _ & _ & _ & E).
      rewrite E in H. destruct (_ && _); [|discriminate].
      injection H as <- <-. exists udot_element_re, m. auto.
    + rewrite encode_udot_element_unmatched in H by assumption.
      injection H as <- _. contradiction.
Qed.

Lemma encode_zero_inv (line x : str) :
  encode line = Ok (0, x) ->
  x = line /\ re_search udot_vector_re line = None
  /\ re_search udot_element_re line = None.
Proof.
  rewrite encode_first. intros H.
  destruct (re_search udot_vector_re line) as [m|] eqn:Ev.
  - destruct (encode_udot_vector_matched _ Ev)
      as (a & l & r & _ & _ & _ & _ & _ & _ & E).
    rewrite E in H. destruct (_ && _); [|discriminate].
    destruct (Z.eqb_spec (spec_vector_word a l r) 0) as [E0|_];
      [now apply spec_vector_word_nonzero in E0|].
    injection H as E0 _. now apply spec_vector_word_nonzero in E0.
  - rewrite encode_udot_vector_unmatched in H by assumption. cbn in H.
    destruct (re_search udot_element_re line) as [m|] eqn:Ee.
    + destruct (encode_udot_element_matched _ Ee)
        as (a & l & r & g & _ & _ & _ & _ & _ & _ & _ & _ & E).
      rewrite E in H. destruct (_ && _); [|discriminate].
      injection H as E0 _. now apply spec_element_word_nonzero in E0.
    + rewrite encode_udot_element_unmatched in H by assumption.
      injection H as <-. auto.
Qed.

Lemma encode_unmatched (line : str) :
  re_search udot_vector_re line = None ->
  re_search udot_element_re line = None -> encode line = Ok (0, line).
Proof.
  intros Hv He. rewrite encode_first, encode_udot_vector_unmatched by assumption.
  cbn. now apply encode_udot_element_unmatched.
Qed.

(** The matched text starts with the mnemonic and lies in the line. *)
Lemma encode_word_match (line : str) (mcode : Z) (match_ : str) :
  encode line = Ok (mcode, match_) -> mcode <> 0 ->
  (exists t, match_ = lit "udot " ++ t)
  /\ exists pre post, line = pre ++ match_ ++ post.
Proof.
  intros H Hmc. destruct (encode_word_inv _ H Hmc) as (p & m & Hp & Hs & ->).
  split.
  - destruct Hp as [->|[-> _]].
    + now destruct (vector_groups _ Hs) as (_ & _ & _ & Ht).
    + now destruct (element_groups _ Hs) as (_ & _ & _ & _ & Ht).
  - now apply search_from_substring in Hs.
Qed.

(** ** [replace] and [count] *)

Section Replace.

Variables (a : ascii) (o new : str).
Local Abbreviation old := (a :: o) (only parsing).

Lemma replace_go_skip (t s : str) :
  replace_go old new (List.length t) (t ++ s) = replace_go old new O s.
Proof.
  induction t as [|c t IH]; [reflexivity|]. simpl. exact IH.
Qed.

Lemma count_go_skip (t s : str) :
  count_go old (List.length t) (t ++ s) = count_go old O s.
Proof.
  induction t as [|c t IH]; [reflexivity|]. simpl. exact IH.
Qed.

Lemma replace_go_hit (r : str) :
  replace_go old new O (old ++ r) = new ++ replace_go old new O r.
Proof.
  cbn [app replace_go].
  change (a :: o ++ r) with ((a :: o) ++ r). rewrite starts_with_app.
  cbn [List.length Nat.pred]. now rewrite replace_go_skip.
Qed.

Lemma count_go_hit (r : str) :
  count_go old O (old ++ r) = S (count_go old O r).
Proof.
  cbn [app count_go].
  change (a :: o ++ r) with ((a :: o) ++ r). rewrite starts_with_app.
  cbn [List.length Nat.pred]. now rewrite count_go_skip.
Qed.

Lemma replace_go_miss (c : ascii) (s : str) :
  starts_with old (c :: s) = false ->
  replace_go old new O (c :: s) = c :: replace_go old new O s.
Proof. intros H. cbn [replace_go]. now rewrite H. Qed.

Lemma count_go_miss (c : ascii) (s : str) :
  starts_with old (c :: s) = false ->
  count_go old O (c :: s) = count_go old O s.
Proof. intros H. cbn [count_go]. now rewrite H. Qed.

(** The case analysis both functions follow. *)
Lemma scan_cases (s : str) :
  s = [] \/ (exists r, s = old ++ r)
  \/ (exists c s', s = c :: s' /\ starts_with old s = false).
Proof.
  destruct s as [|c s]; [now left|]. right.
  destruct (starts_with old (c :: s)) eqn:E.
  - left. now apply starts_with_iff.
  - right. now exists c, s.
Qed.

Lemma scan_ind (P : str -> Prop) :
  P [] ->
  (forall r, P r -> P (old ++ r)) ->
  (forall c s, starts_with old (c :: s) = false -> P s -> P (c :: s)) ->
  forall s, P s.
Proof.
  intros H0 Hhit Hmiss s.
  assert (H : forall n s, (List.length s <= n)%nat -> P s).
  { clear s. induction n as [|n IH]; intros s Hn.
    - destruct s; [exact H0|simpl in Hn; lia].
    - destruct (scan_cases s) as [->|[[r ->]|(c & s' & -> & E)]].
      + exact H0.
      + apply Hhit, IH. rewrite length_app in Hn. simpl in Hn.
        clear - Hn. lia.
      + apply Hmiss; [exact E|]. apply IH. simpl in Hn. clear - Hn. lia. }
  now apply (H (List.length s)).
Qed.

Lemma count_zero_replace (s : str) :
  count_go old O s = O -> replace_go old new O s = s.
Proof.
  induction s as [|r IH|c s E IH] using scan_ind.
  - reflexivity.
  - now rewrite count_go_hit.
  - rewrite count_go_miss, replace_go_miss by assumption.
    intros H. now rewrite IH.
Qed.

Lemma count_one_replace (s : str) :
  count_go old O s = 1%nat ->
  exists pre post, s = pre ++ old ++ post
                   /\ replace_go old new O s = pre ++ new ++ post.
Proof.
  induction s as [|r IH|c s E IH] using scan_ind.
  - discriminate.
  - rewrite count_go_hit, replace_go_hit. intros [= H].
    exists [], r. now rewrite count_zero_replace.
  - rewrite count_go_miss, replace_go_miss by assumption.
    intros H. destruct (IH H) as (pre & post & -> & ->).
    now exists (c :: pre), post.
Qed.

Lemma replace_length (s : str) :
  (List.length (replace_go old new O s) + count_go old O s * List.length old
   = List.length s + count_go old O s * List.length new)%nat.
Proof.
  induction s as [|r IH|c s E IH] using scan_ind.
  - reflexivity.
  - rewrite count_go_hit, replace_go_hit, !length_app.
    cbn [List.length] in *. nia.
  - rewrite count_go_miss, replace_go_miss by assumption.
    cbn [List.length] in *. nia.
Qed.

Lemma count_substring (pre post : str) :
  (1 <= count_go old O (pre ++ old ++ post))%nat.
Proof.
  induction pre as [|c pre IH].
  - rewrite app_nil_l, count_go_hit. lia.
  - rewrite <- app_comm_cons.
    destruct (starts_with old (c :: pre ++ old ++ post)) eqn:E.
    + apply starts_with_iff in E as [r E]. rewrite E, count_go_hit. lia.
    + now rewrite count_go_miss.
Qed.

End Replace.

(** ** The annotation reader *)

Lemma digit_val_lhex (c : ascii) :
  is_lhex c = true -> exists d, digit_val c = Some d /\ 0 <= d < 16.
Proof.
  unfold is_lhex, digit_val. intros H.
  destruct (in_range "0" "9" c) eqn:E1.
  - apply in_range_iff in E1. change (Z.of_N (code "0")) with 48 in E1.
    change (Z.of_N (code "9")) with 57 in E1.
    eexists. split; [reflexivity|lia].
  - simpl in H. rewrite H. apply in_range_iff in H.
    change (Z.of_N (code "a")) with 97 in H.
    change (Z.of_N (code "f")) with 102 in H.
    eexists. split; [reflexivity|lia].
Qed.

Lemma parse_digits_lhex (s : str) :
  forallb is_lhex s = true ->
  forall acc, 0 <= acc -> exists n, parse_digits 16 s acc = Some n /\ acc <= n.
Proof.
  induction s as [|c s IH]; simpl; intros Hs acc Hacc.
  - exists acc. split; [reflexivity|lia].
  - apply andb_prop in Hs as [Hc Hs].
    destruct (digit_val_lhex _ Hc) as (d & -> & Hd).
    destruct (Z.ltb_spec d 16) as [_|]; [|lia].
    destruct (IH Hs (acc * 16 + d)) as (n & -> & Hn); [lia|].
    exists n. split; [reflexivity|lia].
Qed.

Lemma word_groups (line : str) (m : trace) :
  re_search word_re line = Some m ->
  exists c t, group m 1 = "0" :: "x" :: c :: t /\ is_lhex c = true
              /\ forallb is_lhex t = true
              /\ group m 0 = lit ".word " ++ group m 1.
Proof.
  intros H. apply search_shape in H. unfold word_re in H.
  open_shape H. cbn [mem] in *. read_groups. rewrite !app_nil_r.
  change (mem LowerHex) with is_lhex in *.
  do 2 eexists. split; [reflexivity|]. split; [assumption|].
  split; [assumption|reflexivity].
Qed.

(** The reader never fails, and reads 0 when the pattern is not found. *)
Lemma read_existing_encoding_ok (line : str) :
  exists v, read_existing_encoding line = Ok v /\ 0 <= v.
Proof.
  unfold read_existing_encoding.
  destruct (re_search word_re line) as [m|] eqn:E.
  - destruct (word_groups _ E) as (c & t & -> & Hc & Ht & _).
    rewrite int16_0x. unfold parse_number.
    destruct (@parse_digits_lhex (c :: t)) with (acc := 0) as (n & -> & Hn);
      [simpl; now rewrite Hc, Ht|lia|].
    now exists n.
  - exists 0. split; [reflexivity|lia].
Qed.

(** ** One line *)

Lemma body_after (st : state) (line : str) :
  body st line =
  match encode line with
  | Ok _ => Ok (after st line)
  | Raise e => Raise e
  end.
Proof.
  unfold body, after, emitted, complaint, conflicting, annotated, recognised,
    word_of, match_of, existing_of.
  destruct (encode line) as [[mc mt]|e]; cbn [bind]; [|reflexivity].
  destruct (read_existing_encoding_ok line) as (ex & -> & _). cbn [bind].
  destruct st as [n fe ferr out err]; cbn [lineno found_existing_encodings
    found_error stdout stderr].
  destruct (mc =? 0); cbn [negb andb].
  - now rewrite !orb_false_r, app_nil_r.
  - destruct (ex =? 0); cbn [negb andb].
    + now rewrite !orb_false_r, app_nil_r.
    + destruct (mc =? ex); cbn [negb].
      * now rewrite orb_true_r, orb_false_r, app_nil_r.
      * now rewrite !orb_true_r.
Qed.

(** ** The loop *)

Lemma after_all_nil (st : state) : after_all st [] = st.
Proof.
  destruct st. unfold after_all. simpl.
  now rewrite Z.add_0_r, !orb_false_r, !app_nil_r.
Qed.

Lemma after_all_cons (st : state) (line : str) (rest : list str) :
  after_all st (line :: rest) = after_all (after st line) rest.
Proof.
  destruct st. unfold after_all, after. simpl.
  rewrite <- !app_assoc, <- !orb_assoc. f_equal. lia.
Qed.

(** The loop runs through lines that do not raise, *)
Lemma loop_through (lines : list str) :
  forall st, existsb raises lines = false ->
  loop st lines = (after_all st lines, None).
Proof.
  induction lines as [|line rest IH]; intros st H.
  - now rewrite after_all_nil.
  - simpl in H. apply orb_false_elim in H as [Hl Hr].
    cbn [loop]. rewrite body_after. unfold raises in Hl.
    destruct (encode line); [|discriminate].
    now rewrite IH, after_all_cons.
Qed.

(** and stops at the first one that does. *)
Lemma loop_stops (pre : list str) (line : str) (post : list str) (e : exn) :
  forall st, existsb raises pre = false -> encode line = Raise e ->
  loop st (pre ++ line :: post) = (after_all st pre, Some e).
Proof.
  induction pre as [|l pre IH]; intros st H He.
  - cbn [app loop]. rewrite body_after, He. now rewrite after_all_nil.
  - simpl in H. apply orb_false_elim in H as [Hl Hr].
    cbn [app loop]. rewrite body_after. unfold raises in Hl.
    destruct (encode l); [|discriminate].
    now rewrite IH, after_all_cons.
Qed.

Lemma raises_split (lines : list str) :
  existsb raises lines = true ->
  exists pre line post e,
    lines = pre ++ line :: post /\ existsb raises pre = false
    /\ encode line = Raise e.
Proof.
  induction lines as [|l rest IH]; [discriminate|]. simpl.
  destruct (raises l) eqn:E.
  - intros _. unfold raises in E. destruct (encode l) as [|e] eqn:El;
      [discriminate|].
    now exists [], l, rest, e.
  - intros H. destruct (IH H) as (pre & line & post & e & -> & Hp & He).
    exists (l :: pre), line, post, e. simpl. now rewrite E.
Qed.

Lemma conflicting_annotated (lines : list str) :
  existsb annotated lines = false -> existsb conflicting lines = false.
Proof.
  induction lines as [|l rest IH]; [reflexivity|]. simpl.
  intros H. apply orb_false_elim in H as [Hl Hr].
  rewrite IH by assumption. unfold conflicting. now rewrite Hl.
Qed.

Lemma complaints_none (lines : list str) :
  existsb conflicting lines = false -> forall n, complaints n lines = [].
Proof.
  induction lines as [|l rest IH]; [reflexivity|]. simpl.
  intros H n. apply orb_false_elim in H as [Hl Hr].
  rewrite IH by assumption. unfold complaint. now rewrite Hl.
Qed.

(** The script on an input none of whose lines raises. *)
Lemma main_through (lines : list str) :
  existsb raises lines = false ->
  main lines =
  if existsb conflicting lines
  then Exit 1 (map emitted lines) (complaints 0 lines)
  else if existsb annotated lines
       then Exit 0 (map emitted lines) [note]
       else Exit 0 (map emitted lines) [].
Proof.
  intros H. unfold main. rewrite loop_through by assumption.
  unfold finish, after_all, initial. cbn.
  destruct (existsb conflicting lines) eqn:Ec; [reflexivity|].
  rewrite complaints_none by assumption.
  destruct (existsb annotated lines); reflexivity.
Qed.

Lemma main_stops (pre : list str) (line : str) (post : list str) (e : exn) :
  existsb raises pre = false -> encode line = Raise e ->
  main (pre ++ line :: post) = Uncaught e (map emitted pre) (complaints 0 pre).
Proof.
  intros H He. unfold main. rewrite (@loop_stops pre line post e initial H He). reflexivity.
Qed.

(** ** Matches without backtracking *)

Lemma greedy_first (cls : cclass) k (t rest : str) (tr : trace) :
  forallb (mem cls) t = true ->
  match rest with c :: _ => mem cls c = false | [] => True end ->
  (forall prev, k prev rest = Some tr) ->
  forall prev, greedy cls k prev (t ++ rest) = Some (map Ch t ++ tr).
Proof.
  intros Ht Hrest Hk. induction t as [|c t IH]; intros prev.
  - cbn [app map]. destruct rest as [|c r]; cbn [greedy]; [apply Hk|].
    rewrite Hrest. apply Hk.
  - cbn [forallb] in Ht. apply andb_prop in Ht as [Hc Ht].
    cbn [app greedy map]. rewrite Hc, (IH Ht). reflexivity.
Qed.

Lemma straight_exec (p : pattern) (s : str) (tr : trace) :
  straight p s tr -> forall prev, exec p prev s = Some tr.
Proof.
  induction 1 as [s|c p s tr _ IH|a p s tr Ha _ IH|cls a p s tr Ha _ IH
                 |cls t p s tr Ht Hs _ IH|cls a t p s tr Ha Ht Hs _ IH
                 |p s tr _ IH|p s tr _ IH]; intros prev; cbn [exec].
  - reflexivity.
  - now rewrite Ascii.eqb_refl, IH.
  - apply Ascii.eqb_neq in Ha. now rewrite Ha, IH.
  - now rewrite Ha, IH.
  - now apply greedy_first.
  - rewrite Ha. now rewrite (@greedy_first cls (exec p) t s tr).
  - now rewrite IH.
  - now rewrite IH.
Qed.

Lemma straight_star0 cls p s tr :
  stops cls s -> straight p s tr -> straight (Star cls :: p) s tr.
Proof. intros Hs H. now apply (@straight_star cls [] p s tr). Qed.

Lemma straight_star1 cls a p s tr :
  mem cls a = true -> stops cls s -> straight p s tr ->
  straight (Star cls :: p) (a :: s) (Ch a :: tr).
Proof.
  intros Ha Hs H. apply (@straight_star cls [a] p s tr); auto.
  simpl. now rewrite Ha.
Qed.

Lemma straight_plus1 cls a p s tr :
  mem cls a = true -> stops cls s -> straight p s tr ->
  straight (Plus cls :: p) (a :: s) (Ch a :: tr).
Proof. intros Ha Hs H. now apply (@straight_plus cls a [] p s tr). Qed.

Lemma exec_wordb (p : pattern) (prev : option ascii) (s : str) :
  exec (WordB :: p) prev s =
  if xorb (is_word_opt prev) (is_word_opt (hd_error s)) then exec p prev s
  else None.
Proof. reflexivity. Qed.

Ltac straight_step :=
  first
    [ apply straight_nil
    | apply straight_lit
    | apply straight_open
    | apply straight_close
    | apply straight_any; [discriminate|]
    | apply straight_one; [eassumption|]
    | apply straight_star0; [reflexivity|]
    | apply straight_plus; [eassumption|eassumption|reflexivity|]
    | apply straight_plus1; [reflexivity|reflexivity|]
    | apply straight_star1; [reflexivity|reflexivity|] ].

(** ** The instruction as it is usually written *)

Lemma exec_vector_text (d1 d2 d3 post : str) (prev : option ascii) :
  numeral d1 -> numeral d2 -> numeral d3 -> is_word_opt prev = false ->
  exists m,
    exec udot_vector_re prev (vector_text d1 d2 d3 ++ post) = Some m
    /\ group m 0 = vector_text d1 d2 d3
    /\ group m 1 = d1 /\ group m 2 = d2 /\ group m 3 = d3.
Proof.
  intros (c1 & t1 & -> & Hc1 & Ht1) (c2 & t2 & -> & Hc2 & Ht2)
    (c3 & t3 & -> & Hc3 & Ht3) Hprev.
  unfold vector_text, udot_vector_re. cbn [lit list_ascii_of_string].
  repeat (progress (cbn [app]; rewrite <- ?app_assoc)).
  rewrite exec_wordb, Hprev. cbn [hd_error is_word_opt].
  change (is_word "u") with true. cbn [xorb].
  change is_digit with (mem Digit) in *.
  eexists. split.
  - apply straight_exec. repeat straight_step.
  - read_groups. rewrite !app_nil_r. repeat split.
Qed.


Lemma search_from_hit (p : pattern) (prev : option ascii) (s : str) (tr : trace) :
  exec p prev s = Some tr -> search_from p prev s = Some tr.
Proof. intros H. destruct s; cbn [search_from]; now rewrite H. Qed.

Lemma digit_char_digit (d : Z) : 0 <= d < 10 -> is_digit (digit_char d) = true.
Proof.
  intros Hd. assert (H16 : 0 <= d < 16) by lia. revert Hd. pattern d.
  apply below_16_cases; auto; intros; lia.
Qed.

Lemma digits_of_decimal (fuel : nat) :
  forall n acc, 0 <= n -> forallb is_digit acc = true ->
  forallb is_digit (digits_of 10 fuel n acc) = true.
Proof.
  induction fuel as [|f IH]; intros n acc Hn Ha; simpl; [exact Ha|].
  assert (Hm : 0 <= n mod 10 < 10) by (apply Z.mod_pos_bound; lia).
  assert (Hacc : forallb is_digit (digit_char (n mod 10) :: acc) = true).
  { simpl. rewrite digit_char_digit by lia. exact Ha. }
  destruct (n / 10 =? 0); [exact Hacc|].
  apply IH; [apply Z.div_pos; lia|exact Hacc].
Qed.

(** ['%d'] writes a numeral, and [int] reads it back. *)
Lemma fmt_d_numeral (n : Z) : 0 <= n -> numeral (fmt_d n) /\ int (fmt_d n) = Ok n.
Proof.
  intros Hn. unfold fmt_d, format_base, int, parse_number.
  destruct (Z.ltb_spec n 0); [lia|].
  set (ds := digits_of 10 (S (Z.to_nat (Z.log2 n))) n []).
  assert (Hd : forallb is_digit ds = true)
    by (apply digits_of_decimal; [lia|reflexivity]).
  assert (Hp : parse_digits 10 ds 0 = Some n).
  { unfold ds. rewrite digits_of_parse; try lia; [reflexivity|].
    now apply log2_fuel. }
  destruct ds as [|c t] eqn:E.
  - exfalso. revert E. unfold ds. apply digits_of_nonempty.
  - rewrite Hp. split; [|reflexivity].
    simpl in Hd. apply andb_prop in Hd as [Hc Ht]. now exists c, t.
Qed.


(** ** The words are 32-bit *)

Lemma in_regs (n : Z) : 0 <= n <= 31 -> In n regs.
Proof.
  intros Hn. unfold regs. rewrite <- (Z2Nat.id n) by lia.
  apply in_map, in_seq. lia.
Qed.

Lemma vector_word_ok_all :
  forallb (fun a => forallb (fun l => forallb (vector_word_ok a l) regs) regs)
    regs = true.
Proof. vm_compute. reflexivity. Qed.

Lemma element_word_ok_all :
  forallb (fun a => forallb (fun l => forallb (fun r =>
    forallb (element_word_ok a l r) [0; 1; 2; 3]) regs) regs) regs = true.
Proof. vm_compute. reflexivity. Qed.

Lemma vector_word_fields (a l r : Z) :
  0 <= a <= 31 -> 0 <= l <= 31 -> 0 <= r <= 31 ->
  vector_word_ok a l r = true.
Proof.
  intros Ha Hl Hr. pose proof vector_word_ok_all as H.
  rewrite forallb_forall in H. specialize (H a (in_regs Ha)).
  rewrite forallb_forall in H. specialize (H l (in_regs Hl)).
  rewrite forallb_forall in H. exact (H r (in_regs Hr)).
Qed.

Lemma element_word_fields (a l r g : Z) :
  0 <= a <= 31 -> 0 <= l <= 31 -> 0 <= r <= 31 -> 0 <= g <= 3 ->
  element_word_ok a l r g = true.
Proof.
  intros Ha Hl Hr Hg. pose proof element_word_ok_all as H.
  rewrite forallb_forall in H. specialize (H a (in_regs Ha)).
  rewrite forallb_forall in H. specialize (H l (in_regs Hl)).
  rewrite forallb_forall in H. specialize (H r (in_regs Hr)).
  rewrite forallb_forall in H. apply H. simpl. lia.
Qed.

(** ** More on the loop *)

Lemma loop_ended (lines : list str) (st0 st : state) :
  loop st0 lines = (st, None) -> existsb raises lines = false.
Proof.
  intros H. destruct (existsb raises lines) eqn:E; [|reflexivity].
  destruct (raises_split _ E) as (pre & line & post & e & -> & Hp & He).
  rewrite (@loop_stops pre line post e st0 Hp He) in H. discriminate.
Qed.

Lemma complaints_app (l1 l2 : list str) :
  forall n, complaints n (l1 ++ l2)
            = complaints n l1 ++ complaints (n + Z.of_nat (List.length l1)) l2.
Proof.
  induction l1 as [|l l1 IH]; intros n.
  - cbn. now rewrite Z.add_0_r.
  - cbn [app complaints List.length]. rewrite IH, <- app_assoc.
    do 3 f_equal. lia.
Qed.

Lemma complaints_are_errors (lines : list str) :
  forall n x, In x (complaints n lines) ->
  starts_with (lit "Error at line ") x = true.
Proof.
  induction lines as [|l ls IH]; intros n x; cbn [complaints]; [easy|].
  rewrite in_app_iff. intros [H|H]; [|now apply IH in H].
  unfold complaint in H. destruct (conflicting l); [|easy].
  destruct H as [<-|[]]. reflexivity.
Qed.

Lemma note_not_error : starts_with (lit "Error at line ") note = false.
Proof. reflexivity. Qed.

(** The three ways an instruction that is recognised is dealt with. *)
Lemma line_rewritten (line : str) (mcode : Z) (match_ : str) :
  encode line = Ok (mcode, match_) -> mcode <> 0 ->
  read_existing_encoding line = Ok 0 ->
  raises line = false /\ recognised line = true /\ annotated line = false
  /\ conflicting line = false
  /\ emitted line = replace line match_ (directive mcode match_).
Proof.
  intros He Hm Hx.
  unfold raises, conflicting, annotated, emitted, recognised, word_of, match_of,
    existing_of.
  rewrite He, Hx. destruct (Z.eqb_spec mcode 0); [contradiction|].
  repeat split.
Qed.

Lemma line_conflicting (line : str) (mcode existing : Z) (match_ : str) :
  encode line = Ok (mcode, match_) -> mcode <> 0 ->
  read_existing_encoding line = Ok existing -> existing <> 0 ->
  existing <> mcode ->
  raises line = false /\ recognised line = true /\ annotated line = true
  /\ conflicting line = true /\ emitted line = line
  /\ forall n, complaint n line = [error_message n existing mcode match_ line].
Proof.
  intros He Hm Hx Hx0 Hne.
  unfold complaint, raises, conflicting, annotated, emitted, recognised,
    word_of, match_of, existing_of.
  rewrite He, Hx. destruct (Z.eqb_spec mcode 0); [contradiction|].
  destruct (Z.eqb_spec existing 0); [contradiction|].
  destruct (Z.eqb_spec mcode existing); [now subst|].
  repeat split.
Qed.

Lemma line_checked (line : str) (mcode : Z) (match_ : str) :
  encode line = Ok (mcode, match_) -> mcode <> 0 ->
  read_existing_encoding line = Ok mcode ->
  raises line = false /\ recognised line = true /\ annotated line = true
  /\ conflicting line = false /\ emitted line = line.
Proof.
  intros He Hm Hx.
  unfold raises, conflicting, annotated, emitted, recognised, word_of, match_of,
    existing_of.
  rewrite He, Hx. destruct (Z.eqb_spec mcode 0); [contradiction|].
  rewrite Z.eqb_refl. repeat split.
Qed.

Lemma line_unrecognised (line x : str) :
  encode line = Ok (0, x) ->
  raises line = false /\ recognised line = false /\ annotated line = false
  /\ conflicting line = false /\ emitted line = line.
Proof.
  intros He.
  unfold raises, conflicting, annotated, emitted, recognised, word_of.
  rewrite He. repeat split.
Qed.

(** ** Where [re.search] finds its match *)

Lemma search_from_skip (p : pattern) (rest : str) (pre : str) :
  (forall p1 p2 prev, pre = p1 ++ p2 -> p2 <> [] ->
                      exec p prev (p2 ++ rest) = None) ->
  forall prev,
    search_from p prev (pre ++ rest) = search_from p (prev_after prev pre) rest.
Proof.
  induction pre as [|c pre IH]; intros H prev; [reflexivity|].
  cbn [app search_from prev_after].
  assert (E : exec p prev (c :: pre ++ rest) = None)
    by (apply (H [] (c :: pre) prev eq_refl); discriminate).
  rewrite E. apply IH. intros p1 p2 prev' -> Hp2. now apply (H (c :: p1) p2).
Qed.

Lemma search_from_none (p : pattern) (s : str) :
  (forall p1 p2 prev, s = p1 ++ p2 -> exec p prev p2 = None) ->
  forall prev, search_from p prev s = None.
Proof.
  induction s as [|c s IH]; intros H prev; cbn [search_from].
  - now rewrite (H [] [] prev eq_refl).
  - rewrite (H [] (c :: s) prev eq_refl).
    apply IH. intros p1 p2 prev' ->. now apply (H (c :: p1) p2).
Qed.

(** A pattern whose match at a place does not depend on what is before it. *)
Lemma search_from_first (p : pattern) (f : str -> option trace) :
  (forall prev s, exec p prev s = f s) ->
  forall s prev tr,
    search_from p prev s = Some tr ->
    exists pre rest,
      s = pre ++ rest /\ f rest = Some tr
      /\ forall p1 p2, pre = p1 ++ p2 -> p2 <> [] -> f (p2 ++ rest) = None.
Proof.
  intros Hf. induction s as [|c s IH]; intros prev tr; cbn [search_from].
  - rewrite Hf. destruct (f []) eqn:E; [|discriminate]. intros [= <-].
    exists [], []. split; [reflexivity|]. split; [exact E|].
    intros p1 p2 Hp Hp2. symmetry in Hp. apply app_eq_nil in Hp as [_ ->].
    contradiction.
  - rewrite Hf. destruct (f (c :: s)) eqn:E.
    + intros [= <-]. exists [], (c :: s). split; [reflexivity|].
      split; [exact E|]. intros p1 p2 Hp Hp2. symmetry in Hp.
      apply app_eq_nil in Hp as [_ ->]. contradiction.
    + intros H. destruct (IH _ _ H) as (pre & rest & -> & Hr & Hpre).
      exists (c :: pre), rest. split; [reflexivity|]. split; [exact Hr|].
      intros [|c' p1] p2 Hp Hp2.
      * cbn in Hp. subst p2. exact E.
      * injection Hp as <- ->. now apply (Hpre p1 p2).
Qed.

(** ** The pattern of the annotation *)

Lemma take_drop_while (f : ascii -> bool) (s : str) :
  s = take_while f s ++ drop_while f s.
Proof.
  induction s as [|c s IH]; [reflexivity|]. simpl.
  destruct (f c); [|reflexivity]. simpl. now f_equal.
Qed.

Lemma take_while_all (f : ascii -> bool) (s : str) :
  forallb f (take_while f s) = true.
Proof.
  induction s as [|c s IH]; [reflexivity|]. simpl.
  destruct (f c) eqn:E; [|reflexivity]. simpl. now rewrite E.
Qed.

Lemma drop_while_stops (cls : cclass) (s : str) :
  stops cls (drop_while (mem cls) s).
Proof.
  induction s as [|c s IH]; [exact I|]. simpl.
  destruct (mem cls c) eqn:E; [exact IH|exact E].
Qed.

Lemma take_while_app (f : ascii -> bool) (h r : str) :
  forallb f h = true ->
  match r with c :: _ => f c = false | [] => True end ->
  take_while f (h ++ r) = h.
Proof.
  intros Hh Hr. induction h as [|c h IH].
  - destruct r as [|c r]; [reflexivity|]. simpl. now rewrite Hr.
  - simpl in *. apply andb_prop in Hh as [Hc Hh]. rewrite Hc.
    now rewrite IH.
Qed.

Lemma directive_at_split (s : str) :
  directive_at s = true ->
  exists c t r,
    s = lit ".word 0x" ++ (c :: t) ++ r /\ is_lhex c = true
    /\ forallb is_lhex t = true /\ stops LowerHex r
    /\ c :: t = take_while is_lhex (skipn 8 s).
Proof.
  unfold directive_at. intros H. apply andb_prop in H as [Hs Hc].
  apply starts_with_split in Hs. cbn [List.length lit list_ascii_of_string] in Hs.
  destruct (skipn 8 s) as [|c rest] eqn:E; [discriminate|].
  exists c, (take_while is_lhex rest), (drop_while is_lhex rest).
  split; [|split; [exact Hc|split; [apply take_while_all|split]]].
  - rewrite Hs at 1. f_equal. cbn [app]. f_equal. apply take_drop_while.
  - apply (drop_while_stops LowerHex).
  - simpl. now rewrite Hc.
Qed.

Lemma exec_word_re_directive (s : str) (prev : option ascii) :
  directive_at s = true ->
  exec word_re prev s = Some (word_trace (take_while is_lhex (skipn 8 s))).
Proof.
  intros H. destruct (directive_at_split _ H) as (c & t & r & E & Hc & Ht & Hr & <-).
  rewrite E. apply straight_exec. unfold word_re, word_trace.
  cbn [lit list_ascii_of_string app map].
  change is_lhex with (mem LowerHex) in *.
  repeat straight_step.
  apply straight_plus; [assumption|assumption|assumption|].
  repeat straight_step.
Qed.

Lemma exec_word_re_some (s : str) (prev : option ascii) (m : trace) :
  exec word_re prev s = Some m -> directive_at s = true.
Proof.
  intros H. destruct (exec_consumes _ _ _ H) as [r Hr].
  apply exec_shape in H. unfold word_re in H. open_shape H.
  cbn [mem] in *. read_groups.
  unfold directive_at. cbn. assumption.
Qed.

Lemma exec_word_re (s : str) (prev : option ascii) :
  exec word_re prev s
  = if directive_at s
    then Some (word_trace (take_while is_lhex (skipn 8 s)))
    else None.
Proof.
  destruct (directive_at s) eqn:E; [now apply exec_word_re_directive|].
  destruct (exec word_re prev s) eqn:H; [|reflexivity].
  apply exec_word_re_some in H. congruence.
Qed.

Lemma word_trace_groups (hex : str) :
  group (word_trace hex) 1 = "0" :: "x" :: hex
  /\ group (word_trace hex) 0 = lit ".word 0x" ++ hex.
Proof.
  unfold word_trace. cbn [lit list_ascii_of_string map app].
  read_groups. now rewrite !app_nil_r.
Qed.

Lemma has_directive_head (s : str) :
  has_directive s = false -> directive_at s = false.
Proof.
  destruct s; cbn [has_directive]; intros H; now apply orb_false_elim in H.
Qed.

Lemma has_directive_suffix (pre rest : str) :
  has_directive (pre ++ rest) = false ->
  (forall p1 p2, pre = p1 ++ p2 -> directive_at (p2 ++ rest) = false)
  /\ has_directive rest = false.
Proof.
  induction pre as [|c pre IH]; intros H.
  - split; [|exact H]. intros p1 p2 Hp. symmetry in Hp.
    apply app_eq_nil in Hp as [_ ->]. now apply has_directive_head.
  - cbn [app has_directive] in H. apply orb_false_elim in H as [Hd Hh].
    destruct (IH Hh) as [Hs Hr]. split; [|exact Hr].
    intros [|c' p1] p2 Hp.
    + cbn in Hp. subst p2. exact Hd.
    + injection Hp as <- ->. now apply (Hs p1 p2).
Qed.

Lemma search_word_re_none (s : str) (prev : option ascii) :
  has_directive s = false -> search_from word_re prev s = None.
Proof.
  intros H. apply search_from_none. intros p1 p2 prev' E.
  rewrite exec_word_re. rewrite E in H.
  destruct (has_directive_suffix _ _ H) as [_ Hr].
  now rewrite (has_directive_head _ Hr).
Qed.

Lemma search_word_re_some (s : str) (prev : option ascii) (m : trace) :
  search_from word_re prev s = Some m -> has_directive s = true.
Proof.
  intros H. destruct (has_directive s) eqn:E; [reflexivity|].
  rewrite search_word_re_none in H by assumption. discriminate.
Qed.

(** What the reader reads: the longest run of lower-case hexadecimal digits
    after the leftmost [.word 0x] that has one. *)
Lemma read_existing_encoding_found (line : str) (m : trace) :
  re_search word_re line = Some m ->
  exists pre hex post,
    line = pre ++ lit ".word 0x" ++ hex ++ post
    /\ hex <> [] /\ forallb is_lhex hex = true /\ stops LowerHex post
    /\ group m 1 = "0" :: "x" :: hex
    /\ read_existing_encoding line = parse_number 16 hex
    /\ forall p1 p2, pre = p1 ++ p2 -> p2 <> [] ->
         directive_at (p2 ++ lit ".word 0x" ++ hex ++ post) = false.
Proof.
  intros H. unfold read_existing_encoding. rewrite H.
  unfold re_search in H.
  apply (search_from_first word_re
           (fun s => if directive_at s
                     then Some (word_trace (take_while is_lhex (skipn 8 s)))
                     else None)) in H; [|intros; apply exec_word_re].
  destruct H as (pre & rest & -> & Hr & Hpre).
  destruct (directive_at rest) eqn:Hd; [|discriminate].
  destruct (directive_at_split _ Hd) as (c & t & r & E & Hc & Ht & Hs & Eh).
  rewrite <- Eh in Hr. injection Hr as <-.
  destruct (word_trace_groups (c :: t)) as [G1 _].
  exists pre, (c :: t), r. rewrite G1, int16_0x, <- E.
  split; [reflexivity|]. split; [discriminate|].
  split; [simpl; now rewrite Hc, Ht|]. split; [exact Hs|].
  split; [reflexivity|]. split; [reflexivity|].
  intros p1 p2 Hp Hp2. specialize (Hpre p1 p2 Hp Hp2).
  now destruct (directive_at (p2 ++ rest)).
Qed.

Lemma read_existing_encoding_absent (line : str) :
  has_directive line = false -> read_existing_encoding line = Ok 0.
Proof.
  intros H. unfold read_existing_encoding, re_search.
  now rewrite search_word_re_none.
Qed.

(** ** Lines with one [udot] *)

Lemma udot_rule_vector : udot_rule udot_vector_re.
Proof. eexists. reflexivity. Qed.

Lemma udot_rule_element : udot_rule udot_element_re.
Proof. eexists. reflexivity. Qed.

Lemma exec_lit_some (c : ascii) (p : pattern) prev (s : str) (m : trace) :
  exec (Lit c :: p) prev s = Some m ->
  exists s' m', s = c :: s' /\ m = Ch c :: m' /\ exec p (Some c) s' = Some m'.
Proof.
  cbn [exec]. destruct s as [|a s]; [discriminate|].
  destruct (Ascii.eqb_spec a c) as [->|]; [|discriminate].
  destruct (exec p (Some c) s) as [m'|] eqn:E; [|discriminate].
  intros [= <-]. now exists s, m'.
Qed.

Lemma udot_rule_needs (p : pattern) prev (s : str) (m : trace) :
  udot_rule p -> exec p prev s = Some m ->
  starts_with udot s = true /\ is_word_opt prev = false.
Proof.
  intros [p' ->]. rewrite exec_wordb.
  destruct (xorb _ _) eqn:X; [|discriminate]. intros H.
  apply exec_lit_some in H as (s1 & m1 & -> & -> & H).
  apply exec_lit_some in H as (s2 & m2 & -> & -> & H).
  apply exec_lit_some in H as (s3 & m3 & -> & -> & H).
  apply exec_lit_some in H as (s4 & m4 & -> & -> & H).
  split; [reflexivity|]. cbn [hd_error is_word_opt] in X.
  change (is_word "u") with true in X. now destruct (is_word_opt prev).
Qed.

Lemma udot_rule_fails (p : pattern) prev (s : str) :
  udot_rule p -> starts_with udot s = false -> exec p prev s = None.
Proof.
  intros Hp Hs. destruct (exec p prev s) eqn:E; [|reflexivity].
  eapply udot_rule_needs in E as [E _]; [congruence|exact Hp].
Qed.

Lemma udot_rule_prev (p : pattern) (prev prev' : option ascii) (s : str) :
  udot_rule p -> is_word_opt prev = is_word_opt prev' ->
  exec p prev s = exec p prev' s.
Proof.
  intros [p' ->] H. rewrite !exec_wordb, H.
  destruct (xorb _ _); [|reflexivity]. destruct s; reflexivity.
Qed.

Lemma clear_of_suffix (w pre rest : str) :
  clear_of w pre rest = true ->
  forall p1 p2, pre = p1 ++ p2 -> p2 <> [] -> starts_with w (p2 ++ rest) = false.
Proof.
  induction pre as [|c pre IH]; intros H p1 p2 Hp Hp2.
  - symmetry in Hp. apply app_eq_nil in Hp as [_ ->]. contradiction.
  - cbn [clear_of] in H. apply andb_prop in H as [Hc H].
    destruct p1 as [|c' p1].
    + cbn in Hp. subst p2. now apply negb_true_iff in Hc.
    + injection Hp as <- ->. now apply (IH H p1 p2).
Qed.

Lemma clear_of_intro (w pre rest : str) :
  (forall p1 p2, pre = p1 ++ p2 -> p2 <> [] ->
                 starts_with w (p2 ++ rest) = false) ->
  clear_of w pre rest = true.
Proof.
  induction pre as [|c pre IH]; intros H; [reflexivity|].
  cbn [clear_of]. rewrite (H [] (c :: pre) eq_refl) by discriminate.
  cbn [negb andb]. apply IH. intros p1 p2 -> Hp2.
  now apply (H (c :: p1) p2).
Qed.

Lemma clear_of_app (w a b rest : str) :
  clear_of w (a ++ b) rest = clear_of w a (b ++ rest) && clear_of w b rest.
Proof.
  induction a as [|c a IH]; [reflexivity|].
  cbn [app clear_of]. rewrite IH, <- !app_assoc. cbn [app].
  now rewrite andb_assoc.
Qed.

Lemma occurrences_app_le (w pre rest : str) :
  (occurrences w rest <= occurrences w (pre ++ rest))%nat.
Proof.
  induction pre as [|c pre IH]; [reflexivity|]. cbn [app occurrences]. lia.
Qed.

Lemma occurrences_zero (w s : str) :
  occurrences w s = O ->
  forall p1 c p2, s = p1 ++ c :: p2 -> starts_with w (c :: p2) = false.
Proof.
  induction s as [|a s IH]; intros H p1 c p2 Hp.
  - now destruct p1.
  - cbn [occurrences] in H.
    destruct (starts_with w (a :: s)) eqn:E; [discriminate|].
    destruct p1 as [|a' p1].
    + injection Hp as <- <-. exact E.
    + injection Hp as <- ->. now apply (IH H p1 c p2).
Qed.

Lemma occurrences_single (w pre : str) (c : ascii) (rest : str) :
  (occurrences w (pre ++ c :: rest) <= 1)%nat ->
  starts_with w (c :: rest) = true ->
  clear_of w pre (c :: rest) = true /\ occurrences w rest = O.
Proof.
  intros H Hs.
  assert (H1 : (1 <= occurrences w (c :: rest))%nat)
    by (cbn [occurrences]; rewrite Hs; lia).
  induction pre as [|a pre IH].
  - split; [reflexivity|]. cbn [app occurrences] in H. rewrite Hs in H. lia.
  - cbn [app occurrences] in H.
    pose proof (occurrences_app_le w pre (c :: rest)) as Hle.
    destruct (starts_with w (a :: pre ++ c :: rest)) eqn:E; [lia|].
    destruct IH as [IH1 IH2]; [lia|]. split; [|exact IH2].
    cbn [clear_of app]. now rewrite E, IH1.
Qed.

(** On a line with one [udot], a pattern that starts with [\budot] is tried
    there only. *)
Lemma search_udot_rule (p : pattern) (pre : str) (c : ascii) (rest : str) prev :
  udot_rule p -> clear_of udot pre (c :: rest) = true ->
  occurrences udot rest = O ->
  search_from p prev (pre ++ c :: rest) = exec p (prev_after prev pre) (c :: rest).
Proof.
  intros Hp Hc Ho. rewrite search_from_skip.
  - cbn [search_from]. destruct (exec p _ (c :: rest)); [reflexivity|].
    apply search_from_none. intros p1 p2 prev' E.
    apply udot_rule_fails; [exact Hp|]. destruct p2 as [|c2 p2]; [reflexivity|].
    now apply (@occurrences_zero _ _ Ho p1 c2 p2).
  - intros p1 p2 prev' E Hp2. apply udot_rule_fails; [exact Hp|].
    now apply (@clear_of_suffix _ _ _ Hc p1 p2).
Qed.

Lemma search_from_where (p : pattern) (s : str) prev (m : trace) :
  search_from p prev s = Some m ->
  exists pre rest, s = pre ++ rest /\ exec p (prev_after prev pre) rest = Some m.
Proof.
  revert prev. induction s as [|c s IH]; intros prev; cbn [search_from].
  - destruct (exec p prev []) eqn:E; [|discriminate]. intros [= <-].
    now exists [], [].
  - destruct (exec p prev (c :: s)) eqn:E.
    + intros [= <-]. now exists [], (c :: s).
    + intros H. destruct (IH _ H) as (pre & rest & -> & Hr).
      now exists (c :: pre), rest.
Qed.

(** [udot] in front of a full stop, and in front of the directive. *)
Lemma starts_udot_dot (p2 y z : str) :
  p2 <> [] -> starts_with udot (p2 ++ "." :: y) = true ->
  starts_with udot (p2 ++ z) = true.
Proof.
  intros Hp2.
  destruct p2 as [|c0 [|c1 [|c2 [|c3 p]]]]; [contradiction|..];
    cbn [udot lit list_ascii_of_string app starts_with];
    repeat match goal with
           | |- context [Ascii.eqb ?a ?b] =>
               match b with
               | "."%char => change (Ascii.eqb a b) with false
               | _ => destruct (Ascii.eqb a b)
               end
           end; cbn [andb]; try discriminate; reflexivity.
Qed.

Lemma clear_of_dot (pre rest y : str) :
  clear_of udot pre rest = true -> clear_of udot pre ("." :: y) = true.
Proof.
  intros H. apply clear_of_intro. intros p1 p2 Hp Hp2.
  pose proof (@clear_of_suffix _ _ _ H p1 p2 Hp Hp2) as Hf.
  destruct (starts_with udot (p2 ++ "." :: y)) eqn:E; [|reflexivity].
  apply (@starts_udot_dot p2 y rest Hp2) in E. congruence.
Qed.

Lemma clear_of_no_u (d rest : str) :
  forallb (fun c => negb (Ascii.eqb "u" c)) d = true ->
  clear_of udot d rest = true.
Proof.
  induction d as [|c d IH]; [reflexivity|]. cbn [forallb]. intros H.
  apply andb_prop in H as [Hc Hd]. cbn [clear_of app].
  rewrite (IH Hd), andb_true_r.
  cbn [udot lit list_ascii_of_string starts_with].
  apply negb_true_iff in Hc. now rewrite Hc.
Qed.

Lemma lhex_not_u (c : ascii) : is_lhex c = true -> Ascii.eqb "u" c = false.
Proof.
  intros H. apply Ascii.eqb_neq. intros <-. discriminate.
Qed.

Lemma directive_at_dot (p2 y z : str) :
  p2 <> [] -> directive_at (p2 ++ "." :: y) = true ->
  directive_at (p2 ++ z) = true.
Proof.
  intros Hp2. unfold directive_at.
  destruct p2 as [|c0 [|c1 [|c2 [|c3 [|c4 [|c5 [|c6 [|c7 [|c8 p]]]]]]]]];
    [contradiction|..];
    cbn [lit list_ascii_of_string app starts_with skipn];
    change (is_lhex ".") with false;
    repeat match goal with
           | |- context [Ascii.eqb ?a ?b] =>
               match b with
               | "."%char => change (Ascii.eqb a b) with false
               | _ => destruct (Ascii.eqb a b)
               end
           end; cbn [andb]; try discriminate; auto.
Qed.

Lemma prev_after_app (prev : option ascii) (a b : str) :
  prev_after prev (a ++ b) = prev_after (prev_after prev a) b.
Proof.
  revert prev. induction a as [|c a IH]; intros prev; [reflexivity|].
  cbn [app prev_after]. apply IH.
Qed.

Lemma starts_with_app_true (a b s : str) :
  starts_with (a ++ b) s = true -> starts_with a s = true.
Proof.
  intros H. apply starts_with_iff in H as [r ->]. rewrite <- app_assoc.
  apply starts_with_app.
Qed.

Lemma replace_go_none (a : ascii) (o new s : str) :
  (forall p1 c p2, s = p1 ++ c :: p2 -> starts_with (a :: o) (c :: p2) = false) ->
  replace_go (a :: o) new O s = s.
Proof.
  induction s as [|c s IH]; intros H; [reflexivity|].
  rewrite replace_go_miss by apply (H [] c s eq_refl).
  f_equal. apply IH. intros p1 c' p2 ->. now apply (H (c :: p1) c' p2).
Qed.

Lemma replace_go_at (a : ascii) (o new pre post : str) :
  (forall p1 p2, pre = p1 ++ p2 -> p2 <> [] ->
                 starts_with (a :: o) (p2 ++ (a :: o) ++ post) = false) ->
  replace_go (a :: o) new O (pre ++ (a :: o) ++ post)
  = pre ++ new ++ replace_go (a :: o) new O post.
Proof.
  induction pre as [|c pre IH]; intros H.
  - rewrite app_nil_l. apply replace_go_hit.
  - change ((c :: pre) ++ (a :: o) ++ post)
      with (c :: (pre ++ (a :: o) ++ post)).
    rewrite replace_go_miss.
    + rewrite <- (app_comm_cons pre (new ++ replace_go (a :: o) new O post) c).
      f_equal. apply IH. intros p1 p2 -> Hp2. now apply (H (c :: p1) p2).
    + apply (H [] (c :: pre) eq_refl). discriminate.
Qed.

Lemma spec_vector_word_nonneg (a l r : Z) :
  0 <= a -> 0 <= l -> 0 <= r -> 0 <= spec_vector_word a l r.
Proof.
  intros Ha Hl Hr. unfold spec_vector_word.
  repeat (apply Z.lor_nonneg; split); try apply Z.shiftl_nonneg; lia.
Qed.

Lemma spec_element_word_nonneg (a l r g : Z) :
  0 <= a -> 0 <= l -> 0 <= r -> 0 <= spec_element_word a l r g.
Proof.
  intros Ha Hl Hr. unfold spec_element_word.
  repeat (apply Z.lor_nonneg; split); try apply Z.shiftl_nonneg;
    try (apply Z.land_nonneg; right); lia.
Qed.

(** What [encode] returns depends on the line through the two searches. *)
Lemma encode_by_search (l1 l2 : str) (mcode : Z) (match_ : str) :
  re_search udot_vector_re l2 = re_search udot_vector_re l1 ->
  re_search udot_element_re l2 = re_search udot_element_re l1 ->
  encode l1 = Ok (mcode, match_) -> mcode <> 0 ->
  encode l2 = Ok (mcode, match_) /\ 0 <= mcode.
Proof.
  intros Hv He. rewrite !encode_first.
  destruct (re_search udot_vector_re l1) as [m|] eqn:Ev.
  - destruct (encode_udot_vector_matched _ Ev)
      as (a & l & r & _ & _ & _ & Ha & Hl & Hr & E1).
    destruct (encode_udot_vector_matched _ Hv)
      as (a2 & l2' & r2 & _ & _ & _ & _ & _ & _ & E2).
    assert (E : encode_udot_vector l2 = encode_udot_vector l1)
      by (unfold encode_udot_vector; now rewrite Hv, Ev).
    rewrite E, E1. destruct (_ && _); [|discriminate].
    destruct (Z.eqb_spec (spec_vector_word a l r) 0) as [E0|_];
      [now apply spec_vector_word_nonzero in E0|].
    intros [= <- <-] _. split; [reflexivity|].
    now apply spec_vector_word_nonneg.
  - rewrite (encode_udot_vector_unmatched _ Ev).
    rewrite (encode_udot_vector_unmatched _ Hv). cbn [Z.eqb].
    destruct (re_search udot_element_re l1) as [m|] eqn:Ee.
    + destruct (encode_udot_element_matched _ Ee)
        as (a & l & r & g & _ & _ & _ & _ & Ha & Hl & Hr & _ & E1).
      assert (E : encode_udot_element l2 = encode_udot_element l1)
        by (unfold encode_udot_element; now rewrite He, Ee).
      rewrite E, E1. destruct (_ && _); [|discriminate].
      intros [= <- <-] _. split; [reflexivity|].
      now apply spec_element_word_nonneg.
    + rewrite (encode_udot_element_unmatched _ Ee).
      intros [= <- _] H0. contradiction.
Qed.

Lemma directive_head_no_u (mcode : Z) :
  0 <= mcode ->
  forallb (fun c => negb (Ascii.eqb "u" c)) (directive_head mcode) = true.
Proof.
  intros H. unfold directive_head. rewrite !forallb_app.
  destruct (fmt_x_lhex H) as [_ Hl].
  assert (Hx : forallb (fun c => negb (Ascii.eqb "u" c)) (fmt_x mcode) = true).
  { revert Hl. generalize (fmt_x mcode). intros h.
    induction h as [|c h IH]; [reflexivity|]. cbn [forallb]. intros Hh.
    apply andb_prop in Hh as [Hc Hh]. now rewrite (lhex_not_u _ Hc), IH. }
  now rewrite Hx.
Qed.

(** The line after the rewrite, on a line with one [udot] and no directive:
    the same instruction is recognised, and the word is read back. *)
Lemma rewritten_line (line : str) (mcode : Z) (match_ : str) :
  encode line = Ok (mcode, match_) -> mcode <> 0 ->
  has_directive line = false -> (occurrences udot line <= 1)%nat ->
  exists pre post,
    line = pre ++ match_ ++ post
    /\ replace line match_ (directive mcode match_)
       = pre ++ directive mcode match_ ++ post
    /\ encode (pre ++ directive mcode match_ ++ post) = Ok (mcode, match_)
    /\ read_existing_encoding (pre ++ directive mcode match_ ++ post) = Ok mcode.
Proof.
  intros He Hm Hd Ho.
  destruct (encode_word_inv _ He Hm) as (p & tr & Hp & Hs & Em).
  assert (Hrule : udot_rule p)
    by (destruct Hp as [->|[-> _]];
        [apply udot_rule_vector|apply udot_rule_element]).
  destruct (encode_word_match _ He Hm) as ((t & Et) & _).
  destruct (search_from_where _ _ _ Hs) as (pre & rest & El & Hex).
  destruct (exec_consumes _ _ _ Hex) as [post Er].
  change (chars tr) with (group tr 0) in Er. rewrite <- Em in Er.
  destruct (@udot_rule_needs _ _ _ _ Hrule Hex) as [_ Hprev].
  subst rest. set (o := lit "dot " ++ t).
  assert (Emo : match_ = "u" :: o) by (rewrite Et; reflexivity).
  assert (Hmu : forall s, starts_with ("u" :: o) s = true ->
                          starts_with udot s = true).
  { intros s H. apply (@starts_with_app_true udot (" " :: t)). exact H. }
  clearbody o. clear t Et. subst match_.
  rewrite Emo in He, El, Hex |- *.
  assert (Hst : starts_with udot ("u" :: o ++ post) = true)
    by (apply Hmu; apply (starts_with_app ("u" :: o) post)).
  rewrite El in Ho. cbn [app] in Ho.
  destruct (occurrences_single _ _ _ _ Ho Hst) as [Hclear Hocc].
  assert (Hpost : occurrences udot post = O).
  { pose proof (occurrences_app_le udot o post). lia. }
  exists pre, post. split; [exact El|].
  assert (Hrep : replace line ("u" :: o) (directive mcode ("u" :: o))
                 = pre ++ directive mcode ("u" :: o) ++ post).
  { unfold replace. rewrite El, replace_go_at.
    - rewrite replace_go_none; [reflexivity|].
      intros p1 c p2 E. destruct (starts_with ("u" :: o) (c :: p2)) eqn:X;
        [|reflexivity].
      apply Hmu in X. now rewrite (@occurrences_zero _ _ Hpost p1 c p2 E) in X.
    - intros p1 p2 E Hp2.
      destruct (starts_with ("u" :: o) (p2 ++ ("u" :: o) ++ post)) eqn:X;
        [|reflexivity].
      apply Hmu in X. cbn [app] in X.
      pose proof (@clear_of_suffix _ _ _ Hclear p1 p2 E Hp2) as Y.
      congruence. }
  split; [exact Hrep|].
  assert (Hsame : forall q, udot_rule q ->
            re_search q (pre ++ directive mcode ("u" :: o) ++ post)
            = re_search q line).
  { intros q Hq. unfold re_search, directive.
    change (lit ".word 0x" ++ fmt_x mcode ++ lit "  // " ++ "u" :: o)
      with (lit ".word 0x" ++ fmt_x mcode ++ lit "  // " ++ "u" :: o).
    assert (Enew : pre ++ (lit ".word 0x" ++ fmt_x mcode ++ lit "  // "
                             ++ "u" :: o) ++ post
                   = (pre ++ directive_head mcode) ++ "u" :: o ++ post).
    { unfold directive_head. now rewrite <- !app_assoc. }
    rewrite Enew, El. cbn [app].
    assert (Hmc : 0 <= mcode).
    { eapply (@encode_by_search line line); eauto. }
    rewrite !search_udot_rule; try assumption.
    - apply udot_rule_prev; [exact Hq|]. rewrite Hprev, prev_after_app.
      unfold directive_head. rewrite !app_assoc, prev_after_app. reflexivity.
    - rewrite clear_of_app. apply andb_true_intro. split.
      + unfold directive_head. cbn [lit list_ascii_of_string app].
        now apply (clear_of_dot pre ("u" :: o ++ post)).
      + apply clear_of_no_u. now apply directive_head_no_u. }
  destruct (@encode_by_search line (pre ++ directive mcode ("u" :: o) ++ post)
              mcode ("u" :: o)) as [Henc Hmc]; try assumption;
    try (apply Hsame; [apply udot_rule_vector || apply udot_rule_element]).
  split; [exact Henc|].
  (* the word is read back *)
  unfold read_existing_encoding, re_search.
  rewrite El in Hd. destruct (has_directive_suffix _ _ Hd) as [Hsuf _].
  destruct (fmt_x_lhex Hmc) as [Hne Hlhex].
  set (R := directive mcode ("u" :: o) ++ post).
  assert (ER : R = lit ".word 0x" ++ fmt_x mcode ++ " " :: lit " // "
                     ++ ("u" :: o) ++ post).
  { unfold R, directive. rewrite <- !app_assoc. reflexivity. }
  assert (HdR : directive_at R = true).
  { rewrite ER. unfold directive_at. rewrite starts_with_app.
    cbn [lit list_ascii_of_string app skipn andb].
    destruct (fmt_x mcode) as [|c h]; [contradiction|].
    cbn [app]. cbn [forallb] in Hlhex. now apply andb_prop in Hlhex as [-> _]. }
  rewrite search_from_skip.
  - rewrite (@search_from_hit word_re _ R
               (word_trace (take_while is_lhex (skipn 8 R)))).
    + destruct (word_trace_groups (take_while is_lhex (skipn 8 R))) as [-> _].
      rewrite int16_0x. rewrite ER.
      cbn [lit list_ascii_of_string app skipn].
      rewrite take_while_app; [now apply parse_fmt_x|exact Hlhex|reflexivity].
    + now apply exec_word_re_directive.
  - intros p1 p2 prev E Hp2. rewrite exec_word_re.
    destruct (directive_at (p2 ++ R)) eqn:X; [|reflexivity].
    rewrite ER in X. cbn [lit list_ascii_of_string app] in X.
    apply (@directive_at_dot p2 _ (("u" :: o) ++ post) Hp2) in X.
    now rewrite (Hsuf p1 p2 E) in X.
Qed.

(** ** The second run *)

Lemma second_pass (line : str) :
  tidy line = true -> raises line = false ->
  raises (emitted line) = false
  /\ emitted (emitted line) = emitted line
  /\ conflicting (emitted line) = conflicting line
  /\ annotated (emitted line) = recognised line
  /\ (forall n, complaint n (emitted line) = complaint n line)
  /\ (recognised line = true -> existing_of line = 0 ->
      emitted line
      = replace line (match_of line) (directive (word_of line) (match_of line))
      /\ recognised (emitted line) = true
      /\ word_of (emitted line) = word_of line
      /\ existing_of (emitted line) = word_of line).
Proof.
  intros Ht Hr. unfold raises in Hr.
  destruct (encode line) as [[mc m]|] eqn:He; [clear Hr|discriminate].
  apply andb_prop in Ht as [Ho Hz]. apply Nat.leb_le in Ho.
  apply negb_true_iff in Hz.
  destruct (Z.eq_dec mc 0) as [->|Hmc].
  - destruct (line_unrecognised _ He) as (R & Rec & A & C & E).
    rewrite E, R, Rec, A, C.
    split; [reflexivity|]. split; [exact E|]. split; [reflexivity|].
    split; [reflexivity|]. split; [reflexivity|]. intros X; discriminate.
  - destruct (read_existing_encoding_ok line) as (ex & Hx & Hex).
    assert (Eex : existing_of line = ex) by (unfold existing_of; now rewrite Hx).
    assert (Ew : word_of line = mc) by (unfold word_of; now rewrite He).
    assert (Em : match_of line = m) by (unfold match_of; now rewrite He).
    destruct (Z.eq_dec ex 0) as [->|Hex0].
    + rewrite Eex, Z.eqb_refl, andb_true_r in Hz.
      destruct (line_rewritten _ He Hmc Hx) as (R & Rec & A & C & E).
      destruct (rewritten_line _ He Hmc Hz Ho)
        as (pre & post & El & Erep & He' & Hx').
      rewrite E, Erep.
      destruct (line_checked _ He' Hmc Hx') as (R' & Rec' & A' & C' & E').
      rewrite R', E', C', A', C, Rec.
      split; [reflexivity|]. split; [reflexivity|]. split; [reflexivity|].
      split; [reflexivity|]. split.
      * intros n. unfold complaint. now rewrite C, C'.
      * intros _ _. rewrite Ew, Em, Erep. split; [reflexivity|].
        split; [exact Rec'|]. unfold word_of, existing_of.
        now rewrite He', Hx'.
    + assert (E : emitted line = line /\ recognised line = true
                  /\ annotated line = true).
      { destruct (Z.eq_dec ex mc) as [->|Hne].
        - now destruct (line_checked _ He Hmc Hx) as (_ & ? & ? & _ & ?).
        - now destruct (line_conflicting _ He Hmc Hx Hex0 Hne)
            as (_ & ? & ? & _ & ? & _). }
      destruct E as (E & Rec & A). rewrite E, Rec, A.
      unfold raises. rewrite He. repeat split; congruence.
Qed.

Lemma second_pass_all (lines : list str) :
  forallb tidy lines = true -> existsb raises lines = false ->
  existsb raises (map emitted lines) = false
  /\ map emitted (map emitted lines) = map emitted lines
  /\ existsb conflicting (map emitted lines) = existsb conflicting lines
  /\ existsb annotated (map emitted lines) = existsb recognised lines
  /\ forall n, complaints n (map emitted lines) = complaints n lines.
Proof.
  induction lines as [|l ls IH]; intros Ht Hr.
  - repeat split.
  - cbn [forallb] in Ht. apply andb_prop in Ht as [Htl Hts].
    cbn [existsb] in Hr. apply orb_false_elim in Hr as [Hrl Hrs].
    destruct (IH Hts Hrs) as (I1 & I2 & I3 & I4 & I5).
    destruct (second_pass _ Htl Hrl) as (S1 & S2 & S3 & S4 & S5 & _).
    cbn [map existsb].
    split; [now rewrite S1, I1|]. split; [now rewrite S2, I2|].
    split; [now rewrite S3, I3|]. split; [now rewrite S4, I4|].
    intros n. cbn [complaints]. now rewrite S5, I5.
Qed.

(** ** The instruction as it is usually written, in a line

    The instruction is found where it stands when no [udot] starts before it
    and the character before it, if any, is not a word character. *)

Lemma search_at (p : pattern) (pre rest : str) (m : trace) :
  udot_rule p -> clear_of udot pre rest = true ->
  exec p (prev_after None pre) rest = Some m ->
  re_search p (pre ++ rest) = Some m.
Proof.
  intros Hp Hc Hm. unfold re_search. rewrite search_from_skip.
  - now apply search_from_hit.
  - intros p1 p2 prev E Hp2. apply udot_rule_fails; [exact Hp|].
    now apply (@clear_of_suffix _ _ _ Hc p1 p2).
Qed.

Lemma search_vector_line (a l r : Z) (pre post : str) :
  0 <= a -> 0 <= l -> 0 <= r ->
  clear_of udot pre (vector_line a l r ++ post) = true ->
  is_word_opt (prev_after None pre) = false ->
  exists m,
    re_search udot_vector_re (pre ++ vector_line a l r ++ post) = Some m
    /\ group m 0 = vector_line a l r
    /\ int (group m 1) = Ok a /\ int (group m 2) = Ok l
    /\ int (group m 3) = Ok r.
Proof.
  intros Ha Hl Hr Hc Hprev.
  destruct (fmt_d_numeral Ha) as [Na Ia], (fmt_d_numeral Hl) as [Nl Il],
    (fmt_d_numeral Hr) as [Nr Ir].
  destruct (@exec_vector_text _ _ _ post _ Na Nl Nr Hprev)
    as (m & Hm & G0 & G1 & G2 & G3).
  exists m. rewrite G0, G1, G2, G3. repeat split; try assumption.
  apply search_at; [apply udot_rule_vector|exact Hc|exact Hm].
Qed.


(** * The claims *)

(** C1. On every line in which the vector pattern is found, with captured
    register numerals of values [accum], [lhs], [rhs] in [0, 31], [encode]
    returns the word [0x6e809400 | accum | (lhs<<5) | (rhs<<16)], which is not
    0, with the matched text.  Every line that holds
    [udot v<accum>.4s, v<lhs>.16b, v<rhs>.16b] at its start, or after a text
    in which no [udot] starts and that does not end with a word character, is
    such a line, and the word is a 32-bit word that holds the three indices
    in bits 4:0, 9:5 and 20:16.
    For [udot v16.4s, v4.16b, v0.16b] the word is [0x6e809490], and the script
    writes [.word 0x6e809490  // udot v16.4s, v4.16b, v0.16b] and ends with
    status 0. *)
Theorem C1_vector_encoding :
  (forall (line : str) (m : trace) (accum lhs rhs : Z),
      re_search udot_vector_re line = Some m ->
      int (group m 1) = Ok accum -> int (group m 2) = Ok lhs ->
      int (group m 3) = Ok rhs ->
      0 <= accum <= 31 -> 0 <= lhs <= 31 -> 0 <= rhs <= 31 ->
      encode line = Ok (spec_vector_word accum lhs rhs, group m 0)
      /\ encode_udot_vector line = encode line
      /\ spec_vector_word accum lhs rhs <> 0)
  /\ (forall (accum lhs rhs : Z) (pre post : str),
         0 <= accum <= 31 -> 0 <= lhs <= 31 -> 0 <= rhs <= 31 ->
         clear_of udot pre (vector_line accum lhs rhs ++ post) = true ->
         is_word_opt (prev_after None pre) = false ->
         encode (pre ++ vector_line accum lhs rhs ++ post)
         = Ok (spec_vector_word accum lhs rhs, vector_line accum lhs rhs)
         /\ 0 < spec_vector_word accum lhs rhs < 2 ^ 32
         /\ Z.land (spec_vector_word accum lhs rhs) 31 = accum
         /\ Z.land (Z.shiftr (spec_vector_word accum lhs rhs) 5) 31 = lhs
         /\ Z.land (Z.shiftr (spec_vector_word accum lhs rhs) 16) 31 = rhs)
  /\ encode udot_v16 = Ok (0x6e809490, udot_v16)
  /\ script (udot_v16 ++ [newline])
     = Exit 0 [lit ".word 0x6e809490  // udot v16.4s, v4.16b, v0.16b"
                 ++ [newline]] [].
Proof.
  assert (General : forall line m accum lhs rhs,
      re_search udot_vector_re line = Some m ->
      int (group m 1) = Ok accum -> int (group m 2) = Ok lhs ->
      int (group m 3) = Ok rhs ->
      0 <= accum <= 31 -> 0 <= lhs <= 31 -> 0 <= rhs <= 31 ->
      encode line = Ok (spec_vector_word accum lhs rhs, group m 0)
      /\ encode_udot_vector line = encode line
      /\ spec_vector_word accum lhs rhs <> 0).
  { intros line m a l r Hm Ia Il Ir Ha Hl Hr.
    destruct (encode_udot_vector_matched _ Hm)
      as (a' & l' & r' & Ia' & Il' & Ir' & _ & _ & _ & E).
    rewrite Ia in Ia'. rewrite Il in Il'. rewrite Ir in Ir'.
    injection Ia' as <-. injection Il' as <-. injection Ir' as <-.
    destruct (Z.leb_spec a 31); [|lia]. destruct (Z.leb_spec l 31); [|lia].
    destruct (Z.leb_spec r 31); [|lia]. cbn [andb] in E.
    pose proof (spec_vector_word_nonzero a l r) as Hw.
    assert (Henc : encode line = Ok (spec_vector_word a l r, group m 0)).
    { rewrite encode_first, E.
      destruct (Z.eqb_spec (spec_vector_word a l r) 0); [contradiction|].
      reflexivity. }
    rewrite Henc, E. auto. }
  split; [exact General|]. split.
  - intros a l r pre post Ha Hl Hr Hc Hprev.
    destruct (@search_vector_line a l r pre post)
      as (m & Hm & G0 & Ia & Il & Ir); try lia; try assumption.
    destruct (General _ _ _ _ _ Hm Ia Il Ir Ha Hl Hr) as (Henc & _ & _).
    rewrite G0 in Henc. split; [exact Henc|].
    pose proof (vector_word_fields Ha Hl Hr) as F. unfold vector_word_ok in F.
    rewrite !andb_true_iff in F. destruct F as [[[[F0 F32] Fa] Fl] Fr].
    apply Z.ltb_lt in F0, F32. apply Z.eqb_eq in Fa, Fl, Fr. auto.
  - split; vm_compute; reflexivity.
Qed.

Lemma C1_vector_encoding_witness :
  (encode udot_v16 = Ok (spec_vector_word 16 4 0, udot_v16)
   /\ encode_udot_vector udot_v16 = encode udot_v16
   /\ spec_vector_word 16 4 0 <> 0)
  /\ (encode (lit "1: " ++ vector_line 16 4 0 ++ lit " // acc")
      = Ok (spec_vector_word 16 4 0, vector_line 16 4 0)
      /\ 0 < spec_vector_word 16 4 0 < 2 ^ 32
      /\ Z.land (spec_vector_word 16 4 0) 31 = 16
      /\ Z.land (Z.shiftr (spec_vector_word 16 4 0) 5) 31 = 4
      /\ Z.land (Z.shiftr (spec_vector_word 16 4 0) 16) 31 = 0).
Proof.
  split.
  - refine (proj1 C1_vector_encoding udot_v16
              (found udot_vector_re udot_v16) 16 4 0 _ _ _ _ _ _ _);
      solve [vm_compute; reflexivity | lia].
  - apply (proj1 (proj2 C1_vector_encoding) 16 4 0 (lit "1: ") (lit " // acc"));
      solve [vm_compute; reflexivity | lia].
Defined.



(** C3, as the code has it.  For the one line [udot v1.4s, v2.16b, v3.4b[2]]
    (accum 1, lhs 2, rhs 3, lane group 2, so l = 0 and h = 1) the word is
    [0x6f83e841], bit 11 set; the script writes
    [.word 0x6f83e841  // udot v1.4s, v2.16b, v3.4b[2]] and ends with
    status 0. *)
Theorem C3_lane2_example :
  encode udot_v1_lane2 = Ok (0x6f83e841, udot_v1_lane2)
  /\ spec_element_word 1 2 3 2 = 0x6f83e841
  /\ Z.testbit 0x6f83e841 11 = true /\ Z.testbit 0x6f83e841 21 = false
  /\ script (udot_v1_lane2 ++ [newline])
     = Exit 0 [lit ".word 0x6f83e841  // udot v1.4s, v2.16b, v3.4b[2]"
                 ++ [newline]] [].
Proof. repeat split; vm_compute; reflexivity. Qed.

(** C3 as it is stated does not hold: the line written is not the one with
    [0x6f83e041]. *)
Lemma C3_counterexample :
  script (udot_v1_lane2 ++ [newline])
  <> Exit 0 [lit ".word 0x6f83e041  // udot v1.4s, v2.16b, v3.4b[2]"
               ++ [newline]] [].
Proof. vm_compute. discriminate. Qed.

(** C4, as the code has it.  The patterns capture, for each register, a
    numeral of any length, which [int] reads as a number that is not
    negative, and for the lane group one digit, a number in [0, 9]; no
    conversion fails.  The assertions of a rule fail exactly when its pattern
    is found with a register above 31 or a lane group above 3. *)
Theorem C4_operand_assertions (line : str) :
  encode line <> Raise ValueError
  /\ (forall m, re_search udot_vector_re line = Some m ->
      exists accum lhs rhs,
        int (group m 1) = Ok accum /\ int (group m 2) = Ok lhs
        /\ int (group m 3) = Ok rhs /\ 0 <= accum /\ 0 <= lhs /\ 0 <= rhs
        /\ (encode_udot_vector line = Raise AssertionError
            <-> 31 < accum \/ 31 < lhs \/ 31 < rhs))
  /\ (forall m, re_search udot_element_re line = Some m ->
      exists accum lhs rhs g,
        int (group m 1) = Ok accum /\ int (group m 2) = Ok lhs
        /\ int (group m 3) = Ok rhs /\ int (group m 4) = Ok g
        /\ 0 <= accum /\ 0 <= lhs /\ 0 <= rhs /\ 0 <= g <= 9
        /\ (encode_udot_element line = Raise AssertionError
            <-> 31 < accum \/ 31 < lhs \/ 31 < rhs \/ 3 < g))
  /\ (re_search udot_vector_re line = None ->
      encode_udot_vector line = Ok (0, line))
  /\ (re_search udot_element_re line = None ->
      encode_udot_element line = Ok (0, line)).
Proof.
  split; [|split; [|split; [|split]]].
  - intros H. pose proof (encode_result line) as R. rewrite H in R.
    inversion R.
  - intros m Hm.
    destruct (encode_udot_vector_matched _ Hm)
      as (a & l & r & Ia & Il & Ir & Ha & Hl & Hr & E).
    exists a, l, r. repeat (split; [assumption|]). rewrite E.
    destruct (Z.leb_spec a 31), (Z.leb_spec l 31), (Z.leb_spec r 31);
      cbn [andb]; split; intros Hx; try discriminate; try reflexivity; lia.
  - intros m Hm.
    destruct (encode_udot_element_matched _ Hm)
      as (a & l & r & g & Ia & Il & Ir & Ig & Ha & Hl & Hr & Hg & E).
    exists a, l, r, g. repeat (split; [assumption|]). rewrite E.
    destruct (Z.leb_spec a 31), (Z.leb_spec l 31), (Z.leb_spec r 31),
      (Z.leb_spec g 3);
      cbn [andb]; split; intros Hx; try discriminate; try reflexivity; lia.
  - apply encode_udot_vector_unmatched.
  - apply encode_udot_element_unmatched.
Qed.

Lemma C4_operand_assertions_witness :
  (exists accum lhs rhs,
     int (group (found udot_vector_re udot_v32) 1) = Ok accum
     /\ int (group (found udot_vector_re udot_v32) 2) = Ok lhs
     /\ int (group (found udot_vector_re udot_v32) 3) = Ok rhs
     /\ 0 <= accum /\ 0 <= lhs /\ 0 <= rhs
     /\ (encode_udot_vector udot_v32 = Raise AssertionError
         <-> 31 < accum \/ 31 < lhs \/ 31 < rhs))
  /\ (exists accum lhs rhs g,
       int (group (found udot_element_re udot_lane4) 1) = Ok accum
       /\ int (group (found udot_element_re udot_lane4) 2) = Ok lhs
       /\ int (group (found udot_element_re udot_lane4) 3) = Ok rhs
       /\ int (group (found udot_element_re udot_lane4) 4) = Ok g
       /\ 0 <= accum /\ 0 <= lhs /\ 0 <= rhs /\ 0 <= g <= 9
       /\ (encode_udot_element udot_lane4 = Raise AssertionError
           <-> 31 < accum \/ 31 < lhs \/ 31 < rhs \/ 3 < g))
  /\ encode_udot_vector (lit "ret") = Ok (0, lit "ret")
  /\ encode_udot_element (lit "ret") = Ok (0, lit "ret").
Proof.
  split; [|split; [|split]].
  - apply (proj1 (proj2 (C4_operand_assertions udot_v32))).
    vm_compute. reflexivity.
  - apply (proj1 (proj2 (proj2 (C4_operand_assertions udot_lane4)))).
    vm_compute. reflexivity.
  - apply (proj1 (proj2 (proj2 (proj2 (C4_operand_assertions (lit "ret")))))).
    vm_compute. reflexivity.
  - apply (proj2 (proj2 (proj2 (proj2 (C4_operand_assertions (lit "ret")))))).
    vm_compute. reflexivity.
Defined.

(** C4 as it is stated does not hold: the vector pattern is found in
    [udot v32.4s, v0.16b, v0.16b] with the register 32, the indexed pattern in
    [udot v0.4s, v0.16b, v0.4b[4]] with the lane group 4, and on both the
    assertion fails and ends the run. *)
Lemma C4_counterexample :
  (exists m, re_search udot_vector_re udot_v32 = Some m
             /\ int (group m 1) = Ok 32)
  /\ encode udot_v32 = Raise AssertionError
  /\ main [udot_v32 ++ [newline]] = Uncaught AssertionError [] []
  /\ (exists m, re_search udot_element_re udot_lane4 = Some m
                /\ int (group m 4) = Ok 4)
  /\ encode udot_lane4 = Raise AssertionError.
Proof.
  split; [eexists; split; vm_compute; reflexivity|].
  split; [vm_compute; reflexivity|].
  split; [vm_compute; reflexivity|].
  split; [eexists; split; vm_compute; reflexivity|].
  vm_compute; reflexivity.
Qed.

(** C9. On a line in which neither pattern is found, and on no other,
    [encode] returns 0, with the line itself; the loop then writes the line
    as it is, writes no diagnostic and leaves both flags as they are.  An
    input of such lines is copied to the output, with no diagnostic and
    status 0. *)
Theorem C9_unrecognised_line (line : str) :
  (forall x, encode line = Ok (0, x) ->
     x = line
     /\ re_search udot_vector_re line = None
     /\ re_search udot_element_re line = None
     /\ forall st,
         body st line
         = Ok (mkState (lineno st + 1) (found_existing_encodings st)
                 (found_error st) (stdout st ++ [line]) (stderr st)))
  /\ (re_search udot_vector_re line = None ->
      re_search udot_element_re line = None -> encode line = Ok (0, line))
  /\ (forall lines,
       (forall l, In l lines -> exists x, encode l = Ok (0, x)) ->
       main lines = Exit 0 lines []).
Proof.
  split; [|split].
  - intros x H. destruct (encode_zero_inv _ H) as (-> & Hv & He).
    repeat (split; [assumption || reflexivity|]).
    intros st. unfold body. rewrite H. reflexivity.
  - apply encode_unmatched.
  - intros lines H.
    assert (Hw : forall l, In l lines -> word_of l = 0 /\ raises l = false).
    { intros l Hl. destruct (H l Hl) as [x Hx]. unfold word_of, raises.
      now rewrite Hx. }
    assert (Hr : existsb raises lines = false).
    { clear H. induction lines as [|l ls IH]; [reflexivity|]. simpl.
      rewrite (proj2 (Hw l (or_introl eq_refl))). apply IH.
      intros l' Hl'. apply Hw. now right. }
    assert (Ha : existsb annotated lines = false).
    { clear H Hr. induction lines as [|l ls IH]; [reflexivity|]. simpl.
      unfold annotated at 1, recognised.
      rewrite (proj1 (Hw l (or_introl eq_refl))). apply IH.
      intros l' Hl'. apply Hw. now right. }
    assert (He : map emitted lines = lines).
    { clear H Hr Ha. induction lines as [|l ls IH]; [reflexivity|]. simpl.
      unfold emitted at 1, recognised.
      rewrite (proj1 (Hw l (or_introl eq_refl))). cbn. f_equal. apply IH.
      intros l' Hl'. apply Hw. now right. }
    rewrite main_through by exact Hr.
    now rewrite (conflicting_annotated _ Ha), Ha, He.
Qed.

Lemma C9_unrecognised_line_witness :
  (lit "ret" = lit "ret"
   /\ re_search udot_vector_re (lit "ret") = None
   /\ re_search udot_element_re (lit "ret") = None
   /\ forall st,
       body st (lit "ret")
       = Ok (mkState (lineno st + 1) (found_existing_encodings st)
               (found_error st) (stdout st ++ [lit "ret"]) (stderr st)))
  /\ encode (lit "ret") = Ok (0, lit "ret")
  /\ main [lit "ret"; lit "nop"] = Exit 0 [lit "ret"; lit "nop"] [].
Proof.
  split; [|split].
  - apply (proj1 (C9_unrecognised_line (lit "ret")) (lit "ret")).
    vm_compute. reflexivity.
  - apply (proj1 (proj2 (C9_unrecognised_line (lit "ret"))));
      vm_compute; reflexivity.
  - apply (proj2 (proj2 (C9_unrecognised_line (lit "ret")))).
    intros l [<-|[<-|[]]]; eexists; vm_compute; reflexivity.
Defined.

(** C8, as the code has it.  The end of the run is reached only when no
    line fails an operand assertion.  For every input: the status is 0 if
    and only if no line fails an assertion and no line is conflicting; the
    note is written if and only if no line fails an assertion, some line is
    annotated and none is conflicting; and when no line is annotated and none
    fails an assertion, the script ends with status 0 and writes no
    diagnostic.  The loop runs to its end exactly when no line fails an
    assertion, and then the error flag is set exactly when some line is
    conflicting and the other flag exactly when some line is annotated;
    otherwise the exception is [AssertionError], the status is 1 and the
    note is not written. *)
Theorem C8_end_of_run (lines : list str) :
  (exit_status (main lines) = 0
   <-> existsb raises lines = false /\ existsb conflicting lines = false)
  /\ (In note (diagnostics (main lines))
      <-> existsb raises lines = false /\ existsb annotated lines = true
          /\ existsb conflicting lines = false)
  /\ (existsb raises lines = false -> existsb annotated lines = false ->
      main lines = Exit 0 (map emitted lines) [])
  /\ (existsb raises lines = false <-> exists st, loop initial lines = (st, None))
  /\ (forall st,
        loop initial lines = (st, None) ->
        found_error st = existsb conflicting lines
        /\ found_existing_encodings st = existsb annotated lines
        /\ stdout st = map emitted lines
        /\ main lines
           = (if found_error st then Exit 1 (stdout st) (stderr st)
              else if found_existing_encodings st
                   then Exit 0 (stdout st) (stderr st ++ [note])
                   else Exit 0 (stdout st) (stderr st)))
  /\ (forall st e,
        loop initial lines = (st, Some e) ->
        e = AssertionError
        /\ main lines = Uncaught AssertionError (stdout st) (stderr st)
        /\ exit_status (main lines) = 1
        /\ ~ In note (diagnostics (main lines))).
Proof.
  assert (Hnote : forall ls n, ~ In note (complaints n ls)).
  { intros ls n Hin. apply complaints_are_errors in Hin.
    rewrite note_not_error in Hin. discriminate. }
  destruct (existsb raises lines) eqn:Hr.
  - destruct (raises_split _ Hr) as (pre & bad & post & e & El & Hp & He).
    assert (Ee : e = AssertionError).
    { pose proof (encode_result bad) as R. rewrite He in R. now inversion R. }
    subst e lines.
    pose proof (@main_stops pre bad post AssertionError Hp He) as Emain.
    pose proof (@loop_stops pre bad post AssertionError initial Hp He) as Eloop.
    split; [|split; [|split; [|split; [|split]]]].
    + rewrite Emain. cbn [exit_status].
      split; [discriminate|intros [X _]; discriminate].
    + rewrite Emain. cbn [diagnostics].
      split; [intros Hin; now apply Hnote in Hin|intros [X _]; discriminate].
    + intros X; discriminate.
    + split; [discriminate|]. intros [st H]. rewrite Eloop in H. discriminate.
    + intros st H. rewrite Eloop in H. discriminate.
    + intros st e H. rewrite Eloop in H. injection H as <- <-.
      split; [reflexivity|]. split; [exact Emain|]. rewrite Emain.
      split; [reflexivity|]. cbn [diagnostics]. apply Hnote.
  - pose proof (@main_through lines Hr) as Emain.
    pose proof (@loop_through lines initial Hr) as Eloop.
    split; [|split; [|split; [|split; [|split]]]].
    + rewrite Emain. destruct (existsb conflicting lines).
      * cbn [exit_status]. split; [discriminate|intros [_ X]; discriminate].
      * destruct (existsb annotated lines); cbn [exit_status];
          split; auto.
    + rewrite Emain. destruct (existsb conflicting lines) eqn:Ec.
      * cbn [diagnostics].
        split; [intros Hin; now apply Hnote in Hin
               |intros (_ & _ & X); discriminate].
      * destruct (existsb annotated lines); cbn [diagnostics].
        -- split; [auto|]. intros _. now left.
        -- split; [intros []|intros (_ & X & _); discriminate].
    + intros _ Ha. rewrite Emain, (@conflicting_annotated lines Ha), Ha.
      reflexivity.
    + split; [|reflexivity]. intros _. eexists. exact Eloop.
    + intros st H. rewrite Eloop in H. injection H as <-.
      cbn [after_all found_error found_existing_encodings stdout stderr lineno
           initial orb app].
      split; [reflexivity|]. split; [reflexivity|]. split; [reflexivity|].
      rewrite Emain. destruct (existsb conflicting lines) eqn:Ec; [reflexivity|].
      rewrite (@complaints_none lines Ec).
      destruct (existsb annotated lines); reflexivity.
    + intros st e H. rewrite Eloop in H. discriminate.
Qed.

Lemma C8_end_of_run_witness :
  let lines := [annotated_v16; conflict_v16] in
  let st := fst (loop initial lines) in
  (found_error st = existsb conflicting lines
   /\ found_existing_encodings st = existsb annotated lines
   /\ stdout st = map emitted lines
   /\ main lines
      = (if found_error st then Exit 1 (stdout st) (stderr st)
         else if found_existing_encodings st
              then Exit 0 (stdout st) (stderr st ++ [note])
              else Exit 0 (stdout st) (stderr st)))
  /\ main [udot_v16] = Exit 0 (map emitted [udot_v16]) [].
Proof.
  split.
  - apply (proj1 (proj2 (proj2 (proj2 (proj2
             (C8_end_of_run [annotated_v16; conflict_v16])))))).
    vm_compute. reflexivity.
  - apply (proj1 (proj2 (proj2 (C8_end_of_run [udot_v16]))));
      vm_compute; reflexivity.
Defined.

(** C8 as it is stated does not hold: on the line
    [udot v32.4s, v0.16b, v0.16b] no conflict is detected and no annotation
    is observed, and the run ends with the failure of an assertion and a
    status that is not 0. *)
Lemma C8_counterexample :
  existsb conflicting [udot_v32] = false
  /\ existsb annotated [udot_v32] = false
  /\ main [udot_v32] = Uncaught AssertionError [] []
  /\ exit_status (main [udot_v32]) = 1
  /\ ~ (exit_status (main [udot_v32]) = 0
        <-> existsb conflicting [udot_v32] = false).
Proof.
  split; [vm_compute; reflexivity|]. split; [vm_compute; reflexivity|].
  split; [vm_compute; reflexivity|]. split; [vm_compute; reflexivity|].
  intros [_ H]. assert (E : exit_status (main [udot_v32]) = 0)
    by (apply H; vm_compute; reflexivity).
  vm_compute in E. discriminate.
Qed.

(** C7, as the code has it.  A line in which an instruction is recognised
    and that carries a word, not 0, other than the one computed, is written
    to the output as it is, and a message with the number of the line
    (counted from 1), the word found, the word computed, the matched text and
    the line goes to the error stream; the loop goes on, and the status of
    the run is 1.  When no line raises, the run ends with [sys.exit(1)] after
    every line has been written; when a later line fails an operand
    assertion, the run ends there, with the lines before it written. *)
Theorem C7_conflict_report (pre : list str) (line : str) (post : list str)
    (mcode existing : Z) (match_ : str) :
  encode line = Ok (mcode, match_) -> mcode <> 0 ->
  read_existing_encoding line = Ok existing -> existing <> 0 ->
  existing <> mcode ->
  existsb raises pre = false ->
  let lines := pre ++ line :: post in
  let msg :=
    error_message (Z.of_nat (List.length pre) + 1) existing mcode match_ line in
  (forall st,
     body st line
     = Ok (mkState (lineno st + 1) true true (stdout st ++ [line])
             (stderr st
                ++ [error_message (lineno st + 1) existing mcode match_ line])))
  /\ exit_status (main lines) = 1
  /\ nth_error (written (main lines)) (List.length pre) = Some line
  /\ In msg (diagnostics (main lines))
  /\ (existsb raises post = false ->
      main lines = Exit 1 (map emitted lines) (complaints 0 lines)
      /\ List.length (map emitted lines) = List.length lines)
  /\ (forall p1 bad p2 e,
        post = p1 ++ bad :: p2 -> existsb raises p1 = false ->
        encode bad = Raise e ->
        main lines = Uncaught e (map emitted (pre ++ line :: p1))
                       (complaints 0 (pre ++ line :: p1))).
Proof.
  intros He Hm Hx Hx0 Hne Hpre lines msg.
  destruct (line_conflicting _ He Hm Hx Hx0 Hne)
    as (Hr & _ & Ha & Hc & Hem & Hcomp).
  assert (Hbody : forall st,
     body st line
     = Ok (mkState (lineno st + 1) true true (stdout st ++ [line])
             (stderr st
                ++ [error_message (lineno st + 1) existing mcode match_ line]))).
  { intros st. rewrite body_after, He. unfold after.
    now rewrite Ha, Hc, Hem, Hcomp, !orb_true_r. }
  assert (Hstop : forall p1 bad p2 e,
        post = p1 ++ bad :: p2 -> existsb raises p1 = false ->
        encode bad = Raise e ->
        main lines = Uncaught e (map emitted (pre ++ line :: p1))
                       (complaints 0 (pre ++ line :: p1))).
  { intros p1 bad p2 e -> Hp1 Hbad. unfold lines.
    replace (pre ++ line :: p1 ++ bad :: p2)
      with ((pre ++ line :: p1) ++ bad :: p2)
      by now rewrite <- app_assoc.
    apply main_stops; [|exact Hbad].
    rewrite existsb_app. cbn [existsb]. now rewrite Hpre, Hr, Hp1. }
  assert (Hnth : forall p1,
     nth_error (map emitted (pre ++ line :: p1)) (List.length pre) = Some line).
  { intros p1. rewrite map_app, nth_error_app2 by (rewrite length_map; lia).
    rewrite length_map, Nat.sub_diag. cbn. now rewrite Hem. }
  assert (Hin : forall p1, In msg (complaints 0 (pre ++ line :: p1))).
  { intros p1. rewrite complaints_app, in_app_iff. right.
    cbn [complaints]. rewrite in_app_iff. left. rewrite Hcomp.
    left. reflexivity. }
  assert (Hconf : existsb conflicting lines = true).
  { unfold lines. rewrite existsb_app. cbn [existsb].
    now rewrite Hc, orb_true_r. }
  split; [exact Hbody|].
  destruct (existsb raises post) eqn:Hpost.
  - destruct (raises_split _ Hpost) as (p1 & bad & p2 & e & Ep & Hp1 & Hbad).
    pose proof (Hstop _ _ _ _ Ep Hp1 Hbad) as Emain.
    split; [now rewrite Emain|]. split; [rewrite Emain; apply Hnth|].
    split; [rewrite Emain; apply Hin|]. split; [discriminate|exact Hstop].
  - assert (Hall : existsb raises lines = false).
    { unfold lines. rewrite existsb_app. cbn [existsb].
      now rewrite Hpre, Hr, Hpost. }
    pose proof (main_through _ Hall) as Emain. rewrite Hconf in Emain.
    split; [now rewrite Emain|]. split; [rewrite Emain; apply Hnth|].
    split; [rewrite Emain; apply Hin|].
    split; [intros _; split; [exact Emain|apply length_map]|exact Hstop].
Qed.

Lemma C7_conflict_report_witness :
  let lines := [lit "ret"] ++ conflict_v16 :: [lit "ret"] in
  let msg :=
    error_message (Z.of_nat (List.length [lit "ret"]) + 1) 0x6e809491
      0x6e809490 udot_v16 conflict_v16 in
  (forall st,
     body st conflict_v16
     = Ok (mkState (lineno st + 1) true true (stdout st ++ [conflict_v16])
             (stderr st
                ++ [error_message (lineno st + 1) 0x6e809491 0x6e809490
                      udot_v16 conflict_v16])))
  /\ exit_status (main lines) = 1
  /\ nth_error (written (main lines)) (List.length [lit "ret"])
     = Some conflict_v16
  /\ In msg (diagnostics (main lines))
  /\ (existsb raises [lit "ret"] = false ->
      main lines = Exit 1 (map emitted lines) (complaints 0 lines)
      /\ List.length (map emitted lines) = List.length lines)
  /\ (forall p1 bad p2 e,
        [lit "ret"] = p1 ++ bad :: p2 -> existsb raises p1 = false ->
        encode bad = Raise e ->
        main lines = Uncaught e (map emitted ([lit "ret"] ++ conflict_v16 :: p1))
                       (complaints 0 ([lit "ret"] ++ conflict_v16 :: p1))).
Proof.
  apply (@C7_conflict_report [lit "ret"] conflict_v16 [lit "ret"]
           0x6e809490 0x6e809491 udot_v16);
    solve [vm_compute; reflexivity | discriminate].
Defined.

(** C7 as it is stated does not hold: after the conflicting line, the line
    [udot v32.4s, v0.16b, v0.16b] ends the run with a status that is not 0
    while one line of three has been written. *)
Lemma C7_counterexample :
  let lines := [conflict_v16; udot_v32 ++ [newline]; lit "ret" ++ [newline]] in
  conflicting conflict_v16 = true
  /\ exit_status (main lines) = 1
  /\ written (main lines) = [conflict_v16]
  /\ main lines
     = Uncaught AssertionError [conflict_v16]
         [error_message 1 0x6e809491 0x6e809490 udot_v16 conflict_v16].
Proof. repeat split; vm_compute; reflexivity. Qed.

(** C5, as the code has it.  The rules are tried in the order vector,
    indexed; the first that gives a word is used and the other is not
    consulted.  When the line carries no word, the loop replaces the text of
    the match by the directive at every place where that text occurs in the
    line, at least once: the line grows by the length of [.word 0x<hex>  // ]
    for each, and when the text occurs once exactly, the line written is the
    line with that one occurrence replaced. *)
Theorem C5_first_rule_and_rewrite (line : str) :
  encode line
  = match encode_udot_vector line with
    | Ok (mcode, match_) =>
        if mcode =? 0 then encode_udot_element line else Ok (mcode, match_)
    | Raise e => Raise e
    end
  /\ (forall m, re_search udot_vector_re line = Some m ->
      encode line = encode_udot_vector line)
  /\ (forall mcode match_,
        encode line = Ok (mcode, match_) -> mcode <> 0 ->
        read_existing_encoding line = Ok 0 ->
        let line' := replace line match_ (directive mcode match_) in
        (forall st,
           body st line
           = Ok (mkState (lineno st + 1) (found_existing_encodings st)
                   (found_error st) (stdout st ++ [line']) (stderr st)))
        /\ (1 <= count line match_)%nat
        /\ List.length line'
           = (List.length line
              + count line match_ * List.length (directive_head mcode))%nat
        /\ (count line match_ = 1%nat ->
            exists pre post,
              line = pre ++ match_ ++ post
              /\ line' = pre ++ directive mcode match_ ++ post)).
Proof.
  split; [apply encode_first|]. split.
  - intros m Hm. rewrite encode_first.
    destruct (encode_udot_vector_matched _ Hm)
      as (a & l & r & _ & _ & _ & _ & _ & _ & E).
    rewrite E. destruct (_ && _); [|reflexivity].
    destruct (Z.eqb_spec (spec_vector_word a l r) 0) as [E0|_];
      [now apply spec_vector_word_nonzero in E0|reflexivity].
  - intros mcode match_ He Hm Hx line'.
    destruct (encode_word_match _ He Hm) as ((t & Et) & pre & post & El).
    split.
    { intros st. unfold body. rewrite He. cbn [bind].
      destruct (Z.eqb_spec mcode 0); [contradiction|]. now rewrite Hx. }
    assert (Em : exists o, match_ = "u" :: o)
      by (exists (lit "dot " ++ t); now rewrite Et).
    destruct Em as [o Em]. clear t Et. subst match_.
    unfold line', count, replace.
    split; [rewrite El at 1; apply count_substring|].
    split.
    + pose proof (replace_length "u" o (directive mcode ("u" :: o)) line) as HL.
      unfold directive in HL. unfold directive, directive_head.
      rewrite !length_app in *. cbn [List.length] in *. nia.
    + intros Hc. now apply count_one_replace.
Qed.

Lemma C5_first_rule_and_rewrite_witness :
  let line' := replace udot_v16 udot_v16 (directive 0x6e809490 udot_v16) in
  encode udot_v16 = encode_udot_vector udot_v16
  /\ (forall st,
     body st udot_v16
     = Ok (mkState (lineno st + 1) (found_existing_encodings st)
             (found_error st) (stdout st ++ [line']) (stderr st)))
  /\ (1 <= count udot_v16 udot_v16)%nat
  /\ List.length line'
     = (List.length udot_v16
        + count udot_v16 udot_v16 * List.length (directive_head 0x6e809490))%nat
  /\ (count udot_v16 udot_v16 = 1%nat ->
      exists pre post,
        udot_v16 = pre ++ udot_v16 ++ post
        /\ line' = pre ++ directive 0x6e809490 udot_v16 ++ post).
Proof.
  split.
  - apply (proj1 (proj2 (C5_first_rule_and_rewrite udot_v16))
             (found udot_vector_re udot_v16)).
    vm_compute. reflexivity.
  - apply (proj2 (proj2 (C5_first_rule_and_rewrite udot_v16))
             0x6e809490 udot_v16);
      solve [vm_compute; reflexivity | discriminate].
Defined.

(** C5 as it is stated does not hold: in a line that holds the same
    instruction twice, both occurrences are rewritten. *)
Lemma C5_counterexample :
  count udot_twice (lit "udot v0.4s, v0.16b, v0.16b") = 2%nat
  /\ encode udot_twice = Ok (0x6e809400, lit "udot v0.4s, v0.16b, v0.16b")
  /\ main [udot_twice]
     = Exit 0
         [lit ".word 0x6e809400  // udot v0.4s, v0.16b, v0.16b; .word 0x6e809400  // udot v0.4s, v0.16b, v0.16b"]
         [].
Proof. repeat split; vm_compute; reflexivity. Qed.

(** C10, as the code has it.  The reader never fails.  It returns a value
    that is not 0 only when the line holds [.word], one space, [0x] and at
    least one lower-case hexadecimal digit, and the value is the one of the
    longest run of lower-case hexadecimal digits after the leftmost such
    [0x]: digits in upper case end the run.  When the line holds no such text
    (another spacing after [.word], or no lower-case digit after [0x]) it
    returns 0, and an instruction recognised in the line is rewritten, with
    a directive more, and not checked. *)
Theorem C10_annotation_reader (line : str) :
  (exists v, read_existing_encoding line = Ok v /\ 0 <= v)
  /\ (forall v, read_existing_encoding line = Ok v -> v <> 0 ->
      exists pre hex post,
        line = pre ++ lit ".word 0x" ++ hex ++ post
        /\ hex <> [] /\ forallb is_lhex hex = true /\ stops LowerHex post
        /\ parse_number 16 hex = Ok v
        /\ forall p1 p2, pre = p1 ++ p2 -> p2 <> [] ->
             directive_at (p2 ++ lit ".word 0x" ++ hex ++ post) = false)
  /\ (has_directive line = false ->
      read_existing_encoding line = Ok 0
      /\ forall mcode match_ st,
           encode line = Ok (mcode, match_) -> mcode <> 0 ->
           body st line
           = Ok (mkState (lineno st + 1) (found_existing_encodings st)
                   (found_error st)
                   (stdout st ++ [replace line match_ (directive mcode match_)])
                   (stderr st))).
Proof.
  split; [apply read_existing_encoding_ok|]. split.
  - intros v Hv Hv0.
    destruct (re_search word_re line) as [m|] eqn:E.
    + destruct (read_existing_encoding_found _ E)
        as (pre & hex & post & El & Hh & Hl & Hs & _ & Hp & Hleft).
      exists pre, hex, post. rewrite <- Hp. auto 10.
    + unfold read_existing_encoding in Hv. rewrite E in Hv.
      injection Hv as <-. contradiction.
  - intros H. pose proof (read_existing_encoding_absent _ H) as Hx.
    split; [exact Hx|]. intros mcode match_ st He Hm.
    unfold body. rewrite He. cbn [bind].
    destruct (Z.eqb_spec mcode 0); [contradiction|]. now rewrite Hx.
Qed.

Lemma C10_annotation_reader_witness :
  (exists pre hex post,
     annotated_v16 = pre ++ lit ".word 0x" ++ hex ++ post
     /\ hex <> [] /\ forallb is_lhex hex = true /\ stops LowerHex post
     /\ parse_number 16 hex = Ok 0x6e809490
     /\ forall p1 p2, pre = p1 ++ p2 -> p2 <> [] ->
          directive_at (p2 ++ lit ".word 0x" ++ hex ++ post) = false)
  /\ read_existing_encoding two_spaces_v16 = Ok 0
  /\ forall mcode match_ st,
       encode two_spaces_v16 = Ok (mcode, match_) -> mcode <> 0 ->
       body st two_spaces_v16
       = Ok (mkState (lineno st + 1) (found_existing_encodings st)
               (found_error st)
               (stdout st
                  ++ [replace two_spaces_v16 match_ (directive mcode match_)])
               (stderr st)).
Proof.
  split.
  - apply (proj1 (proj2 (C10_annotation_reader annotated_v16)) 0x6e809490);
      [vm_compute; reflexivity|discriminate].
  - apply (proj2 (proj2 (C10_annotation_reader two_spaces_v16))).
    vm_compute. reflexivity.
Defined.

(** C10 as it is stated does not hold: of [.word 0x6E809490] the reader
    returns 6, not 0, and the instruction of the line is checked against it
    and reported, not rewritten. *)
Lemma C10_counterexample :
  read_existing_encoding upper_case_v16 = Ok 6
  /\ conflicting upper_case_v16 = true
  /\ main [upper_case_v16]
     = Exit 1 [upper_case_v16]
         [error_message 1 6 0x6e809490 udot_v16 upper_case_v16].
Proof. repeat split; vm_compute; reflexivity. Qed.

(** C6, as the code has it.  Let the lines of the input hold [udot] once at
    most and no directive that reads as 0, and let the first run end without
    an exception.  Then the second run, on the output of the first, writes
    that output again and ends with the status of the first run; a line the
    first run has rewritten is recognised with the same word, the word is
    read back from the directive and found equal, and the line is left as it
    is, with no conflict.  The second run reports the conflicts of the first
    again when there are some; otherwise it writes the note if and only if an
    instruction was recognised in some line. *)
Theorem C6_second_run (lines : list str) :
  forallb tidy lines = true -> existsb raises lines = false ->
  let out1 := written (main lines) in
  out1 = map emitted lines
  /\ written (main out1) = out1
  /\ exit_status (main out1) = exit_status (main lines)
  /\ (exit_status (main lines) = 0 <-> existsb conflicting lines = false)
  /\ diagnostics (main out1)
     = (if existsb conflicting lines then diagnostics (main lines)
        else if existsb recognised lines then [note] else [])
  /\ (forall line, In line lines ->
      recognised line = true -> existing_of line = 0 ->
      emitted line
      = replace line (match_of line) (directive (word_of line) (match_of line))
      /\ recognised (emitted line) = true
      /\ word_of (emitted line) = word_of line
      /\ existing_of (emitted line) = word_of line
      /\ conflicting (emitted line) = false
      /\ emitted (emitted line) = emitted line).
Proof.
  intros Ht Hr out1.
  destruct (second_pass_all _ Ht Hr) as (S1 & S2 & S3 & S4 & S5).
  pose proof (main_through _ Hr) as M1.
  pose proof (main_through _ S1) as M2. rewrite S2, S3, S4, S5 in M2.
  assert (Eout : out1 = map emitted lines).
  { unfold out1. rewrite M1.
    destruct (existsb conflicting lines); [reflexivity|].
    destruct (existsb annotated lines); reflexivity. }
  rewrite Eout. split; [reflexivity|]. rewrite M1, M2.
  destruct (existsb conflicting lines) eqn:Ec.
  - cbn [written exit_status diagnostics].
    repeat (split; [reflexivity || (split; discriminate)|]).
    intros line Hin Hrec Hex. rewrite forallb_forall in Ht.
    assert (Hrl : raises line = false).
    { destruct (raises line) eqn:X; [|reflexivity].
      assert (existsb raises lines = true)
        by (apply existsb_exists; now exists line).
      congruence. }
    destruct (second_pass _ (Ht _ Hin) Hrl) as (_ & P2 & P3 & _ & _ & P6).
    destruct (P6 Hrec Hex) as (Q1 & Q2 & Q3 & Q4).
    repeat (split; [assumption|]). split; [|exact P2].
    rewrite P3. unfold conflicting, annotated. rewrite Hex. cbn.
    now rewrite andb_false_r.
  - assert (Hnote : forall b : bool,
              written (if b then Exit 0 (map emitted lines) [note]
                       else Exit 0 (map emitted lines) [])
              = map emitted lines
              /\ exit_status (if b then Exit 0 (map emitted lines) [note]
                              else Exit 0 (map emitted lines) []) = 0)
      by (intros []; split; reflexivity).
    destruct (Hnote (existsb recognised lines)) as [W2 X2].
    destruct (Hnote (existsb annotated lines)) as [W1 X1].
    rewrite W2, X2, X1.
    split; [reflexivity|]. split; [reflexivity|].
    split; [split; reflexivity|]. split.
    + destruct (existsb recognised lines); reflexivity.
    + intros line Hin Hrec Hex. rewrite forallb_forall in Ht.
      assert (Hrl : raises line = false).
      { destruct (raises line) eqn:X; [|reflexivity].
        assert (existsb raises lines = true)
          by (apply existsb_exists; now exists line).
        congruence. }
      destruct (second_pass _ (Ht _ Hin) Hrl) as (_ & P2 & P3 & _ & _ & P6).
      destruct (P6 Hrec Hex) as (Q1 & Q2 & Q3 & Q4).
      repeat (split; [assumption|]). split; [|exact P2].
      rewrite P3. unfold conflicting, annotated. rewrite Hex. cbn.
      now rewrite andb_false_r.
Qed.

Lemma C6_second_run_witness :
  let out1 := written (main two_lines) in
  out1 = map emitted two_lines
  /\ written (main out1) = out1
  /\ exit_status (main out1) = exit_status (main two_lines)
  /\ (exit_status (main two_lines) = 0 <-> existsb conflicting two_lines = false)
  /\ diagnostics (main out1)
     = (if existsb conflicting two_lines then diagnostics (main two_lines)
        else if existsb recognised two_lines then [note] else [])
  /\ (forall line, In line two_lines ->
      recognised line = true -> existing_of line = 0 ->
      emitted line
      = replace line (match_of line) (directive (word_of line) (match_of line))
      /\ recognised (emitted line) = true
      /\ word_of (emitted line) = word_of line
      /\ existing_of (emitted line) = word_of line
      /\ conflicting (emitted line) = false
      /\ emitted (emitted line) = emitted line).
Proof.
  apply (@C6_second_run two_lines); vm_compute; reflexivity.
Defined.

(** C6 as it is stated does not hold: a line with the directive [.word 0x0]
    is rewritten by the first run and rewritten again by the second; a
    second run on an input without instructions writes no note; and on a
    line that holds [udot] twice the first run can end with status 0 and the
    second with a conflict and status 1. *)
Lemma C6_counterexample :
  written (main [zero_annotated])
  = [lit ".word 0x0  // .word 0x6e809490  // udot v16.4s, v4.16b, v0.16b"
       ++ [newline]]
  /\ written (main (written (main [zero_annotated])))
     = [lit ".word 0x0  // .word 0x6e809490  // .word 0x6e809490  // udot v16.4s, v4.16b, v0.16b"
          ++ [newline]]
  /\ written (main (written (main [zero_annotated])))
     <> written (main [zero_annotated])
  /\ main (written (main [lit "ret" ++ [newline]]))
     = Exit 0 [lit "ret" ++ [newline]] []
  /\ exit_status (main [udot_after_x]) = 0
  /\ exit_status (main (written (main [udot_after_x]))) = 1.
Proof.
  split; [vm_compute; reflexivity|]. split; [vm_compute; reflexivity|].
  split; [vm_compute; discriminate|]. split; [vm_compute; reflexivity|].
  split; vm_compute; reflexivity.
Qed.

(** * Further properties *)

(** ** What [encode] returns *)

Lemma vector_opcode_ok_all :
  forallb (fun a => forallb (fun l => forallb (vector_opcode_ok a l) regs) regs)
    regs = true.
Proof. vm_compute. reflexivity. Qed.

Lemma element_opcode_ok_all :
  forallb (fun a => forallb (fun l => forallb (fun r =>
    forallb (element_opcode_ok a l r) [0; 1; 2; 3]) regs) regs) regs = true.
Proof. vm_compute. reflexivity. Qed.

Lemma vector_opcode (a l r : Z) :
  0 <= a <= 31 -> 0 <= l <= 31 -> 0 <= r <= 31 ->
  Z.land (spec_vector_word a l r) 0xffe0fc00 = 0x6e809400
  /\ Z.testbit (spec_vector_word a l r) 24 = false.
Proof.
  intros Ha Hl Hr. pose proof vector_opcode_ok_all as H.
  rewrite forallb_forall in H. specialize (H a (in_regs Ha)).
  rewrite forallb_forall in H. specialize (H l (in_regs Hl)).
  rewrite forallb_forall in H. specialize (H r (in_regs Hr)).
  unfold vector_opcode_ok in H. apply andb_prop in H as [H1 H2].
  apply Z.eqb_eq in H1. apply negb_true_iff in H2. auto.
Qed.

Lemma element_opcode (a l r g : Z) :
  0 <= a <= 31 -> 0 <= l <= 31 -> 0 <= r <= 31 -> 0 <= g <= 3 ->
  Z.land (spec_element_word a l r g) 0xffc0f400 = 0x6f80e000
  /\ Z.testbit (spec_element_word a l r g) 24 = true.
Proof.
  intros Ha Hl Hr Hg. pose proof element_opcode_ok_all as H.
  rewrite forallb_forall in H. specialize (H a (in_regs Ha)).
  rewrite forallb_forall in H. specialize (H l (in_regs Hl)).
  rewrite forallb_forall in H. specialize (H r (in_regs Hr)).
  rewrite forallb_forall in H.
  assert (Hin : In g [0; 1; 2; 3]) by (simpl; lia).
  specialize (H g Hin). unfold element_opcode_ok in H.
  apply andb_prop in H as [H1 H2]. apply Z.eqb_eq in H1. auto.
Qed.

Lemma encode_word_cases (line : str) (mcode : Z) (match_ : str) :
  encode line = Ok (mcode, match_) -> mcode <> 0 ->
  from_vector line mcode match_ \/ from_element line mcode match_.
Proof.
  rewrite encode_first. intros H Hmc.
  destruct (re_search udot_vector_re line) as [m|] eqn:Ev.
  - left. destruct (encode_udot_vector_matched _ Ev)
      as (a & l & r & Ia & Il & Ir & Ha & Hl & Hr & E).
    rewrite E in H.
    destruct (Z.leb_spec a 31), (Z.leb_spec l 31), (Z.leb_spec r 31);
      cbn [andb] in H; try discriminate.
    destruct (Z.eqb_spec (spec_vector_word a l r) 0) as [E0|_];
      [now apply spec_vector_word_nonzero in E0|].
    injection H as <- <-. exists m, a, l, r.
    repeat split; auto.
  - right. rewrite encode_udot_vector_unmatched in H by assumption.
    cbn in H. split; [exact Ev|].
    destruct (re_search udot_element_re line) as [m|] eqn:Ee.
    + destruct (encode_udot_element_matched _ Ee)
        as (a & l & r & g & Ia & Il & Ir & Ig & Ha & Hl & Hr & Hg & E).
      rewrite E in H.
      destruct (Z.leb_spec a 31), (Z.leb_spec l 31), (Z.leb_spec r 31),
        (Z.leb_spec g 3); cbn [andb] in H; try discriminate.
      injection H as <- <-. exists m, a, l, r, g.
      repeat split; auto; lia.
    + rewrite encode_udot_element_unmatched in H by assumption.
      injection H as <- _. contradiction.
Qed.

Lemma mem_not_newline (cls : cclass) (c : ascii) :
  mem cls c = true -> Ascii.eqb c newline = false.
Proof.
  intros H. apply Ascii.eqb_neq. intros ->. now destruct cls.
Qed.

Lemma no_newline_app (s t : str) :
  no_newline (s ++ t) = no_newline s && no_newline t.
Proof. apply forallb_app. Qed.

Lemma no_newline_class (cls : cclass) (t : str) :
  forallb (mem cls) t = true -> no_newline t = true.
Proof.
  induction t as [|c t IH]; [reflexivity|]. unfold no_newline in *.
  cbn [forallb]. intros H. apply andb_prop in H as [Hc Ht].
  now rewrite (mem_not_newline _ _ Hc), (IH Ht).
Qed.

Lemma shape_no_newline (p : pattern) :
  lits_no_newline p = true ->
  forall tr, shape p tr -> no_newline (chars tr) = true.
Proof.
  induction p as [|[|c| |cls|cls|cls| |] p IH]; cbn [lits_no_newline shape];
    intros Hp tr H.
  - now subst.
  - now apply IH.
  - apply andb_prop in Hp as [Hc Hp]. destruct H as (tr' & -> & H).
    cbn [chars no_newline forallb]. rewrite Hc. now apply IH.
  - destruct H as (a & tr' & -> & Ha & H). cbn [chars no_newline forallb].
    apply Ascii.eqb_neq in Ha. rewrite Ha. now apply IH.
  - destruct H as (a & tr' & -> & Ha & H). cbn [chars no_newline forallb].
    rewrite (mem_not_newline _ _ Ha). now apply IH.
  - destruct H as (t & tr' & -> & Ht & H).
    rewrite chars_app, chars_map_Ch, no_newline_app.
    rewrite (no_newline_class _ _ Ht). now apply IH.
  - destruct H as (a & t & tr' & -> & Ha & Ht & H).
    cbn [chars]. rewrite chars_app, chars_map_Ch.
    cbn [no_newline forallb]. rewrite (mem_not_newline _ _ Ha).
    change (forallb (fun c => negb (Ascii.eqb c newline)) (t ++ chars tr'))
      with (no_newline (t ++ chars tr')).
    rewrite no_newline_app, (no_newline_class _ _ Ht). now apply IH.
  - destruct H as (tr' & -> & H). cbn [chars]. now apply IH.
  - destruct H as (tr' & -> & H). cbn [chars]. now apply IH.
Qed.

Lemma match_no_newline (line : str) (mcode : Z) (match_ : str) :
  encode line = Ok (mcode, match_) -> mcode <> 0 -> no_newline match_ = true.
Proof.
  intros He Hm. destruct (encode_word_inv _ He Hm) as (p & m & Hp & Hs & ->).
  apply search_shape in Hs. cbn [group].
  apply (shape_no_newline p); [|exact Hs].
  destruct Hp as [->|[-> _]]; reflexivity.
Qed.

(** X1.  Whatever the line, [encode] ends in one of three ways: the failure
    of an assertion; the word 0 with the line; or a word of 32 bits, not 0,
    whose bits outside the operand fields are those of the opcode of one of
    the two forms, with a text that lies in the line, starts with [udot] and
    a space and holds no newline. *)
Theorem encode_contract (line : str) :
  match encode line with
  | Raise e => e = AssertionError
  | Ok (w, match_) =>
      (w = 0 /\ match_ = line)
      \/ (0 < w < 2 ^ 32
          /\ (Z.land w 0xffe0fc00 = 0x6e809400
              \/ Z.land w 0xffc0f400 = 0x6f80e000)
          /\ (exists pre post, line = pre ++ match_ ++ post)
          /\ (exists t, match_ = lit "udot " ++ t)
          /\ no_newline match_ = true)
  end.
Proof.
  destruct (encode line) as [[w m]|e] eqn:He.
  - destruct (Z.eq_dec w 0) as [->|Hw].
    + left. now destruct (encode_zero_inv _ He) as (-> & _).
    + right. destruct (encode_word_match _ He Hw) as (Ht & Hsub).
      pose proof (match_no_newline _ He Hw) as Hn.
      destruct (encode_word_cases _ He Hw) as [Hv|[_ Hel]].
      * destruct Hv as (tr & a & l & r & _ & _ & _ & _ & Ha & Hl & Hr & -> & _).
        pose proof (vector_word_fields Ha Hl Hr) as F.
        unfold vector_word_ok in F. rewrite !andb_true_iff in F.
        destruct F as [[[[F0 F32] _] _] _]. apply Z.ltb_lt in F0, F32.
        destruct (vector_opcode Ha Hl Hr) as [Hop _]. auto 10.
      * destruct Hel
          as (tr & a & l & r & g & _ & _ & _ & _ & _ & Ha & Hl & Hr & Hg & -> & _).
        pose proof (element_word_fields Ha Hl Hr Hg) as F.
        unfold element_word_ok in F. rewrite !andb_true_iff in F.
        destruct F as [[[[[[F0 F32] _] _] _] _] _]. apply Z.ltb_lt in F0, F32.
        destruct (element_opcode Ha Hl Hr Hg) as [Hop _]. auto 10.
  - pose proof (encode_result line) as R. rewrite He in R. now inversion R.
Qed.

Lemma lane_from_bits (g g' : Z) :
  0 <= g <= 3 -> 0 <= g' <= 3 ->
  Z.testbit g 0 = Z.testbit g' 0 -> Z.testbit g 1 = Z.testbit g' 1 -> g = g'.
Proof.
  intros Hg Hg'.
  assert (E : g = 0 \/ g = 1 \/ g = 2 \/ g = 3) by lia.
  assert (E' : g' = 0 \/ g' = 1 \/ g' = 2 \/ g' = 3) by lia.
  destruct E as [-> | [-> | [-> | ->]]], E' as [-> | [-> | [-> | ->]]];
    cbn; intros; congruence.
Qed.

(** X2.  The word tells the form and the operands: two lines for which
    [encode] returns the same word, not 0, are both encoded by the same rule,
    from captures of the same values. *)
Theorem encode_injective (l1 l2 : str) (w : Z) (t1 t2 : str) :
  encode l1 = Ok (w, t1) -> encode l2 = Ok (w, t2) -> w <> 0 ->
  (exists m1 m2,
      re_search udot_vector_re l1 = Some m1
      /\ re_search udot_vector_re l2 = Some m2
      /\ int (group m1 1) = int (group m2 1)
      /\ int (group m1 2) = int (group m2 2)
      /\ int (group m1 3) = int (group m2 3))
  \/ (re_search udot_vector_re l1 = None
      /\ re_search udot_vector_re l2 = None
      /\ exists m1 m2,
           re_search udot_element_re l1 = Some m1
           /\ re_search udot_element_re l2 = Some m2
           /\ int (group m1 1) = int (group m2 1)
           /\ int (group m1 2) = int (group m2 2)
           /\ int (group m1 3) = int (group m2 3)
           /\ int (group m1 4) = int (group m2 4)).
Proof.
  intros H1 H2 Hw.
  destruct (encode_word_cases _ H1 Hw) as [V1|[N1 E1]],
    (encode_word_cases _ H2 Hw) as [V2|[N2 E2]].
  - left.
    destruct V1 as (m1 & a & l & r & S1 & Ia & Il & Ir & Ha & Hl & Hr & Ew & _).
    destruct V2
      as (m2 & a' & l' & r' & S2 & Ia' & Il' & Ir' & Ha' & Hl' & Hr' & Ew' & _).
    pose proof (vector_word_fields Ha Hl Hr) as F.
    pose proof (vector_word_fields Ha' Hl' Hr') as F'.
    unfold vector_word_ok in F, F'. rewrite !andb_true_iff in F, F'.
    destruct F as [[[_ Fa] Fl] Fr], F' as [[[_ Fa'] Fl'] Fr'].
    apply Z.eqb_eq in Fa, Fl, Fr, Fa', Fl', Fr'.
    rewrite <- Ew in Fa, Fl, Fr. rewrite <- Ew' in Fa', Fl', Fr'.
    exists m1, m2. rewrite Ia, Il, Ir, Ia', Il', Ir'.
    repeat split; auto; congruence.
  - exfalso.
    destruct V1 as (m1 & a & l & r & _ & _ & _ & _ & Ha & Hl & Hr & Ew & _).
    destruct E2
      as (m2 & a' & l' & r' & g' & _ & _ & _ & _ & _ & Ha' & Hl' & Hr' & Hg'
          & Ew' & _).
    destruct (vector_opcode Ha Hl Hr) as [_ B].
    destruct (element_opcode Ha' Hl' Hr' Hg') as [_ B'].
    rewrite <- Ew in B. rewrite <- Ew' in B'. congruence.
  - exfalso.
    destruct V2 as (m1 & a & l & r & _ & _ & _ & _ & Ha & Hl & Hr & Ew & _).
    destruct E1
      as (m2 & a' & l' & r' & g' & _ & _ & _ & _ & _ & Ha' & Hl' & Hr' & Hg'
          & Ew' & _).
    destruct (vector_opcode Ha Hl Hr) as [_ B].
    destruct (element_opcode Ha' Hl' Hr' Hg') as [_ B'].
    rewrite <- Ew in B. rewrite <- Ew' in B'. congruence.
  - right. split; [exact N1|]. split; [exact N2|].
    destruct E1
      as (m1 & a & l & r & g & S1 & Ia & Il & Ir & Ig & Ha & Hl & Hr & Hg
          & Ew & _).
    destruct E2
      as (m2 & a' & l' & r' & g' & S2 & Ia' & Il' & Ir' & Ig' & Ha' & Hl' & Hr'
          & Hg' & Ew' & _).
    pose proof (element_word_fields Ha Hl Hr Hg) as F.
    pose proof (element_word_fields Ha' Hl' Hr' Hg') as F'.
    unfold element_word_ok in F, F'. rewrite !andb_true_iff in F, F'.
    destruct F as [[[[[_ Fa] Fl] Fr] B21] B11],
      F' as [[[[[_ Fa'] Fl'] Fr'] B21'] B11'].
    apply Z.eqb_eq in Fa, Fl, Fr, Fa', Fl', Fr'.
    apply Bool.eqb_prop in B21, B11, B21', B11'.
    rewrite <- Ew in Fa, Fl, Fr, B21, B11.
    rewrite <- Ew' in Fa', Fl', Fr', B21', B11'.
    assert (g = g') by (apply lane_from_bits; congruence).
    exists m1, m2. rewrite Ia, Il, Ir, Ig, Ia', Il', Ir', Ig'.
    repeat split; auto; congruence.
Qed.

Lemma encode_injective_witness :
  (exists m1 m2,
      re_search udot_vector_re udot_v16 = Some m1
      /\ re_search udot_vector_re (lit "udot  v016 .4s,v4.16b,v00.16b") = Some m2
      /\ int (group m1 1) = int (group m2 1)
      /\ int (group m1 2) = int (group m2 2)
      /\ int (group m1 3) = int (group m2 3))
  \/ (re_search udot_vector_re udot_v16 = None
      /\ re_search udot_vector_re (lit "udot  v016 .4s,v4.16b,v00.16b") = None
      /\ exists m1 m2,
           re_search udot_element_re udot_v16 = Some m1
           /\ re_search udot_element_re (lit "udot  v016 .4s,v4.16b,v00.16b")
              = Some m2
           /\ int (group m1 1) = int (group m2 1)
           /\ int (group m1 2) = int (group m2 2)
           /\ int (group m1 3) = int (group m2 3)
           /\ int (group m1 4) = int (group m2 4)).
Proof.
  apply (@encode_injective udot_v16 (lit "udot  v016 .4s,v4.16b,v00.16b")
           0x6e809490 udot_v16 (lit "udot  v016 .4s,v4.16b,v00.16b"));
    solve [vm_compute; reflexivity | discriminate].
Defined.

(** ** What a run writes *)

(** X3.  The output is the input line by line, up to the first line that
    fails an assertion: each line before it is written, as it is or
    rewritten, in order; the run ends with status 0 or 1 after the last line,
    or at that line with the exception [AssertionError], and with no other. *)
Theorem run_prefix (lines : list str) :
  exists k,
    (k <= List.length lines)%nat
    /\ written (main lines) = map emitted (firstn k lines)
    /\ existsb raises (firstn k lines) = false
    /\ ((k = List.length lines
         /\ exists status err,
              main lines = Exit status (map emitted lines) err
              /\ (status = 0 \/ status = 1))
        \/ ((k < List.length lines)%nat
            /\ exists bad,
                 nth_error lines k = Some bad
                 /\ encode bad = Raise AssertionError
                 /\ main lines
                    = Uncaught AssertionError (map emitted (firstn k lines))
                        (complaints 0 (firstn k lines)))).
Proof.
  destruct (existsb raises lines) eqn:Hr.
  - destruct (raises_split _ Hr) as (pre & bad & post & e & -> & Hp & He).
    assert (Ee : e = AssertionError).
    { pose proof (encode_result bad) as R. rewrite He in R. now inversion R. }
    subst e. exists (List.length pre).
    assert (Ef : firstn (List.length pre) (pre ++ bad :: post) = pre).
    { rewrite firstn_app, Nat.sub_diag, firstn_all. cbn. apply app_nil_r. }
    rewrite Ef, (@main_stops pre bad post _ Hp He). cbn [written].
    split; [rewrite length_app; lia|]. split; [reflexivity|].
    split; [exact Hp|]. right. split; [rewrite length_app; cbn; lia|].
    exists bad. split; [|auto].
    rewrite nth_error_app2, Nat.sub_diag by lia. reflexivity.
  - exists (List.length lines). rewrite firstn_all, (@main_through lines Hr).
    split; [lia|]. split.
    + destruct (existsb conflicting lines); [reflexivity|].
      destruct (existsb annotated lines); reflexivity.
    + split; [exact Hr|]. left. split; [reflexivity|].
      destruct (existsb conflicting lines); [eauto|].
      destruct (existsb annotated lines); eauto.
Qed.

(** ** The directive and its reader *)

Lemma directive_at_directive (mcode : Z) (match_ post : str) :
  0 <= mcode ->
  directive_at (directive mcode match_ ++ post) = true
  /\ take_while is_lhex (skipn 8 (directive mcode match_ ++ post)) = fmt_x mcode.
Proof.
  intros Hm. destruct (fmt_x_lhex Hm) as [Hne Hl].
  unfold directive, directive_at.
  rewrite <- !app_assoc.
  change (skipn 8 (lit ".word 0x" ++ ?s)) with s.
  rewrite starts_with_app. cbn [andb].
  split.
  - destruct (fmt_x mcode) as [|c t]; [contradiction|].
    cbn [app forallb] in *. now apply andb_prop in Hl as [-> _].
  - apply take_while_app; [exact Hl|]. reflexivity.
Qed.

(** X4.  What the script writes, the reader reads: in a line that holds no
    annotation before it, the directive [.word 0x%x  // %s] written for a
    word that is not negative reads back as that word, whatever the text
    after [//] and whatever follows. *)
Theorem directive_read_back (pre post match_ : str) (mcode : Z) :
  0 <= mcode -> has_directive pre = false ->
  read_existing_encoding (pre ++ directive mcode match_ ++ post) = Ok mcode.
Proof.
  intros Hm Hpre.
  destruct (@directive_at_directive mcode match_ post Hm) as [Hat Hhex].
  unfold read_existing_encoding, re_search.
  rewrite search_from_skip.
  - rewrite (@search_from_hit word_re _ _ (word_trace (fmt_x mcode))).
    + destruct (word_trace_groups (fmt_x mcode)) as [-> _].
      rewrite int16_0x. now apply parse_fmt_x.
    + rewrite exec_word_re, Hat, Hhex. reflexivity.
  - intros p1 p2 prev E Hp2. rewrite exec_word_re.
    destruct (directive_at (p2 ++ directive mcode match_ ++ post)) eqn:Ed;
      [|reflexivity].
    exfalso. unfold directive in Ed. rewrite <- !app_assoc in Ed.
    cbn [lit list_ascii_of_string app] in Ed.
    apply (@directive_at_dot p2 _ [] Hp2) in Ed. rewrite app_nil_r in Ed.
    rewrite E in Hpre. apply has_directive_suffix in Hpre as [_ Hpre].
    apply has_directive_head in Hpre. congruence.
Qed.

Lemma directive_read_back_witness :
  read_existing_encoding
    (lit "    " ++ directive 0x6e809490 udot_v16 ++ [newline])
  = Ok 0x6e809490.
Proof.
  apply (@directive_read_back (lit "    ") [newline] udot_v16 0x6e809490).
  - lia.
  - reflexivity.
Defined.

(** ** Text that holds no instruction *)

Lemma has_mnemonic_head (prev : option ascii) (s : str) :
  has_mnemonic prev s = false ->
  starts_with udot s && negb (is_word_opt prev) = false.
Proof.
  destruct s; cbn [has_mnemonic]; intros H; now apply orb_false_elim in H.
Qed.

Lemma has_mnemonic_prev (p p' : option ascii) (s : str) :
  is_word_opt p = is_word_opt p' -> has_mnemonic p s = has_mnemonic p' s.
Proof. intros H. destruct s; cbn [has_mnemonic]; now rewrite H. Qed.

Lemma search_no_mnemonic (p : pattern) (s : str) :
  udot_rule p ->
  forall prev, has_mnemonic prev s = false -> search_from p prev s = None.
Proof.
  intros Hp. induction s as [|c s IH]; intros prev H.
  - apply has_mnemonic_head in H. cbn [search_from].
    destruct (exec p prev []) eqn:E; [|reflexivity].
    eapply udot_rule_needs in E as [E _]; [discriminate|exact Hp].
  - pose proof (has_mnemonic_head _ _ H) as Hh.
    cbn [has_mnemonic] in H. apply orb_false_elim in H as [_ H].
    cbn [search_from].
    destruct (exec p prev (c :: s)) eqn:E; [|now apply IH].
    eapply udot_rule_needs in E as [E1 E2]; [|exact Hp].
    rewrite E1, E2 in Hh. discriminate.
Qed.

Lemma has_mnemonic_app (a b : str) :
  forall prev,
    has_mnemonic prev (a ++ b) = false ->
    has_mnemonic prev a = false
    /\ has_mnemonic (prev_after prev a) b = false.
Proof.
  induction a as [|c a IH]; intros prev H.
  - cbn [app prev_after] in *. split; [|exact H].
    apply has_mnemonic_head in H. cbn [has_mnemonic].
    destruct (is_word_opt prev); [now rewrite andb_false_r|reflexivity].
  - pose proof (has_mnemonic_head _ _ H) as Hh.
    cbn [app has_mnemonic] in H. apply orb_false_elim in H as [_ H].
    destruct (IH _ H) as [Ha Hb]. cbn [prev_after]. split; [|exact Hb].
    cbn [has_mnemonic]. rewrite Ha, orb_false_r.
    destruct (starts_with udot (c :: a)) eqn:E; [|reflexivity].
    apply starts_with_iff in E as [r E].
    change ((c :: a) ++ b) with ((c :: a) ++ b) in Hh.
    rewrite E, <- app_assoc, starts_with_app in Hh. exact Hh.
Qed.

Lemma prev_after_last (prev : option ascii) (s : str) (c : ascii) :
  prev_after prev (s ++ [c]) = Some c.
Proof.
  revert prev. induction s as [|x s IH]; intros prev; [reflexivity|].
  cbn [app prev_after]. apply IH.
Qed.

Lemma lines_from_concat (text : str) :
  forall cur, List.concat (lines_from cur text) = rev cur ++ text.
Proof.
  induction text as [|c text IH]; intros cur; cbn [lines_from].
  - destruct cur as [|x cur]; [reflexivity|].
    cbn [List.concat]. reflexivity.
  - destruct (Ascii.eqb c newline).
    + cbn [List.concat]. rewrite IH. cbn [rev app]. now rewrite <- app_assoc.
    + rewrite IH. cbn [rev]. now rewrite <- app_assoc.
Qed.

Lemma lines_no_mnemonic (text : str) :
  forall cur prev,
    is_word_opt prev = false ->
    has_mnemonic prev (rev cur ++ text) = false ->
    forall line, In line (lines_from cur text) -> has_mnemonic prev line = false.
Proof.
  induction text as [|c text IH]; intros cur prev Hprev H line Hin;
    cbn [lines_from] in Hin.
  - rewrite app_nil_r in H. destruct cur as [|x cur]; [contradiction|].
    destruct Hin as [<-|[]]. exact H.
  - destruct (Ascii.eqb_spec c newline) as [->|Hc].
    + change (rev cur ++ newline :: text)
        with (rev cur ++ [newline] ++ text) in H.
      rewrite app_assoc in H. apply has_mnemonic_app in H as [H1 H2].
      rewrite prev_after_last in H2.
      destruct Hin as [<-|Hin]; [exact H1|].
      apply (IH [] prev Hprev); [|exact Hin].
      cbn [rev app]. rewrite <- H2. apply has_mnemonic_prev.
      now rewrite Hprev.
    + apply (IH (c :: cur) prev Hprev); [|exact Hin].
      cbn [rev]. now rewrite <- app_assoc.
Qed.

Lemma encode_no_mnemonic (line : str) :
  has_mnemonic None line = false -> encode line = Ok (0, line).
Proof.
  intros H. apply encode_unmatched; unfold re_search;
    apply search_no_mnemonic; solve [apply udot_rule_vector
                                    | apply udot_rule_element | exact H].
Qed.

Lemma main_unrecognised (lines : list str) :
  (forall l, In l lines -> encode l = Ok (0, l)) ->
  main lines = Exit 0 lines [].
Proof.
  intros H.
  assert (Hall : existsb raises lines = false
                 /\ existsb annotated lines = false
                 /\ map emitted lines = lines).
  { induction lines as [|l ls IH]; [repeat split|].
    destruct IH as (I1 & I2 & I3); [intros x Hx; apply H; now right|].
    destruct (@line_unrecognised l l (H l (or_introl eq_refl)))
      as (R & _ & A & _ & E).
    cbn [existsb map]. rewrite R, A, E, I1, I2, I3. repeat split. }
  destruct Hall as (Hr & Ha & He).
  rewrite (@main_through lines Hr), (@conflicting_annotated lines Ha), Ha, He.
  reflexivity.
Qed.

(** X5.  A text in which [udot] starts nowhere but after a letter, a digit
    or an underscore holds nothing the script encodes: [encode] returns 0
    on each of its lines, and the script copies the text to its output as it
    is, writes no diagnostic and ends with status 0. *)
Theorem plain_text_copied (text : str) :
  has_mnemonic None text = false ->
  (forall line, In line (readlines text) -> encode line = Ok (0, line))
  /\ script text = Exit 0 (readlines text) []
  /\ List.concat (written (script text)) = text.
Proof.
  intros H.
  assert (Hl : forall line, In line (readlines text) ->
                            encode line = Ok (0, line)).
  { intros line Hin. apply encode_no_mnemonic.
    now apply (@lines_no_mnemonic text [] None eq_refl H). }
  split; [exact Hl|]. unfold script.
  rewrite (@main_unrecognised _ Hl). split; [reflexivity|].
  cbn [written]. unfold readlines. now rewrite lines_from_concat.
Qed.

Lemma plain_text_copied_witness :
  (forall line,
      In line (readlines (lit "UDOT v1.4s, v2.16b, v3.16b" ++ newline
                            :: lit "sudot v1.4s, v2.16b, v3.16b")) ->
      encode line = Ok (0, line))
  /\ script (lit "UDOT v1.4s, v2.16b, v3.16b" ++ newline
               :: lit "sudot v1.4s, v2.16b, v3.16b")
     = Exit 0 (readlines (lit "UDOT v1.4s, v2.16b, v3.16b" ++ newline
                            :: lit "sudot v1.4s, v2.16b, v3.16b")) []
  /\ List.concat (written (script (lit "UDOT v1.4s, v2.16b, v3.16b" ++ newline
                                :: lit "sudot v1.4s, v2.16b, v3.16b")))
     = lit "UDOT v1.4s, v2.16b, v3.16b" ++ newline
         :: lit "sudot v1.4s, v2.16b, v3.16b".
Proof.
  apply (@plain_text_copied
           (lit "UDOT v1.4s, v2.16b, v3.16b" ++ newline
              :: lit "sudot v1.4s, v2.16b, v3.16b")).
  reflexivity.
Defined.

(** ** The output, line by line *)

Lemma no_newline_cons (c : ascii) (s : str) :
  no_newline (c :: s) = negb (Ascii.eqb c newline) && no_newline s.
Proof. reflexivity. Qed.

Lemma lines_from_terminated (b rest : str) :
  no_newline b = true ->
  forall cur,
    lines_from cur (b ++ newline :: rest)
    = (rev cur ++ b ++ [newline]) :: lines_from [] rest.
Proof.
  induction b as [|c b IH]; intros Hb cur.
  - cbn [app lines_from]. rewrite Ascii.eqb_refl. reflexivity.
  - rewrite no_newline_cons in Hb. apply andb_prop in Hb as [Hc Hb].
    apply negb_true_iff in Hc. cbn [app lines_from]. rewrite Hc, (IH Hb).
    cbn [rev]. now rewrite <- app_assoc.
Qed.

Lemma lines_from_unterminated (b : str) :
  no_newline b = true ->
  forall cur, rev cur ++ b <> [] -> lines_from cur b = [rev cur ++ b].
Proof.
  induction b as [|c b IH]; intros Hb cur Hne.
  - rewrite app_nil_r in *. cbn [lines_from].
    destruct cur; [contradiction|reflexivity].
  - rewrite no_newline_cons in Hb. apply andb_prop in Hb as [Hc Hb].
    apply negb_true_iff in Hc. cbn [lines_from]. rewrite Hc, (IH Hb).
    + cbn [rev]. now rewrite <- app_assoc.
    + cbn [rev]. rewrite <- app_assoc. now destruct (rev cur).
Qed.

Lemma readlines_concat (ls : list str) :
  split_lines ls -> readlines (List.concat ls) = ls.
Proof.
  unfold readlines. induction 1 as [|l [Hne Hl]|l ls (b & -> & Hb) _ IH].
  - reflexivity.
  - cbn [List.concat]. rewrite app_nil_r.
    now rewrite lines_from_unterminated.
  - cbn [List.concat]. rewrite <- app_assoc. cbn [app].
    rewrite lines_from_terminated by assumption. now rewrite IH.
Qed.

Lemma lines_from_split (text : str) :
  forall cur, no_newline (rev cur) = true -> split_lines (lines_from cur text).
Proof.
  induction text as [|c text IH]; intros cur Hcur; cbn [lines_from].
  - destruct cur as [|x cur]; [constructor|]. apply split_last.
    split; [|exact Hcur]. cbn [rev]. now destruct (rev cur).
  - destruct (Ascii.eqb c newline) eqn:Ec.
    + apply split_cons; [|now apply IH]. exists (rev cur).
      apply Ascii.eqb_eq in Ec. subst c. now split.
    + apply IH. cbn [rev]. rewrite no_newline_app, Hcur, no_newline_cons, Ec.
      reflexivity.
Qed.

Lemma split_lines_firstn (ls : list str) :
  split_lines ls -> forall k, split_lines (firstn k ls).
Proof.
  induction 1 as [|l Hl|l ls Hl _ IH]; intros [|k]; cbn [firstn].
  - apply split_nil.
  - apply split_nil.
  - apply split_nil.
  - destruct k; now apply split_last.
  - apply split_nil.
  - apply split_cons; [exact Hl|apply IH].
Qed.

Lemma starts_with_before_newline (old s : str) :
  no_newline old = true -> starts_with old (s ++ [newline]) = true ->
  starts_with old s = true.
Proof.
  revert s. induction old as [|a o IH]; intros s Ho H; [reflexivity|].
  rewrite no_newline_cons in Ho. apply andb_prop in Ho as [Ha Ho].
  apply negb_true_iff in Ha. destruct s as [|c s].
  - cbn [app starts_with] in H. rewrite Ha in H. discriminate.
  - cbn [app starts_with] in *. apply andb_prop in H as [-> H].
    now apply IH.
Qed.

Section ReplaceLines.

Variables (a : ascii) (o new : str).
Hypothesis old_line : no_newline (a :: o) = true.
Hypothesis new_line : no_newline new = true.

Lemma replace_no_newline (s : str) :
  no_newline s = true -> no_newline (replace_go (a :: o) new O s) = true.
Proof.
  induction s as [|r IH|c s E IH] using (@scan_ind a o).
  - reflexivity.
  - rewrite replace_go_hit, !no_newline_app. intros H.
    apply andb_prop in H as [_ H]. now rewrite new_line, IH.
  - rewrite replace_go_miss, !no_newline_cons by assumption. intros H.
    apply andb_prop in H as [-> H]. now rewrite IH.
Qed.

Lemma replace_terminated (s : str) :
  replace_go (a :: o) new O (s ++ [newline])
  = replace_go (a :: o) new O s ++ [newline].
Proof.
  induction s as [|r IH|c s E IH] using (@scan_ind a o).
  - cbn [app replace_go starts_with].
    rewrite no_newline_cons in old_line.
    apply andb_prop in old_line as [Ha _]. apply negb_true_iff in Ha.
    now rewrite Ha.
  - rewrite <- app_assoc, !replace_go_hit, IH. now rewrite <- app_assoc.
  - rewrite <- app_comm_cons, !replace_go_miss, IH; [reflexivity|assumption|].
    destruct (starts_with (a :: o) (c :: s ++ [newline])) eqn:E'; [|reflexivity].
    rewrite app_comm_cons in E'.
    apply starts_with_before_newline in E'; [congruence|exact old_line].
Qed.

Lemma replace_nonempty (s : str) :
  new <> [] -> s <> [] -> replace_go (a :: o) new O s <> [].
Proof.
  intros Hn Hs. destruct (@scan_cases a o s) as [->|[[r ->]|(c & s' & -> & E)]].
  - contradiction.
  - rewrite replace_go_hit. now destruct new.
  - now rewrite replace_go_miss.
Qed.

End ReplaceLines.

Lemma no_newline_directive (mcode : Z) (match_ : str) :
  0 <= mcode -> no_newline match_ = true ->
  no_newline (directive mcode match_) = true.
Proof.
  intros Hm Ht. unfold directive. rewrite !no_newline_app, Ht.
  destruct (fmt_x_lhex Hm) as [_ Hl].
  change is_lhex with (mem LowerHex) in Hl.
  now rewrite (no_newline_class _ _ Hl).
Qed.

(** The line written is the line, or the line with a text that holds no
    newline replaced by another. *)
Lemma emitted_cases (line : str) :
  emitted line = line
  \/ exists o new,
       no_newline ("u" :: o) = true /\ no_newline new = true /\ new <> []
       /\ emitted line = replace_go ("u" :: o) new O line.
Proof.
  unfold emitted, recognised, word_of, match_of, existing_of.
  destruct (encode line) as [[w m]|e] eqn:He; [|now left].
  destruct (Z.eqb_spec w 0) as [Hw|Hw]; [now left|].
  destruct (_ =? 0); [|now left]. right. cbn [negb andb].
  destruct (encode_word_match _ He Hw) as [[t Et] _].
  pose proof (match_no_newline _ He Hw) as Hn.
  destruct (@encode_by_search line line w m eq_refl eq_refl He Hw) as [_ H0].
  assert (Em : m = "u" :: lit "dot " ++ t) by (rewrite Et; reflexivity).
  clear Et. subst m.
  exists (lit "dot " ++ t), (directive w ("u" :: lit "dot " ++ t)).
  split; [exact Hn|]. split; [now apply no_newline_directive|].
  split; [discriminate|reflexivity].
Qed.

Lemma emitted_terminated (l : str) : terminated l -> terminated (emitted l).
Proof.
  intros (b & -> & Hb).
  destruct (emitted_cases (b ++ [newline])) as [->|(o & new & Ho & Hn & _ & ->)].
  - now exists b.
  - rewrite replace_terminated by assumption.
    eexists. split; [reflexivity|]. now apply replace_no_newline.
Qed.

Lemma emitted_unterminated (l : str) :
  unterminated l -> unterminated (emitted l).
Proof.
  intros [Hne Hl].
  destruct (emitted_cases l) as [->|(o & new & Ho & Hn & Hnn & ->)].
  - now split.
  - split; [now apply replace_nonempty|now apply replace_no_newline].
Qed.

Lemma split_lines_emitted (ls : list str) :
  split_lines ls -> split_lines (map emitted ls).
Proof.
  induction 1 as [|l Hl|l ls Hl _ IH]; cbn [map].
  - constructor.
  - apply split_last. now apply emitted_unterminated.
  - apply split_cons; [now apply emitted_terminated|exact IH].
Qed.

Lemma written_prefix (lines : list str) :
  exists k, written (main lines) = map emitted (firstn k lines).
Proof.
  destruct (existsb raises lines) eqn:Hr.
  - destruct (raises_split _ Hr) as (pre & bad & post & e & -> & Hp & He).
    exists (List.length pre).
    rewrite (@main_stops pre bad post e Hp He), firstn_app, Nat.sub_diag,
      firstn_all.
    cbn. now rewrite app_nil_r.
  - exists (List.length lines). rewrite firstn_all, (@main_through lines Hr).
    destruct (existsb conflicting lines); [reflexivity|].
    destruct (existsb annotated lines); reflexivity.
Qed.

(** X6.  The strings the script writes are the lines of its output: every
    line of the input that ends with a newline is written as one string that
    ends with its only newline, and a last line without a newline as one
    string without any.  A second run of the script on that output hence
    reads, line by line, the strings the first run wrote. *)
Theorem output_lines (text : str) :
  split_lines (readlines text)
  /\ split_lines (written (script text))
  /\ readlines (List.concat (written (script text))) = written (script text)
  /\ script (List.concat (written (script text)))
     = main (written (script text)).
Proof.
  assert (Hin : split_lines (readlines text))
    by (now apply lines_from_split).
  assert (Hout : split_lines (written (script text))).
  { unfold script. destruct (written_prefix (readlines text)) as [k ->].
    now apply split_lines_emitted, split_lines_firstn. }
  split; [exact Hin|]. split; [exact Hout|].
  unfold script at 3. rewrite (readlines_concat Hout). now split.
Qed.

(** ** Other ways to write the instruction *)

Lemma spaces_all (n : nat) : forallb (mem Space) (spaces n) = true.
Proof. induction n as [|n IH]; [reflexivity|exact IH]. Qed.

Lemma stops_spaces (cls : cclass) (n : nat) (c : ascii) (r : str) :
  mem cls " " = false -> mem cls c = false -> stops cls (spaces n ++ c :: r).
Proof. intros Hs Hc. destruct n; assumption. Qed.

Lemma straight_spaces (n : nat) (p : pattern) (c : ascii) (s : str) (tr : trace) :
  is_space c = false -> straight p (c :: s) tr ->
  straight (Star Space :: p) (spaces n ++ c :: s) (map Ch (spaces n) ++ tr).
Proof.
  intros Hc H. apply straight_star; [apply spaces_all|exact Hc|exact H].
Qed.

Lemma straight_spaces1 (n : nat) (p : pattern) (c : ascii) (s : str) (tr : trace) :
  is_space c = false -> straight p (c :: s) tr ->
  straight (Plus Space :: p) (" "%char :: spaces n ++ c :: s)
    (Ch " " :: map Ch (spaces n) ++ tr).
Proof.
  intros Hc H.
  apply straight_plus; [reflexivity|apply spaces_all|exact Hc|exact H].
Qed.

Lemma is_numeral_numeral (d : str) : is_numeral d = true -> numeral d.
Proof.
  destruct d as [|c t]; [discriminate|]. cbn [is_numeral forallb]. intros H.
  apply andb_prop in H as [Hc Ht]. now exists c, t.
Qed.

Lemma separator_inv (c : ascii) :
  separator c = true ->
  c <> newline /\ mem Space c = false /\ mem Digit c = false.
Proof.
  unfold separator. intros H. apply andb_prop in H as [H Hd].
  apply andb_prop in H as [Hn Hs].
  apply negb_true_iff in Hn, Hs, Hd. apply Ascii.eqb_neq in Hn. auto.
Qed.

Ltac layout_step :=
  first
    [ apply straight_nil
    | apply straight_lit
    | apply straight_open
    | apply straight_close
    | apply straight_any; [assumption|]
    | apply straight_one; [eassumption|]
    | apply straight_spaces; [assumption || reflexivity|]
    | apply straight_spaces1; [assumption || reflexivity|]
    | apply straight_plus;
      [eassumption|eassumption|apply stops_spaces; [reflexivity|assumption]|] ].

Ltac layout_open :=
  unfold vector_layout, element_layout, operand, comma,
    udot_vector_re, udot_element_re;
  cbn [lit list_ascii_of_string];
  repeat (progress (cbn [app]; rewrite <- ?app_assoc)).

Lemma exec_vector_layout (g : nat -> nat) (s : nat -> ascii) (d1 d2 d3 post : str)
    (prev : option ascii) :
  forallb separator [s 1%nat; s 2%nat; s 3%nat] = true ->
  numeral d1 -> numeral d2 -> numeral d3 -> is_word_opt prev = false ->
  exists m,
    exec udot_vector_re prev (vector_layout g s d1 d2 d3 ++ post) = Some m
    /\ group m 0 = vector_layout g s d1 d2 d3
    /\ group m 1 = d1 /\ group m 2 = d2 /\ group m 3 = d3.
Proof.
  intros Hs (c1 & t1 & -> & Hc1 & Ht1) (c2 & t2 & -> & Hc2 & Ht2)
    (c3 & t3 & -> & Hc3 & Ht3) Hprev.
  cbn [forallb] in Hs. rewrite !andb_true_iff in Hs.
  destruct Hs as (S1 & S2 & S3 & _).
  apply separator_inv in S1 as (N1 & P1 & D1), S2 as (N2 & P2 & D2),
    S3 as (N3 & P3 & D3).
  cbn [mem] in P1, P2, P3.
  change is_digit with (mem Digit) in *.
  layout_open.
  rewrite exec_wordb, Hprev. cbn [hd_error is_word_opt].
  change (is_word "u") with true. cbn [xorb].
  eexists. split.
  - apply straight_exec. repeat layout_step.
  - read_groups. rewrite !app_nil_r. repeat split.
Qed.

Lemma exec_element_layout (g : nat -> nat) (s : nat -> ascii) (d1 d2 d3 : str)
    (c4 : ascii) (post : str) (prev : option ascii) :
  forallb separator [s 1%nat; s 2%nat; s 3%nat] = true ->
  numeral d1 -> numeral d2 -> numeral d3 -> is_digit c4 = true ->
  is_word_opt prev = false ->
  exists m,
    exec udot_element_re prev (element_layout g s d1 d2 d3 c4 ++ post) = Some m
    /\ group m 0 = element_layout g s d1 d2 d3 c4
    /\ group m 1 = d1 /\ group m 2 = d2 /\ group m 3 = d3 /\ group m 4 = [c4].
Proof.
  intros Hs (c1 & t1 & -> & Hc1 & Ht1) (c2 & t2 & -> & Hc2 & Ht2)
    (c3 & t3 & -> & Hc3 & Ht3) Hc4 Hprev.
  cbn [forallb] in Hs. rewrite !andb_true_iff in Hs.
  destruct Hs as (S1 & S2 & S3 & _).
  apply separator_inv in S1 as (N1 & P1 & D1), S2 as (N2 & P2 & D2),
    S3 as (N3 & P3 & D3).
  cbn [mem] in P1, P2, P3.
  change is_digit with (mem Digit) in *.
  layout_open.
  rewrite exec_wordb, Hprev. cbn [hd_error is_word_opt].
  change (is_word "u") with true. cbn [xorb].
  eexists. split.
  - apply straight_exec. repeat layout_step.
  - read_groups. rewrite !app_nil_r. repeat split.
Qed.

(** [encode] on a line in which the vector pattern is found. *)
Lemma encode_vector_found (line : str) (m : trace) (a l r : Z) :
  re_search udot_vector_re line = Some m ->
  int (group m 1) = Ok a -> int (group m 2) = Ok l -> int (group m 3) = Ok r ->
  encode line
  = if (a <=? 31) && (l <=? 31) && (r <=? 31)
    then Ok (spec_vector_word a l r, group m 0)
    else Raise AssertionError.
Proof.
  intros Hm Ia Il Ir. rewrite encode_first.
  destruct (encode_udot_vector_matched _ Hm)
    as (a' & l' & r' & Ia' & Il' & Ir' & _ & _ & _ & ->).
  rewrite Ia in Ia'. rewrite Il in Il'. rewrite Ir in Ir'.
  injection Ia' as <-. injection Il' as <-. injection Ir' as <-.
  destruct (_ && _); [|reflexivity].
  destruct (Z.eqb_spec (spec_vector_word a l r) 0) as [E|_]; [|reflexivity].
  now apply spec_vector_word_nonzero in E.
Qed.

Lemma encode_element_found (line : str) (m : trace) (a l r g : Z) :
  re_search udot_element_re line = Some m ->
  int (group m 1) = Ok a -> int (group m 2) = Ok l -> int (group m 3) = Ok r ->
  int (group m 4) = Ok g ->
  encode_udot_element line
  = if (a <=? 31) && (l <=? 31) && (r <=? 31) && (g <=? 3)
    then Ok (spec_element_word a l r g, group m 0)
    else Raise AssertionError.
Proof.
  intros Hm Ia Il Ir Ig.
  destruct (encode_udot_element_matched _ Hm)
    as (a' & l' & r' & g' & Ia' & Il' & Ir' & Ig' & _ & _ & _ & _ & ->).
  rewrite Ia in Ia'. rewrite Il in Il'. rewrite Ir in Ir'. rewrite Ig in Ig'.
  injection Ia' as <-. injection Il' as <-. injection Ir' as <-.
  now injection Ig' as <-.
Qed.

(** X7.  The vector form is recognised however it is spaced, with any
    character that is neither a newline, a space nor a digit where a dot is
    expected, and with any decimal numerals for the registers: at the start
    of the line, or after a text in which no [udot] starts and that does not
    end with a word character, such a text is encoded as the usual text with
    the same register numbers is when the three numbers are at most 31, and
    fails the assertion otherwise. *)
Theorem vector_layout_encoded (g : nat -> nat) (s : nat -> ascii)
    (d1 d2 d3 pre post : str) :
  forallb separator [s 1%nat; s 2%nat; s 3%nat] = true ->
  forallb is_numeral [d1; d2; d3] = true ->
  clear_of udot pre (vector_layout g s d1 d2 d3 ++ post) = true ->
  is_word_opt (prev_after None pre) = false ->
  exists accum lhs rhs,
    int d1 = Ok accum /\ int d2 = Ok lhs /\ int d3 = Ok rhs
    /\ encode (pre ++ vector_layout g s d1 d2 d3 ++ post)
       = if (accum <=? 31) && (lhs <=? 31) && (rhs <=? 31)
         then Ok (spec_vector_word accum lhs rhs, vector_layout g s d1 d2 d3)
         else Raise AssertionError.
Proof.
  intros Hs Hd Hc Hprev.
  cbn [forallb] in Hd. rewrite !andb_true_iff in Hd.
  destruct Hd as (N1 & N2 & N3 & _).
  apply is_numeral_numeral in N1, N2, N3.
  destruct (int_numeral N1) as (a & Ia & _), (int_numeral N2) as (l & Il & _),
    (int_numeral N3) as (r & Ir & _).
  destruct (@exec_vector_layout g s d1 d2 d3 post _ Hs N1 N2 N3 Hprev)
    as (m & Hm & G0 & G1 & G2 & G3).
  apply (@search_at udot_vector_re pre _ m udot_rule_vector Hc) in Hm.
  exists a, l, r. rewrite <- G0. rewrite <- G1 in Ia. rewrite <- G2 in Il.
  rewrite <- G3 in Ir.
  rewrite <- (encode_vector_found _ Hm Ia Il Ir).
  rewrite G1 in Ia. rewrite G2 in Il. rewrite G3 in Ir. now rewrite G0.
Qed.

Lemma vector_layout_encoded_witness :
  exists accum lhs rhs,
    int (lit "016") = Ok accum /\ int (lit "4") = Ok lhs
    /\ int (lit "00") = Ok rhs
    /\ encode (lit "  " ++ vector_layout (fun n => Nat.modulo n 3)
                             (fun n => nth n [":"; "/"; "-"; "x"] "."%char)
                             (lit "016") (lit "4") (lit "00") ++ [newline])
       = if (accum <=? 31) && (lhs <=? 31) && (rhs <=? 31)
         then Ok (spec_vector_word accum lhs rhs,
                  vector_layout (fun n => Nat.modulo n 3)
                    (fun n => nth n [":"; "/"; "-"; "x"] "."%char)
                    (lit "016") (lit "4") (lit "00"))
         else Raise AssertionError.
Proof.
  apply (@vector_layout_encoded (fun n => Nat.modulo n 3)
           (fun n => nth n [":"; "/"; "-"; "x"] "."%char)
           (lit "016") (lit "4") (lit "00") (lit "  ") [newline]);
    reflexivity.
Defined.

(** X8.  So is the indexed form, with one digit between the brackets: the
    indexed rule returns the word of the usual text when the register
    numbers are at most 31 and the digit at most 3, and fails the assertion
    otherwise; [encode] returns the same when the vector pattern is not
    found in the line. *)
Theorem element_layout_encoded (g : nat -> nat) (s : nat -> ascii)
    (d1 d2 d3 : str) (c4 : ascii) (pre post : str) :
  forallb separator [s 1%nat; s 2%nat; s 3%nat] = true ->
  forallb is_numeral [d1; d2; d3; [c4]] = true ->
  clear_of udot pre (element_layout g s d1 d2 d3 c4 ++ post) = true ->
  is_word_opt (prev_after None pre) = false ->
  let line := pre ++ element_layout g s d1 d2 d3 c4 ++ post in
  exists accum lhs rhs lanegroup,
    int d1 = Ok accum /\ int d2 = Ok lhs /\ int d3 = Ok rhs
    /\ int [c4] = Ok lanegroup
    /\ encode_udot_element line
       = (if (accum <=? 31) && (lhs <=? 31) && (rhs <=? 31) && (lanegroup <=? 3)
          then Ok (spec_element_word accum lhs rhs lanegroup,
                   element_layout g s d1 d2 d3 c4)
          else Raise AssertionError)
    /\ (re_search udot_vector_re line = None ->
        encode line = encode_udot_element line).
Proof.
  intros Hs Hd Hc Hprev line.
  cbn [forallb] in Hd. rewrite !andb_true_iff in Hd.
  destruct Hd as (N1 & N2 & N3 & N4 & _).
  apply is_numeral_numeral in N1, N2, N3.
  cbn [is_numeral forallb] in N4. rewrite andb_true_r in N4.
  destruct (int_numeral N1) as (a & Ia & _), (int_numeral N2) as (l & Il & _),
    (int_numeral N3) as (r & Ir & _).
  destruct (int_one_digit _ N4) as (k & Ik & _).
  destruct (@exec_element_layout g s d1 d2 d3 c4 post _ Hs N1 N2 N3 N4 Hprev)
    as (m & Hm & G0 & G1 & G2 & G3 & G4).
  apply (@search_at udot_element_re pre _ m udot_rule_element Hc) in Hm.
  exists a, l, r, k. do 4 (split; [assumption|]). split.
  - rewrite <- G0. rewrite <- G1 in Ia. rewrite <- G2 in Il.
    rewrite <- G3 in Ir. rewrite <- G4 in Ik.
    apply (encode_element_found _ Hm Ia Il Ir Ik).
  - intros Hv. rewrite encode_first.
    now rewrite encode_udot_vector_unmatched.
Qed.

Lemma element_layout_encoded_witness :
  let line :=
    lit "  " ++ element_layout (fun n => Nat.modulo n 3)
                  (fun n => nth n [":"; "/"; "-"; "x"] "."%char)
                  (lit "1") (lit "02") (lit "3") "2" ++ [newline] in
  exists accum lhs rhs lanegroup,
    int (lit "1") = Ok accum /\ int (lit "02") = Ok lhs
    /\ int (lit "3") = Ok rhs /\ int ["2"%char] = Ok lanegroup
    /\ encode_udot_element line
       = (if (accum <=? 31) && (lhs <=? 31) && (rhs <=? 31) && (lanegroup <=? 3)
          then Ok (spec_element_word accum lhs rhs lanegroup,
                   element_layout (fun n => Nat.modulo n 3)
                     (fun n => nth n [":"; "/"; "-"; "x"] "."%char)
                     (lit "1") (lit "02") (lit "3") "2")
          else Raise AssertionError)
    /\ (re_search udot_vector_re line = None ->
        encode line = encode_udot_element line).
Proof.
  apply (@element_layout_encoded (fun n => Nat.modulo n 3)
           (fun n => nth n [":"; "/"; "-"; "x"] "."%char)
           (lit "1") (lit "02") (lit "3") "2" (lit "  ") [newline]);
    reflexivity.
Defined.

(** ** The diagnostics *)

Lemma numbers_shift (n : Z) (len : nat) :
  map (fun i => n + Z.of_nat i) (seq 2 len)
  = map (fun i => n + 1 + Z.of_nat i) (seq 1 len).
Proof.
  rewrite <- (seq_shift len 1), map_map. apply map_ext. intros i. lia.
Qed.

Lemma complaints_reports (lines : list str) :
  forall n,
    complaints n lines
    = reports (combine (map (fun i => n + Z.of_nat i) (seq 1 (List.length lines)))
                 lines).
Proof.
  induction lines as [|l ls IH]; intros n; [reflexivity|].
  cbn [complaints List.length seq map combine].
  rewrite (IH (n + 1)), numbers_shift. unfold reports.
  cbn [filter snd fst]. unfold complaint.
  replace (n + Z.of_nat 1) with (n + 1) by lia.
  destruct (conflicting l); reflexivity.
Qed.

Lemma reports_length (lines : list str) :
  forall n,
    List.length (reports
      (combine (map (fun i => n + Z.of_nat i) (seq 1 (List.length lines))) lines))
    = List.length (filter conflicting lines).
Proof.
  induction lines as [|l ls IH]; intros n; [reflexivity|].
  cbn [List.length seq map combine]. rewrite numbers_shift.
  specialize (IH (n + 1)). unfold reports in *. cbn [filter snd].
  destruct (conflicting l); cbn [map List.length]; now rewrite IH.
Qed.

Lemma processed_through (lines : list str) :
  existsb raises lines = false -> processed lines = lines.
Proof.
  induction lines as [|l ls IH]; [reflexivity|]. cbn [existsb processed].
  intros H. apply orb_false_elim in H as [-> H]. now rewrite IH.
Qed.

Lemma processed_stops (pre : list str) (bad : str) (post : list str) (e : exn) :
  existsb raises pre = false -> encode bad = Raise e ->
  processed (pre ++ bad :: post) = pre.
Proof.
  intros Hp He. induction pre as [|l ls IH].
  - cbn [app processed]. unfold raises. now rewrite He.
  - cbn [existsb] in Hp. apply orb_false_elim in Hp as [Hl Hp].
    cbn [app processed]. now rewrite Hl, IH.
Qed.

(** X9.  What the script writes to [sys.stderr]: one message for each line
    that carries another word than the one computed, among the lines before
    the first that fails an assertion, in the order of the input and with
    the number of the line counted from 1; and after them the note, when the
    run goes through all lines, none of which is conflicting and one of
    which is annotated.  The lines written to [sys.stdout] are those same
    lines, as they are or rewritten. *)
Theorem diagnostics_listed (lines : list str) :
  diagnostics (main lines)
  = reports (numbered (processed lines))
      ++ (if existsb raises lines || existsb conflicting lines
             || negb (existsb annotated lines)
          then [] else [note])
  /\ written (main lines) = map emitted (processed lines)
  /\ List.length (reports (numbered (processed lines)))
     = List.length (filter conflicting (processed lines)).
Proof.
  assert (Hc : forall ls, complaints 0 ls = reports (numbered ls)).
  { intros ls. rewrite complaints_reports. unfold numbered. do 2 f_equal. }
  split; [|split].
  - destruct (existsb raises lines) eqn:Hr.
    + destruct (raises_split _ Hr) as (pre & bad & post & e & -> & Hp & He).
      rewrite (@main_stops pre bad post e Hp He), (@processed_stops pre bad post e Hp He).
      cbn [diagnostics orb]. now rewrite app_nil_r, Hc.
    + rewrite (@main_through lines Hr), (@processed_through lines Hr). cbn [orb].
      rewrite <- Hc.
      destruct (existsb conflicting lines) eqn:Ec.
      * cbn [diagnostics orb]. now rewrite app_nil_r.
      * rewrite (@complaints_none lines Ec).
        destruct (existsb annotated lines); reflexivity.
  - destruct (existsb raises lines) eqn:Hr.
    + destruct (raises_split _ Hr) as (pre & bad & post & e & -> & Hp & He).
      now rewrite (@main_stops pre bad post e Hp He), (@processed_stops pre bad post e Hp He).
    + rewrite (@main_through lines Hr), (@processed_through lines Hr).
      destruct (existsb conflicting lines); [reflexivity|].
      destruct (existsb annotated lines); reflexivity.
  - unfold numbered.
    rewrite <- (reports_length (processed lines) 0). do 3 f_equal.
Qed.

(** ** The loop *)

(** X10.  From any state and on any lines, the loop only adds to what was
    written: it writes one string to [sys.stdout] for each line it goes
    through and at most one message to [sys.stderr]; [lineno] grows by the
    number of those lines; it goes through all lines exactly when no
    exception ends it; [found_error] is set exactly when it was set or a
    message was written, and then [found_existing_encodings] is set too or
    [found_error] was set before; and no flag that was set is cleared. *)
Theorem loop_invariant (st : state) (lines : list str) :
  let st' := fst (loop st lines) in
  exists out err,
    stdout st' = stdout st ++ out /\ stderr st' = stderr st ++ err
    /\ lineno st' = lineno st + Z.of_nat (List.length out)
    /\ (List.length err <= List.length out <= List.length lines)%nat
    /\ (snd (loop st lines) = None <-> List.length out = List.length lines)
    /\ found_error st' = found_error st || negb (Nat.eqb (List.length err) 0)
    /\ (found_error st' = true ->
        found_existing_encodings st' = true \/ found_error st = true)
    /\ (found_existing_encodings st = true ->
        found_existing_encodings st' = true).
Proof.
  assert (Hlen : forall ls n,
             (List.length (complaints n ls) <= List.length ls)%nat
             /\ negb (Nat.eqb (List.length (complaints n ls)) 0)
                = existsb conflicting ls).
  { induction ls as [|l ls IH]; intros n; [split; reflexivity|].
    cbn [complaints existsb]. rewrite length_app. unfold complaint.
    destruct (IH (n + 1)) as [I1 I2].
    destruct (conflicting l); cbn [List.length orb plus]; [split; [lia|reflexivity]|].
    split; [lia|exact I2]. }
  assert (Hflag : forall ls,
             existsb conflicting ls = true -> existsb annotated ls = true).
  { intros ls H. destruct (existsb annotated ls) eqn:E; [reflexivity|].
    apply conflicting_annotated in E. congruence. }
  assert (Hall : forall pre,
    exists out err,
      stdout (after_all st pre) = stdout st ++ out
      /\ stderr (after_all st pre) = stderr st ++ err
      /\ lineno (after_all st pre) = lineno st + Z.of_nat (List.length out)
      /\ (List.length err <= List.length out)%nat
      /\ List.length out = List.length pre
      /\ found_error (after_all st pre)
         = found_error st || negb (Nat.eqb (List.length err) 0)
      /\ (found_error (after_all st pre) = true ->
          found_existing_encodings (after_all st pre) = true
          \/ found_error st = true)
      /\ (found_existing_encodings st = true ->
          found_existing_encodings (after_all st pre) = true)).
  { intros pre. exists (map emitted pre), (complaints (lineno st) pre).
    destruct (Hlen pre (lineno st)) as [L1 L2].
    cbn [after_all stdout stderr lineno found_error found_existing_encodings].
    rewrite length_map, L2. repeat split; try reflexivity; try assumption.
    - intros H. apply orb_prop in H as [H|H]; [now right|left].
      rewrite (Hflag _ H). apply orb_true_r.
    - intros ->. reflexivity. }
  intros st'. subst st'.
  destruct (existsb raises lines) eqn:Hr.
  - destruct (raises_split _ Hr) as (pre & bad & post & e & -> & Hp & He).
    rewrite (@loop_stops pre bad post e st Hp He). cbn [fst snd].
    destruct (Hall pre) as (out & err & H1 & H2 & H3 & H4 & H5 & H6 & H7 & H8).
    exists out, err. rewrite length_app. cbn [List.length].
    repeat split; try assumption; try lia; try discriminate.
  - rewrite (@loop_through lines st Hr). cbn [fst snd].
    destruct (Hall lines) as (out & err & H1 & H2 & H3 & H4 & H5 & H6 & H7 & H8).
    exists out, err. repeat split; try assumption; try lia.
Qed.

(** ** The text of the instruction, alone *)

Lemma greedy_some (cls : cclass) k prev (s : str) (tr : trace) :
  k prev s = Some tr -> exists tr', greedy cls k prev s = Some tr'.
Proof.
  intros H. destruct s as [|c s]; cbn [greedy]; [eauto|].
  destruct (mem cls c); [|eauto].
  destruct (greedy cls k (Some c) s); eauto.
Qed.

Lemma greedy_extends (cls : cclass) k : extends k -> extends (greedy cls k).
Proof.
  intros Hk prev x. revert prev.
  induction x as [|c x IH]; intros prev r tr H.
  - cbn [greedy] in H. destruct (Hk _ _ r _ H) as [tr' H'].
    eapply greedy_some. exact H'.
  - cbn [app greedy] in *. destruct (mem cls c).
    + destruct (greedy cls k (Some c) x) as [tr1|] eqn:E.
      * destruct (IH _ r _ E) as [tr' ->]. eauto.
      * destruct (greedy cls k (Some c) (x ++ r)); [eauto|].
        apply (Hk _ (c :: x) r _ H).
    + apply (Hk _ (c :: x) r _ H).
Qed.

Lemma exec_extends (p : pattern) : no_wordb p = true -> extends (exec p).
Proof.
  induction p as [|[|c| |cls|cls|cls| |] p IH]; cbn [no_wordb]; intros Hp;
    try discriminate; try specialize (IH Hp).
  - intros prev x r tr _. cbn [exec]. eauto.
  - intros prev [|a x] r tr H; cbn [exec app] in *; [discriminate|].
    destruct (Ascii.eqb a c); [|discriminate].
    destruct (exec p (Some a) x) as [t1|] eqn:E; [|discriminate].
    destruct (IH _ _ r _ E) as [tr' ->]. cbn. eauto.
  - intros prev [|a x] r tr H; cbn [exec app] in *; [discriminate|].
    destruct (Ascii.eqb a newline); [discriminate|].
    destruct (exec p (Some a) x) as [t1|] eqn:E; [|discriminate].
    destruct (IH _ _ r _ E) as [tr' ->]. cbn. eauto.
  - intros prev [|a x] r tr H; cbn [exec app] in *; [discriminate|].
    destruct (mem cls a); [|discriminate].
    destruct (exec p (Some a) x) as [t1|] eqn:E; [|discriminate].
    destruct (IH _ _ r _ E) as [tr' ->]. cbn. eauto.
  - intros prev x r tr H. cbn [exec] in *.
    now apply (@greedy_extends cls (exec p) IH prev x r tr).
  - intros prev [|a x] r tr H; cbn [exec app] in *; [discriminate|].
    destruct (mem cls a); [|discriminate].
    destruct (greedy cls (exec p) (Some a) x) as [t1|] eqn:E; [|discriminate].
    destruct (@greedy_extends cls (exec p) IH _ _ r _ E) as [tr' ->].
    cbn. eauto.
  - intros prev x r tr H. cbn [exec] in *.
    destruct (exec p prev x) as [t1|] eqn:E; [|discriminate].
    destruct (IH _ _ r _ E) as [tr' ->]. cbn. eauto.
  - intros prev x r tr H. cbn [exec] in *.
    destruct (exec p prev x) as [t1|] eqn:E; [|discriminate].
    destruct (IH _ _ r _ E) as [tr' ->]. cbn. eauto.
Qed.

Lemma greedy_exact (cls : cclass) k :
  extends k -> exact k -> exact (greedy cls k).
Proof.
  intros He Hx prev s. revert prev.
  induction s as [|c s IH]; intros prev tr r H Hs.
  - cbn [greedy] in H. pose proof (Hx _ _ _ _ H Hs) as H'.
    symmetry in Hs. apply app_eq_nil in Hs as [Hs _].
    rewrite Hs in *. exact H'.
  - cbn [greedy] in H. destruct (mem cls c) eqn:Hc.
    + destruct (greedy cls k (Some c) s) as [tr1|] eqn:E.
      * injection H as <-. cbn [chars app] in Hs |- *. injection Hs as Hs.
        cbn [greedy]. now rewrite Hc, (IH _ _ _ E Hs).
      * pose proof (Hx _ _ _ _ H Hs) as H'.
        destruct (chars tr) as [|c' x] eqn:Ex; [exact H'|].
        cbn [app] in Hs. injection Hs as <- Hs. cbn [greedy]. rewrite Hc.
        destruct (greedy cls k (Some c) x) as [tr2|] eqn:E2; [|exact H'].
        exfalso. destruct (@greedy_extends cls k He _ _ r _ E2) as [tr3 E3].
        rewrite <- Hs in E3. congruence.
    + pose proof (Hx _ _ _ _ H Hs) as H'.
      destruct (chars tr) as [|c' x] eqn:Ex; [exact H'|].
      cbn [app] in Hs. injection Hs as <- Hs. cbn [greedy]. now rewrite Hc.
Qed.

Lemma exec_exact (p : pattern) : no_wordb p = true -> exact (exec p).
Proof.
  induction p as [|[|c| |cls|cls|cls| |] p IH]; cbn [no_wordb]; intros Hp;
    try discriminate; try specialize (IH Hp).
  - intros prev s tr r H _. cbn [exec] in H. now injection H as <-.
  - intros prev [|a s] tr r H Hs; cbn [exec] in H; [discriminate|].
    destruct (Ascii.eqb a c) eqn:Ea; [|discriminate].
    destruct (exec p (Some a) s) as [t1|] eqn:E; [|discriminate].
    injection H as <-. cbn [chars app] in Hs |- *. injection Hs as Hs.
    cbn [exec]. now rewrite Ea, (IH _ _ _ _ E Hs).
  - intros prev [|a s] tr r H Hs; cbn [exec] in H; [discriminate|].
    destruct (Ascii.eqb a newline) eqn:Ea; [discriminate|].
    destruct (exec p (Some a) s) as [t1|] eqn:E; [|discriminate].
    injection H as <-. cbn [chars app] in Hs |- *. injection Hs as Hs.
    cbn [exec]. now rewrite Ea, (IH _ _ _ _ E Hs).
  - intros prev [|a s] tr r H Hs; cbn [exec] in H; [discriminate|].
    destruct (mem cls a) eqn:Ea; [|discriminate].
    destruct (exec p (Some a) s) as [t1|] eqn:E; [|discriminate].
    injection H as <-. cbn [chars app] in Hs |- *. injection Hs as Hs.
    cbn [exec]. now rewrite Ea, (IH _ _ _ _ E Hs).
  - intros prev s tr r H Hs. cbn [exec] in *.
    apply (@greedy_exact cls (exec p) (exec_extends p Hp) IH prev s tr r H Hs).
  - intros prev [|a s] tr r H Hs; cbn [exec] in H; [discriminate|].
    destruct (mem cls a) eqn:Ea; [|discriminate].
    destruct (greedy cls (exec p) (Some a) s) as [t1|] eqn:E; [|discriminate].
    injection H as <-. cbn [chars app] in Hs |- *. injection Hs as Hs.
    cbn [exec]. rewrite Ea.
    now rewrite (@greedy_exact cls (exec p) (exec_extends p Hp) IH _ _ _ _ E Hs).
  - intros prev s tr r H Hs. cbn [exec] in H.
    destruct (exec p prev s) as [t1|] eqn:E; [|discriminate].
    injection H as <-. cbn [chars] in *. cbn [exec].
    now rewrite (IH _ _ _ _ E Hs).
  - intros prev s tr r H Hs. cbn [exec] in H.
    destruct (exec p prev s) as [t1|] eqn:E; [|discriminate].
    injection H as <-. cbn [chars] in *. cbn [exec].
    now rewrite (IH _ _ _ _ E Hs).
Qed.

Lemma rule_tail (p : pattern) :
  rule p -> exists q, p = WordB :: Lit "u" :: q /\ no_wordb q = true.
Proof. intros [-> | ->]; eexists; split; reflexivity. Qed.

Lemma rule_udot (p : pattern) : rule p -> udot_rule p.
Proof.
  intros [-> | ->]; [apply udot_rule_vector|apply udot_rule_element].
Qed.

Lemma rule_extends (p : pattern) : rule p -> extends (exec p).
Proof.
  intros Hp prev x r tr H. destruct (rule_tail Hp) as (q & -> & Hq).
  rewrite exec_wordb in *.
  destruct (xorb _ _) eqn:X in H; [|discriminate].
  pose proof H as H'. apply exec_lit_some in H' as (s1 & m1 & -> & _ & _).
  cbn [app hd_error] in *. rewrite X.
  apply (@exec_extends (Lit "u" :: q) Hq prev ("u" :: s1) r tr H).
Qed.

Lemma rule_exact (p : pattern) (prev prev' : option ascii) (s r : str)
    (tr : trace) :
  rule p -> exec p prev s = Some tr -> s = chars tr ++ r ->
  is_word_opt prev' = is_word_opt prev ->
  exec p prev' (chars tr) = Some tr.
Proof.
  intros Hp H Hs Hprev.
  rewrite (@udot_rule_prev p prev' prev (chars tr) (rule_udot Hp) Hprev).
  destruct (rule_tail Hp) as (q & -> & Hq).
  rewrite exec_wordb in *.
  destruct (xorb _ _) eqn:X in H; [|discriminate].
  pose proof H as H'. apply exec_lit_some in H' as (s1 & m1 & -> & -> & _).
  cbn [chars hd_error] in *. rewrite X.
  apply (@exec_exact (Lit "u" :: q) Hq prev ("u" :: s1) (Ch "u" :: m1) r H Hs).
Qed.

Lemma search_extends (p : pattern) (x r : str) :
  rule p ->
  forall prev tr,
    search_from p prev x = Some tr ->
    exists tr', search_from p prev (x ++ r) = Some tr'.
Proof.
  intros Hp. induction x as [|c x IH]; intros prev tr; cbn [search_from].
  - destruct (exec p prev []) as [t1|] eqn:E; [|discriminate]. intros _.
    destruct (@rule_extends p Hp prev [] r t1 E) as [tr' E'].
    exists tr'. now apply search_from_hit.
  - destruct (exec p prev (c :: x)) as [t1|] eqn:E.
    + intros _. destruct (@rule_extends p Hp prev (c :: x) r t1 E) as [tr' E'].
      exists tr'. now apply search_from_hit.
    + intros H. destruct (IH _ _ H) as [tr' H']. cbn [app search_from].
      destruct (exec p prev (c :: x ++ r)); eauto.
Qed.

Lemma search_suffix (p : pattern) (pre s : str) :
  forall prev,
    search_from p prev (pre ++ s) = None ->
    search_from p (prev_after prev pre) s = None.
Proof.
  induction pre as [|c pre IH]; intros prev H; [exact H|].
  cbn [app search_from prev_after] in *.
  destruct (exec p prev (c :: pre ++ s)); [discriminate|]. now apply IH.
Qed.

Lemma search_prev (p : pattern) (prev prev' : option ascii) (s : str) :
  udot_rule p -> is_word_opt prev = is_word_opt prev' ->
  search_from p prev s = search_from p prev' s.
Proof.
  intros Hp H. destruct s as [|c s]; cbn [search_from];
    now rewrite (@udot_rule_prev p prev prev' _ Hp H).
Qed.

(** The match [re.search] finds in a line is the one it finds in the matched
    text alone. *)
Lemma rule_search_exact (p : pattern) (line : str) (tr : trace) :
  rule p -> re_search p line = Some tr ->
  re_search p (chars tr) = Some tr
  /\ exists pre post,
       line = pre ++ chars tr ++ post
       /\ is_word_opt (prev_after None pre) = false.
Proof.
  intros Hp H. unfold re_search in *.
  destruct (search_from_where _ _ _ H) as (pre & rest & -> & Hex).
  destruct (exec_consumes _ _ _ Hex) as [post Er].
  destruct (@udot_rule_needs p _ _ _ (rule_udot Hp) Hex) as [_ Hprev].
  split.
  - apply search_from_hit.
    apply (@rule_exact p _ None rest post tr Hp Hex Er). now rewrite Hprev.
  - exists pre, post. now rewrite <- Er.
Qed.

(** X11.  The text [encode] returns with a word is an instruction of its
    own: [encode] on that text alone returns the same word and the same
    text, so that the comment of a directive the script writes is encoded as
    the word of that directive. *)
Theorem matched_text_encodes (line : str) (mcode : Z) (match_ : str) :
  encode line = Ok (mcode, match_) -> mcode <> 0 ->
  encode match_ = Ok (mcode, match_).
Proof.
  intros He Hw. destruct (encode_word_cases _ He Hw) as [V|[N E]].
  - destruct V as (tr & a & l & r & S & Ia & Il & Ir & Ha & Hl & Hr & -> & ->).
    destruct (@rule_search_exact udot_vector_re line tr (or_introl eq_refl) S)
      as [S' _].
    cbn [group]. rewrite (encode_vector_found _ S' Ia Il Ir).
    destruct (Z.leb_spec a 31); [|lia]. destruct (Z.leb_spec l 31); [|lia].
    destruct (Z.leb_spec r 31); [|lia]. reflexivity.
  - destruct E
      as (tr & a & l & r & g & S & Ia & Il & Ir & Ig & Ha & Hl & Hr & Hg
          & -> & ->).
    destruct (@rule_search_exact udot_element_re line tr (or_intror eq_refl) S)
      as (S' & pre & post & El & Hprev).
    cbn [group].
    assert (Nv : re_search udot_vector_re (chars tr) = None).
    { destruct (re_search udot_vector_re (chars tr)) as [t1|] eqn:Ev;
        [|reflexivity].
      exfalso. unfold re_search in Ev, N.
      destruct (@search_extends udot_vector_re (chars tr) post
                  (or_introl eq_refl) None t1 Ev) as [t2 E2].
      rewrite El in N. apply search_suffix in N.
      rewrite (@search_prev udot_vector_re _ None _ udot_rule_vector) in N
        by (now rewrite Hprev).
      congruence. }
    rewrite encode_first, (encode_udot_vector_unmatched _ Nv).
    cbn [Z.eqb]. rewrite (encode_element_found _ S' Ia Il Ir Ig).
    destruct (Z.leb_spec a 31); [|lia]. destruct (Z.leb_spec l 31); [|lia].
    destruct (Z.leb_spec r 31); [|lia]. destruct (Z.leb_spec g 3); [|lia].
    reflexivity.
Qed.

Lemma matched_text_encodes_witness :
  encode (lit "udot v1.4s, v2.16b, v3.4b[2]")
  = Ok (0x6f83e841, lit "udot v1.4s, v2.16b, v3.4b[2]").
Proof.
  apply (@matched_text_encodes
           (lit "1: udot v1.4s, v2.16b, v3.4b[2]  // lane 2" ++ [newline])
           0x6f83e841 (lit "udot v1.4s, v2.16b, v3.4b[2]")).
  - vm_compute. reflexivity.
  - discriminate.
Defined.

(** ** The status *)

(** X12.  The run ends with status 0 exactly when no line fails an
    assertion and no line carries another word than the one computed, and
    with status 1 otherwise, whether [sys.exit(1)] or the exception ends
    it. *)
Theorem exit_status_classified (lines : list str) :
  exit_status (main lines)
  = (if existsb raises lines || existsb conflicting lines then 1 else 0)
  /\ (exit_status (main lines) = 0 <->
      forall line, In line lines -> raises line = false /\ conflicting line = false).
Proof.
  assert (E : exit_status (main lines)
              = if existsb raises lines || existsb conflicting lines
                then 1 else 0).
  { destruct (existsb raises lines) eqn:Hr.
    - destruct (raises_split _ Hr) as (pre & bad & post & e & -> & Hp & He).
      now rewrite (@main_stops pre bad post e Hp He).
    - rewrite (@main_through lines Hr). cbn [orb].
      destruct (existsb conflicting lines); [reflexivity|].
      destruct (existsb annotated lines); reflexivity. }
  split; [exact E|]. rewrite E. split.
  - intros H line Hin.
    destruct (existsb raises lines) eqn:Hr; [discriminate|].
    destruct (existsb conflicting lines) eqn:Hc; [discriminate|].
    split.
    + destruct (raises line) eqn:X; [|reflexivity].
      assert (existsb raises lines = true)
        by (apply existsb_exists; now exists line).
      congruence.
    + destruct (conflicting line) eqn:X; [|reflexivity].
      assert (existsb conflicting lines = true)
        by (apply existsb_exists; now exists line).
      congruence.
  - intros H.
    destruct (existsb raises lines) eqn:Hr.
    + apply existsb_exists in Hr as (l & Hin & Hl).
      destruct (H l Hin) as [Hl' _]. congruence.
    + destruct (existsb conflicting lines) eqn:Hc; [|reflexivity].
      apply existsb_exists in Hc as (l & Hin & Hl).
      destruct (H l Hin) as [_ Hl']. congruence.
Qed.

